(** * PlanetProfile magnetic induction: a shallow embedding

    The definitions below follow
    [PlanetProfile/MagneticInduction/MagneticInduction.py].  Real-valued
    quantities (radii, conductivities, frequencies) are rationals [Q],
    complex-valued ones are pairs of rationals, numpy arrays are total
    functions on normalised indices with an explicit shape, and Python
    exceptions are values of an error type.  Routines of other packages
    (scipy's ODE integrator and interpolator, numpy's square root and
    modulus, MoonMag's closed-form responses and normalisations) are
    section variables. *)

From Stdlib Require Import ZArith QArith Qpower Qabs List Sorted Bool Lia Lqa Psatz.
From stdpp Require Import gmap strings sorting pretty.
Import ListNotations.

#[local] Open Scope Z_scope.

(** ** Python exceptions and fallible computations *)

Inductive exn : Type :=
  | StopIteration
  | IndexError
  | ValueError
  | RuntimeError.

Inductive result (A : Type) : Type :=
  | Ok (a : A)
  | Raise (e : exn).
Arguments Ok {A} a.
Arguments Raise {A} e.

Definition rbind {A B : Type} (r : result A) (k : A -> result B) : result B :=
  match r with
  | Ok a => k a
  | Raise e => Raise e
  end.

Notation "x <~ r ;; k" := (rbind r (fun x => k))
  (at level 100, r at next level, right associativity).

(** Python [for x in xs: body], threading a state and stopping at the
    first exception. *)
Fixpoint for_each {X S : Type} (xs : list X) (body : X -> S -> result S)
    (s : S) : result S :=
  match xs with
  | [] => Ok s
  | x :: xs' => s' <~ body x s ;; for_each xs' body s'
  end.

(** ** Python [range] on integers *)

Definition range (lo hi : Z) : list Z :=
  map (fun i : nat => lo + Z.of_nat i) (seq 0 (Z.to_nat (hi - lo))).

(** ** Complex numbers with rational parts *)

Record Cplx : Type := mkC { Re : Q; Im : Q }.

Module C.
Definition zero : Cplx := mkC 0 0.
Definition of_real (x : Q) : Cplx := mkC x 0.
Definition of_int (n : Z) : Cplx := of_real (inject_Z n).
Definition I : Cplx := mkC 0 1.
Definition add (z w : Cplx) : Cplx := mkC (Re z + Re w) (Im z + Im w).
Definition opp (z : Cplx) : Cplx := mkC (- Re z) (- Im z).
Definition sub (z w : Cplx) : Cplx := mkC (Re z - Re w) (Im z - Im w).
Definition mul (z w : Cplx) : Cplx :=
  mkC (Re z * Re w - Im z * Im w) (Re z * Im w + Im z * Re w).
Definition div (z w : Cplx) : Cplx :=
  let d := (Re w * Re w + Im w * Im w)%Q in
  mkC ((Re z * Re w + Im z * Im w) / d) ((Im z * Re w - Re z * Im w) / d).
Definition conj (z : Cplx) : Cplx := mkC (Re z) (- Im z).
Definition sq (z : Cplx) : Cplx := mul z z.
(** Equality of complex values (the parts are compared as rationals). *)
Definition eq (z w : Cplx) : Prop := (Re z == Re w)%Q /\ (Im z == Im w)%Q.
Definition eqb (z w : Cplx) : bool :=
  Qeq_bool (Re z) (Re w) && Qeq_bool (Im z) (Im w).
End C.

(** Strict comparison of reals, [x < y]. *)
Definition Qltb (x y : Q) : bool := negb (Qle_bool y x).

(** ** numpy arrays

    An array has a shape and one value per index; an index is
    normalised the way numpy does it (a negative index counts from the
    end, anything outside [-size, size) raises [IndexError]). *)

Record ndarray (A : Type) : Type :=
  mkArray { shape : list nat; data : list nat -> A }.
Arguments mkArray {A} shape data.
Arguments shape {A} _.
Arguments data {A} _ _.

Definition wrap_index (size : nat) (i : Z) : result nat :=
  if (0 <=? i) && (i <? Z.of_nat size) then Ok (Z.to_nat i)
  else if (- Z.of_nat size <=? i) && (i <? 0) then Ok (Z.to_nat (Z.of_nat size + i))
  else Raise IndexError.

Fixpoint wrap_indices (sh : list nat) (idx : list Z) : result (list nat) :=
  match sh, idx with
  | [], [] => Ok []
  | size :: sh', i :: idx' =>
      k <~ wrap_index size i ;;
      ks <~ wrap_indices sh' idx' ;;
      Ok (k :: ks)
  | _, _ => Raise IndexError
  end.

Definition list_nat_eqb (k1 k2 : list nat) : bool :=
  bool_decide (k1 = k2).

Module np.
Definition zeros {A : Type} (zero : A) (sh : list nat) : ndarray A :=
  mkArray sh (fun _ => zero).
Definition zeros_like {A B : Type} (zero : A) (a : ndarray B) : ndarray A :=
  zeros zero (shape a).
(** [a[idx]] *)
Definition getitem {A : Type} (a : ndarray A) (idx : list Z) : result A :=
  k <~ wrap_indices (shape a) idx ;; Ok (data a k).
(** [a[idx] = v] *)
Definition setitem {A : Type} (a : ndarray A) (idx : list Z) (v : A)
    : result (ndarray A) :=
  k <~ wrap_indices (shape a) idx ;;
  Ok (mkArray (shape a) (fun k' => if list_nat_eqb k k' then v else data a k')).
(** Assignment through a slice: every position selected by [sel]
    receives [f] of its index and old value. *)
Definition update_where {A : Type} (a : ndarray A) (sel : list nat -> bool)
    (f : list nat -> A -> A) : ndarray A :=
  mkArray (shape a) (fun k => if sel k then f k (data a k) else data a k).
End np.

(** ** Linear lists of degree and order

    [[n for n in range(1, nMax+1) for _ in range(-n, n+1)]] and
    [[m for n in range(1, nMax+1) for m in range(-n, n+1)]]. *)

Definition nLin_of (nMax : Z) : list Z :=
  flat_map (fun n => map (fun _ => n) (range (- n) (n + 1))) (range 1 (nMax + 1)).

Definition mLin_of (nMax : Z) : list Z :=
  flat_map (fun n => map (fun m => m) (range (- n) (n + 1))) (range 1 (nMax + 1)).

(** ** Small list helpers in Python's terms *)

(** [xs[-1]] *)
Definition last_item {A : Type} (xs : list A) : result A :=
  match rev xs with
  | x :: _ => Ok x
  | [] => Raise IndexError
  end.

(** [xs[i]] for a non-negative position. *)
Definition item {A : Type} (xs : list A) (i : nat) : result A :=
  match nth_error xs i with
  | Some x => Ok x
  | None => Raise IndexError
  end.

(** A list comprehension whose element expression can raise. *)
Fixpoint collect {X A : Type} (f : X -> result A) (xs : list X) : result (list A) :=
  match xs with
  | [] => Ok []
  | x :: xs' => a <~ f x ;; rest <~ collect f xs' ;; Ok (a :: rest)
  end.

(** [int(m < 0)] *)
Definition int_of_bool (b : bool) : Z := if b then 1 else 0.

(** ** The radial equation of the numeric method ([fn_dQdr]) *)

(** [next((i for i, rBd_m in enumerate(rBds_m) if rBd_m >= ri_m))],
    counting from position [i]. *)
Fixpoint next_above_from (i : nat) (rBds_m : list Q) (ri_m : Q) : result nat :=
  match rBds_m with
  | [] => Raise StopIteration
  | rBd_m :: rest =>
      if Qle_bool ri_m rBd_m then Ok i else next_above_from (S i) rest ri_m
  end.

Definition next_above (rBds_m : list Q) (ri_m : Q) : result nat :=
  next_above_from 0 rBds_m ri_m.

Module fn_dQdr.
(** The object built by [fn_dQdr(n, kBlw_pm, rBds_m)]. *)
Record t : Type := init { n : Z; kBlw_pm : list Cplx; rBds_m : list Q }.

(** [fn_k], on the list of radii it iterates over. *)
Definition fn_k_list (self : t) (r_m : list Q) : result (list Cplx) :=
  iNextAbove <~ collect (next_above (rBds_m self)) r_m ;;
  collect (item (kBlw_pm self)) iNextAbove.

(** [fn_k] at one radius: the one-element array is its element. *)
Definition fn_k (self : t) (r_m : Q) : result Cplx :=
  ks <~ fn_k_list self [r_m] ;; item ks 0.

(** The right-hand side for a wavenumber [k] already looked up. *)
Definition rhs (n : Z) (k : Cplx) (r : Q) (Qv : Cplx) : Cplx :=
  C.sub
    (C.mul
       (C.div
          (C.div
             (C.mul (C.mul (C.opp (C.sq k)) (C.of_real r)) (C.of_int (n + 1)))
             (C.of_int (2 * n + 1)))
          (C.of_int n))
       (C.sq (C.sub Qv (C.of_real (inject_Z n / inject_Z (n + 1))))))
    (C.mul (C.of_real (inject_Z (2 * n + 1) / r)) Qv).

(** [__call__(r, Q)] *)
Definition call (self : t) (r : Q) (Qv : Cplx) : result Cplx :=
  k <~ fn_k self r ;; Ok (rhs (n self) k r Qv).
End fn_dQdr.

Section Numeric.
(** [scipy.integrate.solve_ivp(fun, (t0, tf), [y0], method=...)],
    reduced to the value [['y'][0,-1]] that the caller reads. *)
Variable ODEsolve :
  (Q -> Cplx -> result Cplx) -> Q * Q -> Cplx -> string -> result Cplx.

Definition SolveForQ (n : Z) (kBlw_pm : list Cplx) (rBds_m : list Q) (R_m : Q)
    (solveMethod : string) (rMin : Q) : result Cplx :=
  let dQdr := fn_dQdr.init n kBlw_pm rBds_m in
  rTop <~ last_item rBds_m ;;
  Qend <~ ODEsolve (fn_dQdr.call dQdr) (rMin, rTop) C.zero solveMethod ;;
  rTop' <~ last_item rBds_m ;;
  Ok (C.mul Qend (C.of_real ((rTop' / R_m) ^ (n + 2))%Q)).
End Numeric.

(** ** Columns of a two-index array *)

(** [a[:, j]] *)
Definition get_column {A : Type} (a : ndarray A) (j : Z) : result (list A) :=
  match shape a with
  | [d0; d1] => c <~ wrap_index d1 j ;; Ok (map (fun i => data a [i; c]) (seq 0 d0))
  | _ => Raise IndexError
  end.

(** [a[:, j] = vals]; a list of another length than the column is
    refused (numpy's broadcasting of a single value is not needed by the
    callers below). *)
Definition set_column {A : Type} (a : ndarray A) (j : Z) (vals : list A)
    : result (ndarray A) :=
  match shape a with
  | [d0; d1] =>
      c <~ wrap_index d1 j ;;
      if (length vals =? d0)%nat then
        Ok (np.update_where a
              (fun k => match k with [_; c'] => (c' =? c)%nat | _ => false end)
              (fun k old => match k with i :: _ => nth i vals old | [] => old end))
      else Raise ValueError
  | _ => Raise IndexError
  end.

(** ** Induced moments ([CalcInducedMoments]) *)

(** The attributes of [Planet.Magnetic] that [CalcInducedMoments] sets. *)
Record Moments : Type := mkMoments {
  nLin : list Z;
  mLin : list Z;
  nprmLin : list Z;
  mprmLin : list Z;
  Aen : ndarray Cplx;
  Amp : list Q;
  phase : list Q;
  Binm_nT : ndarray Cplx;
  BinmLin_nT : list (list Cplx)
}.

(** The body of the innermost loop of the spherically symmetric case:
    [Binm_nT[iPeak, int(m<0), n, m]
       = n/(n+1) * Benm_nT[iPeak, int(m<0), n, m] * Aen[iPeak, n]]. *)
Definition sym_assign (Benm_nT Aen : ndarray Cplx) (iPeak n m : Z)
    (Binm_nT : ndarray Cplx) : result (ndarray Cplx) :=
  b <~ np.getitem Benm_nT [iPeak; int_of_bool (m <? 0); n; m] ;;
  a <~ np.getitem Aen [iPeak; n] ;;
  np.setitem Binm_nT [iPeak; int_of_bool (m <? 0); n; m]
    (C.mul (C.mul (C.of_real (inject_Z n / inject_Z (n + 1))) b) a).

(** The three nested loops over [range(nExc)], [nprmLin] and [mprmLin]. *)
Definition sym_moments (nExc : Z) (nprmLin mprmLin : list Z)
    (Benm_nT Aen Binm_nT : ndarray Cplx) : result (ndarray Cplx) :=
  for_each (range 0 nExc) (fun iPeak =>
    for_each nprmLin (fun n =>
      for_each mprmLin (fun m => sym_assign Benm_nT Aen iPeak n m)))
    Binm_nT.

(** [Binm_nT[:,:,nprm,:] = [Benm_nT[i,:,nprm,:] * Aen[i,nprm] for i in range(nExc)]];
    the arrays must agree in shape. *)
Definition numeric_assign (nExc nprm : Z) (Benm_nT Aen Binm_nT : ndarray Cplx)
    : result (ndarray Cplx) :=
  match shape Benm_nT, shape Aen with
  | [e0; e1; e2; e3], [a0; a1] =>
      j <~ wrap_index e2 nprm ;;
      ja <~ wrap_index a1 nprm ;;
      if bool_decide (shape Binm_nT = shape Benm_nT)
         && (Z.of_nat e0 =? nExc) && (Z.of_nat a0 =? nExc) then
        Ok (np.update_where Binm_nT
              (fun k => match k with [_; _; n; _] => (n =? j)%nat | _ => false end)
              (fun k _ => match k with
                          | i :: _ => C.mul (data Benm_nT k) (data Aen [i; ja])
                          | [] => C.zero
                          end))
      else Raise ValueError
  | _, _ => Raise IndexError
  end.

Section CalcInducedMoments.
(** [Constants.mu0] *)
Variable mu0 : Q.
(** numpy's [sqrt], [abs], [angle(., deg=True)] and [degrees]. *)
Variable np_sqrt : Cplx -> Cplx.
Variable np_abs : Cplx -> Q.
Variable np_angle_deg : Cplx -> Q.
Variable np_degrees : Q -> Q.
Variable ODEsolve :
  (Q -> Cplx -> result Cplx) -> Q * Q -> Cplx -> string -> result Cplx.
(** MoonMag's [InducedAeList]: radii, conductivities, frequencies,
    [1/R_m], degree and [do_parallel] to amplitudes, magnitudes and
    arguments. *)
Variable AeList :
  list Q -> list Q -> list Q -> Q -> Z -> bool -> list Cplx * list Q * list Q.
(** MoonMag's [BiList] for asymmetric boundaries. *)
Variable XidT : Type.
Variable BiAsym :
  list Q -> list Q -> list Q -> ndarray Cplx -> ndarray Cplx -> ndarray Cplx ->
  Q -> list Z -> list Z -> Z -> Z -> bool -> XidT -> ndarray Cplx.

(** [np.sqrt(1j * Constants.mu0 * omega * sigmaLayers_Sm)], one row per
    frequency. *)
Definition wavenumbers (omegaExc_radps sigmaLayers_Sm : list Q) : list (list Cplx) :=
  map (fun omega =>
         map (fun sigma =>
                np_sqrt (C.mul (C.mul (C.mul C.I (C.of_real mu0)) (C.of_real omega))
                               (C.of_real sigma)))
             sigmaLayers_Sm)
      omegaExc_radps.

(** One turn of [for nprm in range(1, nprmMax+1)] of the numeric method. *)
Definition numeric_step (nExc : Z) (k_pm : list (list Cplx))
    (rSigChange_m omegaExc_radps : list Q) (R_m : Q) (EckhardtSolveMethod : string)
    (rMinODE : Q) (Benm_nT : ndarray Cplx) (nprm : Z)
    (st : ndarray Cplx * ndarray Cplx) : result (ndarray Cplx * ndarray Cplx) :=
  let '(Aen, Binm_nT) := st in
  Qs <~ collect (fun i : nat =>
                   k_row <~ item k_pm i ;;
                   SolveForQ ODEsolve nprm k_row rSigChange_m R_m
                             EckhardtSolveMethod rMinODE)
                (seq 0 (length omegaExc_radps)) ;;
  Aen' <~ set_column Aen nprm
            (map (fun q => C.div (C.mul q (C.of_int (nprm + 1))) (C.of_int nprm)) Qs) ;;
  Binm' <~ numeric_assign nExc nprm Benm_nT Aen' Binm_nT ;;
  Ok (Aen', Binm').

Definition do_parallel_inner (DO_PARALLEL INDUCTOGRAM_IN_PROGRESS DO_EXPLOREOGRAM : bool)
    : bool :=
  DO_PARALLEL && negb (INDUCTOGRAM_IN_PROGRESS || DO_EXPLOREOGRAM).

Definition CalcInducedMoments
    (* Planet.Magnetic *)
    (nprmMax pMax nExc : Z) (inductMethod : string)
    (sigmaLayers_Sm rSigChange_m omegaExc_radps : list Q)
    (Benm_nT Binm_nT asymShape_m gravShape_m : ndarray Cplx) (Xid : XidT)
    (* Planet.Bulk *)
    (R_m : Q)
    (* Params *)
    (CALC_ASYM DO_PARALLEL INDUCTOGRAM_IN_PROGRESS DO_EXPLOREOGRAM : bool)
    (EckhardtSolveMethod : string) (rMinODE : Q) : result Moments :=
  let nMax := nprmMax + pMax in
  let nLin := nLin_of nMax in
  let mLin := mLin_of nMax in
  let nprmLin := nLin_of nprmMax in
  let mprmLin := mLin_of nprmMax in
  let Aen0 := np.zeros C.zero [Z.to_nat nExc; Z.to_nat (nprmMax + 1)] in
  let par := do_parallel_inner DO_PARALLEL INDUCTOGRAM_IN_PROGRESS DO_EXPLOREOGRAM in
  res <~
    (if String.eqb inductMethod "Eckhardt1963" || String.eqb inductMethod "numeric" then
       let k_pm := wavenumbers omegaExc_radps sigmaLayers_Sm in
       st <~ for_each (range 1 (nprmMax + 1))
               (numeric_step nExc k_pm rSigChange_m omegaExc_radps R_m
                             EckhardtSolveMethod rMinODE Benm_nT)
               (Aen0, Binm_nT) ;;
       col <~ get_column (fst st) 1 ;;
       Ok (fst st, map np_abs col, map (fun a => - np_angle_deg a)%Q col, snd st)
     else if String.eqb inductMethod "Srivastava1966" || String.eqb inductMethod "layer" then
       let '(Ae1, Amp, AeArg) :=
         AeList rSigChange_m sigmaLayers_Sm omegaExc_radps (1 / R_m)%Q 1 par in
       Aen1 <~ set_column Aen0 1 Ae1 ;;
       Aen <~ for_each (range 2 nprmMax)
                (fun n A =>
                   let '(Ae_n, _, _) :=
                     AeList rSigChange_m sigmaLayers_Sm omegaExc_radps (1 / R_m)%Q n par in
                   set_column A n Ae_n)
                Aen1 ;;
       Binm <~ (if CALC_ASYM then
                  Ok (BiAsym rSigChange_m sigmaLayers_Sm omegaExc_radps asymShape_m
                             gravShape_m Benm_nT (1 / R_m)%Q nLin mLin pMax nprmMax par Xid)
                else sym_moments nExc nprmLin mprmLin Benm_nT Aen Binm_nT) ;;
       Ok (Aen, Amp, map (fun a => - np_degrees a)%Q AeArg, Binm)
     else Raise ValueError) ;;
  let '(Aen, Amp, phase, Binm) := res in
  BinmLin <~ collect (fun iPeak =>
               collect (fun nm : Z * Z =>
                          np.getitem Binm [iPeak; int_of_bool (snd nm <? 0); fst nm; snd nm])
                       (combine nLin mLin))
             (range 0 nExc) ;;
  Ok (mkMoments nLin mLin nprmLin mprmLin Aen Amp phase Binm BinmLin).
End CalcInducedMoments.

(** One degree's block of the two linear lists. *)
Definition nBlock (n : Z) : list Z := map (fun _ => n) (range (- n) (n + 1)).
Definition mBlock (n : Z) : list Z := map (fun m => m) (range (- n) (n + 1)).

(** *** The symmetric loops as one loop over triples [(iPeak, n, m)] *)

(** Where [[iPeak, int(m<0), n, m]] lands in an array whose last
    dimension is [d3]. *)
Definition sym_key (d3 : nat) (t : Z * Z * Z) : list nat :=
  let '(iPeak, n, m) := t in
  [Z.to_nat iPeak; Z.to_nat (int_of_bool (m <? 0)); Z.to_nat n;
   Z.to_nat (if m <? 0 then Z.of_nat d3 + m else m)].

(** The value assigned there. *)
Definition sym_value (d3 : nat) (Benm_nT Aen : ndarray Cplx) (t : Z * Z * Z) : Cplx :=
  let '(iPeak, n, m) := t in
  C.mul (C.mul (C.of_real (inject_Z n / inject_Z (n + 1))) (data Benm_nT (sym_key d3 t)))
        (data Aen [Z.to_nat iPeak; Z.to_nat n]).

(** Indices inside arrays of shapes [[d0; 2; d2; d3]] and [[d0; a1]]. *)
Definition sym_valid (d0 d2 d3 a1 : nat) (t : Z * Z * Z) : Prop :=
  let '(iPeak, n, m) := t in
  0 <= iPeak < Z.of_nat d0 /\ 0 <= n < Z.of_nat d2 /\ n < Z.of_nat a1 /\
  - Z.of_nat d3 <= m < Z.of_nat d3.

Definition sym_body (Benm_nT Aen : ndarray Cplx) (p : Z * Z * Z)
    : ndarray Cplx -> result (ndarray Cplx) :=
  sym_assign Benm_nT Aen (fst (fst p)) (snd (fst p)) (snd p).

(** ** The numeric method in the words of the specification

    [dQ/dr = -k(r)^2 * r * (n+1)/((2n+1)*n) * (Q - n/(n+1))^2 - (2n+1)/r * Q],
    the wavenumber [k = sqrt(i * mu0 * omega * sigma)], and the amplitude
    [A_n = Q(R_surface) * (R_surface/R_ref)^(n+2) * (n+1)/n]. *)





(** ** Floating-point values that may be NaN

    Conductivities and ionosphere bounds can be [np.nan]; comparisons
    with NaN are false, except [!=] which is true. *)

Inductive fval : Type :=
  | Fin (q : Q)
  | NaN.

Module F.
Definition isnan (x : fval) : bool := match x with NaN => true | Fin _ => false end.
Definition isfinite (x : fval) : bool := negb (isnan x).
(** [x == y] *)
Definition eqb (x y : fval) : bool :=
  match x, y with
  | Fin a, Fin b => Qeq_bool a b
  | _, _ => false
  end.
(** [x != y] *)
Definition neb (x y : fval) : bool := negb (eqb x y).
(** [x < y] and [x <= y] *)
Definition ltb (x y : fval) : bool :=
  match x, y with
  | Fin a, Fin b => Qltb a b
  | _, _ => false
  end.
Definition leb (x y : fval) : bool :=
  match x, y with
  | Fin a, Fin b => Qle_bool a b
  | _, _ => false
  end.
Definition add (x y : fval) : fval :=
  match x, y with
  | Fin a, Fin b => Fin (a + b)
  | _, _ => NaN
  end.
Definition sub (x y : fval) : fval :=
  match x, y with
  | Fin a, Fin b => Fin (a - b)
  | _, _ => NaN
  end.
Definition mul (x y : fval) : fval :=
  match x, y with
  | Fin a, Fin b => Fin (a * b)
  | _, _ => NaN
  end.
Definition div (x y : fval) : fval :=
  match x, y with
  | Fin a, Fin b => Fin (a / b)
  | _, _ => NaN
  end.
Definition of_Z (n : Z) : fval := Fin (inject_Z n).
End F.

(** [np.linspace(start, stop, num)]: [num] evenly spaced values, the
    last one being [stop]. *)
Definition linspace (start stop : fval) (num : Z) : result (list fval) :=
  if num <? 0 then Raise ValueError
  else
    let div := num - 1 in
    let step := F.div (F.sub stop start) (F.of_Z div) in
    Ok (map (fun i : nat =>
               if (0 <? div) && (Z.of_nat i =? div) then stop
               else F.add (F.mul (F.of_Z (Z.of_nat i)) step) start)
            (seq 0 (Z.to_nat num))).

(** ** Layer reduction ([SetupInduction], the block that builds
    [sigmaLayers_Sm] and [rSigChange_m]) *)

(** [np.where(np.flip(Planet.phase) == 0)[0]] *)
Definition liquid_indices (phase : list Z) : list nat :=
  map fst (List.filter (fun ip : nat * Z => snd ip =? 0)
                  (combine (seq 0 (length phase)) (rev phase))).

(** [np.all(np.isnan(xs))] *)
Definition all_nan (xs : list fval) : bool := forallb F.isnan xs.

(** The optional ionosphere: the values left in
    [Magnetic.ionosBounds_m] and [Magnetic.sigmaIonosPedersen_Sm], and
    the lists [zIonos_m], [sigmaIonos_Sm] to append. *)
Definition ionosphere (ionosBounds_m sigmaIonosPedersen_Sm : option (list fval)) (R_m : Q)
    : (list fval * list fval) * (list fval * list fval) :=
  let '(bounds, sigmas) :=
    match ionosBounds_m, sigmaIonosPedersen_Sm with
    | Some b, Some s => (b, s)
    | _, _ => ([NaN], [NaN])
    end in
  if all_nan bounds || all_nan sigmas then (([NaN], [NaN]), ([], []))
  else
    let zIonos_m := map (F.add (Fin R_m)) bounds in
    let sigmaIonos_Sm :=
      if (length sigmas =? 1)%nat && (length bounds =? 2)%nat
      then Fin 0 :: sigmas else sigmas in
    ((bounds, sigmas), (zIonos_m, sigmaIonos_Sm)).

(** [sigma[np.logical_or(np.isnan(sigma), sigma == 0)] = sigmaDef] and then
    [sigma[sigma < sigmaMin] = sigmaDef]. *)
Definition floor_conductivity (sigmaDef_Sm sigmaMin_Sm : Q) (sigma : list fval) : list fval :=
  let s1 := map (fun s => if F.isnan s || F.eqb s (Fin 0) then Fin sigmaDef_Sm else s) sigma in
  map (fun s => if F.ltb s (Fin sigmaMin_Sm) then Fin sigmaDef_Sm else s) s1.

(** [[i for i, sig in enumerate(sigma) if sig != np.append(sigma, np.nan)[i+1]]] *)
Definition change_indices (sigma : list fval) : list nat :=
  map fst (List.filter (fun isig : nat * fval =>
                     F.neb (snd isig) (nth (S (fst isig)) (sigma ++ [NaN]) NaN))
                  (combine (seq 0 (length sigma)) sigma)).

Section LayerReduction.
(** [Constants.sigmaDef_Sm] and [Constants.sigmaMin_Sm]. *)
Variables (sigmaDef_Sm sigmaMin_Sm : Q).
(** [scipy.interpolate.interp1d(x, y, kind=kind, bounds_error=False,
    fill_value=fill)(xNew)]. *)
Variable interp1d : list fval -> list fval -> string -> fval -> list fval -> list fval.

(** The optional resampling of the ocean onto [nIntL] layers. *)
Definition reduce_ocean (indsLiq : list nat) (R_m zb_km D_km : Q) (nIntL : Z)
    (oceanInterpMethod : string) (rLayers_m sigmaInduct_Sm : list fval)
    : result (list fval * list fval) :=
  let rBot_m := Fin (R_m - (zb_km + D_km) * 1000) in
  iLast <~ last_item indsLiq ;;
  rTop_m <~ item rLayers_m iLast ;;
  grid <~ linspace rBot_m rTop_m (nIntL + 1) ;;
  let rOcean_m := skipn 1 grid in
  rLiq <~ collect (item rLayers_m) indsLiq ;;
  sigLiq <~ collect (item sigmaInduct_Sm) indsLiq ;;
  let '(rModel_m, sigmaModel_Sm) :=
    if (length indsLiq =? 1)%nat
    then (rBot_m :: rLiq, map (fun s => F.mul s (Fin (1001 # 1000))) sigLiq ++ sigLiq)
    else (rLiq, sigLiq) in
  let sigmaOcean_Sm :=
    interp1d rModel_m sigmaModel_Sm oceanInterpMethod (Fin sigmaDef_Sm) rOcean_m in
  iFirst <~ item indsLiq 0 ;;
  Ok (firstn iFirst rLayers_m ++ rOcean_m ++ skipn (S iLast) rLayers_m,
      firstn iFirst sigmaInduct_Sm ++ sigmaOcean_Sm ++ skipn (S iLast) sigmaInduct_Sm).

(** What the block leaves in [Planet.Magnetic]. *)
Record Layers : Type := mkLayers {
  ionosBounds_m : list fval;
  sigmaIonosPedersen_Sm : list fval;
  sigmaLayers_Sm : list fval;
  rSigChange_m : list fval
}.

Definition reduce_layers
    (* Planet *)
    (phase : list Z) (r_m : list Q) (sigma_Sm : list fval)
    (ionosBounds_m sigmaIonosPedersen_Sm : option (list fval))
    (R_m zb_km D_km : Q) (NO_H2O : bool)
    (* Params *)
    (REDUCED_INDUCT : bool) (nIntL : Z) (oceanInterpMethod : string)
    : result Layers :=
  let indsLiq := liquid_indices phase in
  let '((bounds, sigmas), (zIonos_m, sigmaIonos_Sm)) :=
    ionosphere ionosBounds_m sigmaIonosPedersen_Sm R_m in
  let rLayers_m := rev (map Fin (removelast r_m)) ++ zIonos_m in
  let sigmaInduct_Sm :=
    floor_conductivity sigmaDef_Sm sigmaMin_Sm (rev sigma_Sm ++ sigmaIonos_Sm) in
  rs <~ (if negb (length indsLiq =? 0)%nat && REDUCED_INDUCT && negb NO_H2O
         then reduce_ocean indsLiq R_m zb_km D_km nIntL oceanInterpMethod
                           rLayers_m sigmaInduct_Sm
         else Ok (rLayers_m, sigmaInduct_Sm)) ;;
  let '(rLayers_m, sigmaInduct_Sm) := rs in
  let iChange := change_indices sigmaInduct_Sm in
  sigmaLayers <~ collect (item sigmaInduct_Sm) iChange ;;
  rSigChange <~ collect (item rLayers_m) iChange ;;
  Ok (mkLayers bounds sigmas sigmaLayers rSigChange).

(** [sigmaLayers_Sm[iOcean] = sigmaLayers_Sm[iOcean] * sigmaScaling] with
    [iOcean = (rSigChange_m <= R_m - zb_km) & (rSigChange_m > R_m - D_km)]. *)
Definition apply_sigmaScaling (sigmaScaling : option Q) (R_m zb_km D_km : Q)
    (rSigChange_m sigmaLayers_Sm : list fval) : result (list fval) :=
  match sigmaScaling with
  | None => Ok sigmaLayers_Sm
  | Some scale =>
      if (length rSigChange_m =? length sigmaLayers_Sm)%nat then
        Ok (map (fun rs : fval * fval =>
                   if F.leb (fst rs) (Fin (R_m - zb_km)) && F.ltb (Fin (R_m - D_km)) (fst rs)
                   then F.mul (snd rs) (Fin scale) else snd rs)
                (combine rSigChange_m sigmaLayers_Sm))
      else Raise IndexError
  end.
End LayerReduction.

(** *** The collapse of runs, by recursion on the lists

    [collapse_runs sigma xs] keeps [xs[i]] for the positions [i] where
    [sigma[i] != np.append(sigma, np.nan)[i+1]]; it is what indexing [xs]
    with [change_indices sigma] returns. *)
Fixpoint collapse_runs {A : Type} (sigma : list fval) (xs : list A) : list A :=
  match sigma, xs with
  | s :: sigma', x :: xs' =>
      if F.neb s (hd NaN (sigma' ++ [NaN]))
      then x :: collapse_runs sigma' xs'
      else collapse_runs sigma' xs'
  | _, _ => []
  end.

(** Orderings of lists of radii and conductivities. *)
Definition strictly_increasing (l : list fval) : Prop :=
  forall (i j : nat) x y,
    (i < j)%nat -> nth_error l i = Some x -> nth_error l j = Some y -> F.ltb x y = true.


(** Radii in strictly descending order, as the interior solver stores them. *)
Definition strictly_decreasing (l : list Q) : Prop :=
  forall (i j : nat) x y,
    (i < j)%nat -> nth_error l i = Some x -> nth_error l j = Some y -> (y < x)%Q.

(** *** Valid input profiles

    The interior solver hands over radii in strictly descending order
    (outer to inner) with one conductivity and one phase per layer; an
    ionosphere, when present, lies above every layer with ascending
    bounds and one conductivity per bound; and when the ocean is
    resampled, the seafloor radius [R_m - (zb_km + D_km)*1e3] is at or
    above every layer under the first liquid layer and below the top of
    the last liquid layer. *)
Definition valid_profile (phase : list Z) (r_m : list Q) (sigma_Sm : list fval)
    (ionosBounds_m sigmaIonosPedersen_Sm : option (list fval))
    (R_m zb_km D_km : Q) (NO_H2O REDUCED_INDUCT : bool) (nIntL : Z) : Prop :=
  let zIonos_m := fst (snd (ionosphere ionosBounds_m sigmaIonosPedersen_Sm R_m)) in
  let sigmaIonos_Sm := snd (snd (ionosphere ionosBounds_m sigmaIonosPedersen_Sm R_m)) in
  let rLayers_m := rev (map Fin (removelast r_m)) ++ zIonos_m in
  let rBot_m := Fin (R_m - (zb_km + D_km) * 1000) in
  strictly_decreasing r_m /\
  length sigma_Sm = length (removelast r_m) /\
  length phase = length sigma_Sm /\
  strictly_increasing zIonos_m /\
  (forall r z, In r r_m -> In z zIonos_m -> F.ltb (Fin r) z = true) /\
  length sigmaIonos_Sm = length zIonos_m /\
  (REDUCED_INDUCT = true -> NO_H2O = false -> liquid_indices phase <> [] ->
   0 <= nIntL /\
   forall iFirst iLast rTop_m,
     nth_error (liquid_indices phase) 0 = Some iFirst ->
     last_item (liquid_indices phase) = Ok iLast ->
     nth_error rLayers_m iLast = Some rTop_m ->
     F.ltb rBot_m rTop_m = true /\
     forall x, In x (firstn iFirst rLayers_m) -> F.leb x rBot_m = true).

(** ** The frozen-ocean check at the head of [SetupInduction]

    [indsLiq = np.where(np.flip(Planet.phase) == 0)[0]]; with no liquid
    layer and [inductOtype != 'sigma'] the profile is marked invalid when
    an inductogram is being made, and only a debug message is logged
    otherwise.  Returns [Planet.Do.VALID] and [Planet.invalidReason]. *)
Definition frozen_ocean_check (phase : list Z) (inductOtype : string)
    (DO_INDUCTOGRAM REDUCED_INDUCT NO_H2O : bool)
    (VALID : bool) (invalidReason : option string) : bool * option string :=
  let indsLiq := liquid_indices phase in
  if (length indsLiq =? 0)%nat && negb (String.eqb inductOtype "sigma") then
    if DO_INDUCTOGRAM then
      (false, Some "Ocean completely frozen in inductogram"%string)
    else if REDUCED_INDUCT && negb NO_H2O then
      (VALID, invalidReason)
    else (VALID, invalidReason)
  else (VALID, invalidReason).

(** ** The degree cap of the asymmetric shape

    The head of the [if Params.CALC_ASYM:] block of [SetupInduction]:
    what becomes of [Params.CALC_ASYM] and [Planet.Magnetic.pMax], and
    whether [SetAsymShape] is called.  [pMax] may be [None]. *)
Record AsymGuard : Type := mkAsymGuard {
  guard_CALC_ASYM : bool;
  guard_pMax : option Z;
  calls_SetAsymShape : bool
}.

Definition asym_guard (CALC_ASYM : bool) (pMax : option Z) (ALLOW_LOW_PMAX : bool)
    : AsymGuard :=
  if CALC_ASYM then
    if bool_decide (pMax = Some 0) then
      mkAsymGuard false pMax false
    else
      let pMax' :=
        match pMax with
        | Some p => if (p <? 2) && negb ALLOW_LOW_PMAX then Some 2 else Some p
        | None => None
        end in
      mkAsymGuard true pMax' true
  else mkAsymGuard false (Some 0) false.

(** ** The process-wide cache [EOSlist]

    [EOSlist.loaded] holds excitation spectra, shape files and coupling
    coefficients under string keys; [EOSlist.ranges] holds a description
    under the same keys. *)

(** The columns [np.loadtxt] returns for a shape file. *)
Record ShapeFile : Type := mkShapeFile {
  file_pLin : list Z;
  file_qLin : list Z;
  file_Cpq_km : list Q;
  file_Spq_km : list Q
}.

Section Cache.
(** The coupling coefficients returned by MoonMag's [get_all_Xid]. *)
Variable XidT : Type.

Inductive Loaded : Type :=
  | LoadedXid (Xid : XidT)
  | LoadedShape (f : ShapeFile).

Record EOSlistT : Type := mkEOSlist {
  loaded : gmap string Loaded;
  ranges : gmap string string
}.

Variable LoadXid : Z -> Z -> Z -> list Z -> list Z -> XidT.

(** [XidLabel = f''] *)
Definition XidLabel : string := "".

(** The [# Fetch Xid array] block: the value left in
    [Planet.Magnetic.Xid] and the cache afterwards. *)
Definition fetch_Xid (nprmMax pMax : Z) (EOSlist : EOSlistT) : Loaded * EOSlistT :=
  match loaded EOSlist !! XidLabel with
  | None =>
      let nMax := nprmMax + pMax in
      let nLin := nLin_of nMax in
      let mLin := mLin_of nMax in
      let Xid := LoadXid nprmMax pMax nMax nLin mLin in
      (LoadedXid Xid,
       mkEOSlist (<[XidLabel := LoadedXid Xid]> (loaded EOSlist))
                 (<[XidLabel := (pretty nprmMax +:+ "x" +:+ pretty pMax +:+ "x"
                                 +:+ pretty nMax)%string]> (ranges EOSlist)))
  | Some cached => (cached, EOSlist)
  end.
End Cache.

(** ** Reloading induced moments ([ReloadMoments]) *)

(** The arrays [loadmat] reads back from the moments file. *)
Record MomentsFile : Type := mkMomentsFile {
  saved_Benm_nT : ndarray Cplx;
  saved_Binm_nT : ndarray Cplx;
  saved_omegaExc_radps : list Q;
  saved_BinmLin_nT : ndarray Cplx;
  saved_nLin : list Z;
  saved_mLin : list Z;
  saved_nprmLin : list Z;
  saved_mprmLin : list Z;
  saved_Bi1x_nT : list Cplx;
  saved_Bi1y_nT : list Cplx;
  saved_Bi1z_nT : list Cplx;
  saved_Aen : ndarray Cplx;
  saved_asymShape_m : ndarray Cplx;
  saved_ionosBounds_m : list fval;
  saved_calcedExc : list string;
  saved_R_km : Q
}.

(** The attributes of [Planet.Magnetic] after the reload, and whether
    the radius warning was logged. *)
Record ReloadedMoments : Type := mkReloaded {
  re_Benm_nT : ndarray Cplx;
  re_Binm_nT : ndarray Cplx;
  re_omegaExc_radps : list Q;
  re_BinmLin_nT : ndarray Cplx;
  re_nLin : list Z;
  re_mLin : list Z;
  re_nprmLin : list Z;
  re_mprmLin : list Z;
  re_Bi1xyz_nT : list Cplx * list Cplx * list Cplx;
  re_Aen : ndarray Cplx;
  re_asymShape_m : ndarray Cplx;
  re_ionosBounds_m : list fval;
  re_calcedExc : list string;
  re_nExc : Z;
  re_Amp : list Q;
  re_phase : list Q;
  radius_warning : bool
}.

(** [np.max] of a list of integers. *)
Definition max_item (xs : list Z) : result Z :=
  match xs with
  | [] => Raise ValueError
  | x :: rest => Ok (fold_left Z.max rest x)
  end.

(** [a[:, n] *= s] *)
Definition scale_column (a : ndarray Cplx) (n : Z) (s : Q) : result (ndarray Cplx) :=
  match shape a with
  | [d0; d1] =>
      c <~ wrap_index d1 n ;;
      Ok (np.update_where a
            (fun k => match k with [_; c'] => (c' =? c)%nat | _ => false end)
            (fun _ old => C.mul old (C.of_real s)))
  | _ => Raise IndexError
  end.

(** [a[:,:,n,:] *= s] *)
Definition scale_degree (a : ndarray Cplx) (n : Z) (s : Q) : result (ndarray Cplx) :=
  match shape a with
  | [d0; d1; d2; d3] =>
      c <~ wrap_index d2 n ;;
      Ok (np.update_where a
            (fun k => match k with [_; _; c'; _] => (c' =? c)%nat | _ => false end)
            (fun _ old => C.mul old (C.of_real s)))
  | _ => Raise IndexError
  end.

(** [a[:, nLin == n] *= s]; the mask must be as long as the rows. *)
Definition scale_masked (a : ndarray Cplx) (nLin : list Z) (n : Z) (s : Q)
    : result (ndarray Cplx) :=
  match shape a with
  | [d0; d1] =>
      if (length nLin =? d1)%nat then
        Ok (np.update_where a
              (fun k => match k with [_; j] => nth j nLin 0 =? n | _ => false end)
              (fun _ old => C.mul old (C.of_real s)))
      else Raise IndexError
  | _ => Raise IndexError
  end.

Section ReloadMoments.
Variables (np_abs np_angle_deg : Cplx -> Q).

(** The rescaling of one degree [n] inside the radius branch. *)
Definition rescale_degree (R_m Rre_m : Q) (nLin : list Z) (n : Z)
    (st : ndarray Cplx * ndarray Cplx * ndarray Cplx)
    : result (ndarray Cplx * ndarray Cplx * ndarray Cplx) :=
  let '(Aen, Binm_nT, BinmLin_nT) := st in
  let scaling := ((R_m / Rre_m) ^ (n + 2))%Q in
  Aen' <~ scale_column Aen n scaling ;;
  Binm' <~ scale_degree Binm_nT n scaling ;;
  BinmLin' <~ scale_masked BinmLin_nT nLin n scaling ;;
  Ok (Aen', Binm', BinmLin').

Definition ReloadMoments (reload : MomentsFile) (R_m : Q) : result ReloadedMoments :=
  let nLin := saved_nLin reload in
  let Aen := saved_Aen reload in
  col1 <~ get_column Aen 1 ;;
  let Amp := map np_abs col1 in
  let phase := map (fun a => - np_angle_deg a)%Q col1 in
  let Rre_m := (saved_R_km reload * 1000)%Q in
  let Bi1xyz := (saved_Bi1x_nT reload, saved_Bi1y_nT reload, saved_Bi1z_nT reload) in
  scaled <~
    (if Qltb (1 # 1000000) ((Rre_m - R_m) / R_m) then
       let dipScaling := ((R_m / Rre_m) ^ 3)%Q in
       let Amp' := map (fun a => a * dipScaling)%Q Amp in
       let scale_list := map (fun z => C.mul z (C.of_real dipScaling)) in
       let Bi1xyz' :=
         (scale_list (saved_Bi1x_nT reload), scale_list (saved_Bi1y_nT reload),
          scale_list (saved_Bi1z_nT reload)) in
       nTop <~ max_item nLin ;;
       st <~ for_each (range 1 (nTop + 1)) (rescale_degree R_m Rre_m nLin)
               (Aen, saved_Binm_nT reload, saved_BinmLin_nT reload) ;;
       Ok (true, Amp', Bi1xyz', st)
     else
       Ok (false, Amp, Bi1xyz, (Aen, saved_Binm_nT reload, saved_BinmLin_nT reload))) ;;
  let '(warned, Amp, Bi1xyz, (Aen, Binm_nT, BinmLin_nT)) := scaled in
  Ok (mkReloaded (saved_Benm_nT reload) Binm_nT (saved_omegaExc_radps reload) BinmLin_nT
        nLin (saved_mLin reload) (saved_nprmLin reload) (saved_mprmLin reload)
        Bi1xyz Aen (saved_asymShape_m reload) (saved_ionosBounds_m reload)
        (saved_calcedExc reload) (Z.of_nat (length (saved_omegaExc_radps reload)))
        Amp phase warned).
End ReloadMoments.

(** ** Asymmetric boundary shapes ([SetGravShape], [SetAsymShape]) *)

(** [np.argmin] of a list of reals: the first position of the least value. *)
Fixpoint argmin_from (i best : nat) (vbest : Q) (xs : list Q) : nat :=
  match xs with
  | [] => best
  | x :: rest =>
      if Qltb x vbest then argmin_from (S i) i x rest
      else argmin_from (S i) best vbest rest
  end.

Definition argmin (xs : list Q) : result nat :=
  match xs with
  | [] => Raise ValueError
  | x :: rest => Ok (argmin_from 1 0 x rest)
  end.

(** [np.zeros((nBds, 2, pMax+1, pMax+1), dtype=np.complex_)] *)
Definition shape_zeros (nBds pMax : Z) : result (ndarray Cplx) :=
  if (nBds <? 0) || (pMax + 1 <? 0) then Raise ValueError
  else Ok (np.zeros C.zero [Z.to_nat nBds; 2%nat; Z.to_nat (pMax + 1); Z.to_nat (pMax + 1)]).

(** [a[iLayer, :, p, :p+1] = vals], where [vals s q old] is the new value
    at sign [s] and order [q]. *)
Definition set_order_slice (a : ndarray Cplx) (iLayer : nat) (p : Z)
    (vals : nat -> nat -> Cplx -> Cplx) : result (ndarray Cplx) :=
  match shape a with
  | [d0; d1; d2; d3] =>
      if (iLayer <? d0)%nat then
        j <~ wrap_index d2 p ;;
        if (Z.to_nat (p + 1) <=? d3)%nat then
          Ok (np.update_where a
                (fun k => match k with
                          | [i; _; p'; q] =>
                              (i =? iLayer)%nat && (p' =? j)%nat && (q <? Z.to_nat (p + 1))%nat
                          | _ => false
                          end)
                (fun k old => match k with
                              | [_; s; _; q] => vals s q old
                              | _ => old
                              end))
        else Raise ValueError
      else Raise IndexError
  | _ => Raise IndexError
  end.

(** The gravity coefficients of [Planet.Bulk]; unset ones are [None]. *)
Record Gravity : Type := mkGravity {
  J2 : option Q; C20 : option Q; C22 : option Q;
  C21 : option Q; S21 : option Q; S22 : option Q
}.

(** The attributes of [Planet.Magnetic] and [Planet.Bulk] that the shape
    builders set. *)
Record ShapeState : Type := mkShapeState {
  sh_pMax : option Z;
  sh_pLin : option (list Z);
  sh_qLin : option (list Z);
  sh_asymShape_m : ndarray Cplx;
  sh_gravShape_m : ndarray Cplx;
  sh_zMeanAsym_km : list Q;
  sh_iAsymBds : list Z;
  sh_gravity : Gravity
}.

Section Shapes.
(** MoonMag's [get_chipq_from_CSpq_single]: the [(2, p+1)] array of
    normalised coefficients, by sign and order. *)
Variable GeodesyNorm2chipq : Z -> list Q -> list Q -> nat -> nat -> Cplx.
(** MoonMag's [norm4pi]. *)
Variable normFactor_4pi : Z -> Z -> Q.

Definition or_zero (x : option Q) : Q := match x with Some v => v | None => 0%Q end.

(** The defaults [SetGravShape] fills in for unset coefficients. *)
Definition gravity_defaults (g : Gravity) : Gravity :=
  let '(J2', C20') :=
    match J2 g, C20 g with
    | None, None => (Some 0%Q, Some 0%Q)
    | Some j, None => (Some j, Some (- j)%Q)
    | j, Some c => (j, Some c)
    end in
  mkGravity J2' C20'
    (Some (or_zero (C22 g))) (Some (or_zero (C21 g)))
    (Some (or_zero (S21 g))) (Some (or_zero (S22 g))).

Definition SetGravShape (R_m Cmeasured : Q) (rSigChange_m : list Q) (st : ShapeState)
    : result ShapeState :=
  let g := gravity_defaults (sh_gravity st) in
  let p := 2 in
  let C2q := [or_zero (C20 g); or_zero (C21 g); or_zero (C22 g)] in
  let S2q := [0%Q; or_zero (S21 g); or_zero (S22 g)] in
  let u := (((5 # 2) * (1 - (3 # 2) * Cmeasured)) ^ 2)%Q in
  let kf := ((4 - u) / (1 + u))%Q in
  let hf := (kf + 1)%Q in
  let H2c_m := map (fun c => hf * c * R_m)%Q C2q in
  let H2s_m := map (fun s => hf * s * R_m)%Q S2q in
  H2c_4pi_m <~ collect (fun q => h <~ item H2c_m (Z.to_nat q) ;;
                                 Ok (h / normFactor_4pi p q)%Q) (range 0 (p + 1)) ;;
  H2s_4pi_m <~ collect (fun q => h <~ item H2s_m (Z.to_nat q) ;;
                                 Ok (h / normFactor_4pi p q)%Q) (range 0 (p + 1)) ;;
  let g_chipq_m := GeodesyNorm2chipq p H2c_4pi_m H2s_4pi_m in
  let radialScale := map (fun r => r / R_m)%Q rSigChange_m in
  grav <~ for_each (combine (seq 0 (length radialScale)) radialScale)
            (fun ir a =>
               set_order_slice a (fst ir) p
                 (fun s q _ => C.mul (g_chipq_m s q) (C.of_real (snd ir))))
            (sh_gravShape_m st) ;;
  iNear <~ argmin (map (fun rs => Qabs (rs - 1)) radialScale) ;;
  Ok (mkShapeState (sh_pMax st) (sh_pLin st) (sh_qLin st) (sh_asymShape_m st) grav
        (sh_zMeanAsym_km st ++ [0%Q]) (sh_iAsymBds st ++ [Z.of_nat iNear]) g).
End Shapes.

Section SetAsymShape.
Variable XidT : Type.
Variable GeodesyNorm2chipq : Z -> list Q -> list Q -> nat -> nat -> Cplx.
Variable normFactor_4pi : Z -> Z -> Q.
(** [glob.glob], [np.loadtxt(fName, skiprows=1, unpack=True, delimiter=',')],
    [os.path.join] and [np.unique]. *)
Variable FilesMatchingPattern : string -> list string.
Variable loadtxt : string -> ShapeFile.
Variable path_join : string -> string -> string.
Variable np_unique_Q : list Q -> list Q.
Variable np_unique_Z : list Z -> list Z.

(** A shape file, through the cache [EOSlist.loaded]. *)
Definition load_shape (fName : string) (EOSlist : EOSlistT XidT)
    : result (ShapeFile * EOSlistT XidT) :=
  match loaded XidT EOSlist !! fName with
  | Some (LoadedShape _ f) => Ok (f, EOSlist)
  | Some (LoadedXid _ _) => Raise ValueError
  | None =>
      let f := loadtxt fName in
      Ok (f, mkEOSlist XidT (<[fName := LoadedShape XidT f]> (loaded XidT EOSlist))
                       (<[fName := ""%string]> (ranges XidT EOSlist)))
  end.

(** [xs[iMin:iMax]] *)
Definition slice {A : Type} (iMin iMax : nat) (xs : list A) : list A :=
  firstn (iMax - iMin) (skipn iMin xs).

(** [GeodesyNorm2chipq(p, -Cpq_km[iMin:iMax] * 1e3, -Spq_km[iMin:iMax] * 1e3)]
    with [iMin = int(p*(p+1)/2)] and [iMax = iMin + p+1]. *)
Definition chipq_of_file (f : ShapeFile) (p : Z) : nat -> nat -> Cplx :=
  let iMin := Z.to_nat (p * (p + 1) / 2) in
  let iMax := (iMin + Z.to_nat (p + 1))%nat in
  let Cpq_m := map (fun c => - c * 1000)%Q (slice iMin iMax (file_Cpq_km f)) in
  let Spq_m := map (fun s => - s * 1000)%Q (slice iMin iMax (file_Spq_km f)) in
  GeodesyNorm2chipq p Cpq_m Spq_m.

(** [not (pLin[0] == 0 and qLin[0] == 0)] raises [RuntimeError]. *)
Definition check_first_row (f : ShapeFile) : result unit :=
  p0 <~ item (file_pLin f) 0 ;;
  q0 <~ item (file_qLin f) 0 ;;
  if (p0 =? 0) && (q0 =? 0) then Ok tt else Raise RuntimeError.

(** The limit [if pMax is None or pMax > top: pMax = top]. *)
Definition limit_pMax (pMax : option Z) (top : Z) : Z :=
  match pMax with
  | None => top
  | Some p => if top <? p then top else p
  end.

(** The concentric mode: one file scaled to every boundary. *)
Definition concentric_shape (f : ShapeFile) (R_m : Q) (rSigChange_m : list Q) (nBds : Z)
    (st : ShapeState) : result ShapeState :=
  _ <~ check_first_row f ;;
  C0 <~ item (file_Cpq_km f) 0 ;;
  let rAsym_m := (R_m - C0 * 1000)%Q in
  let radialScale := map (fun r => r / rAsym_m)%Q rSigChange_m in
  pTop <~ max_item (file_pLin f) ;;
  let pMax := limit_pMax (sh_pMax st) pTop in
  A0 <~ shape_zeros nBds pMax ;;
  A <~ for_each (range 1 (pMax + 1))
         (fun p =>
            let chipq_m := chipq_of_file f p in
            for_each (combine (seq 0 (length radialScale)) radialScale)
              (fun ir A =>
                 r <~ item rSigChange_m (fst ir) ;;
                 A1 <~ np.setitem A [Z.of_nat (fst ir); 0; 0; 0] (C.of_real r) ;;
                 set_order_slice A1 (fst ir) p
                   (fun s q _ => C.mul (chipq_m s q) (C.of_real (snd ir)))))
         A0 ;;
  iNear <~ argmin (map (fun r => Qabs (r - rAsym_m)) rSigChange_m) ;;
  Ok (mkShapeState (Some pMax) (Some (file_pLin f)) (Some (file_qLin f)) A
        (sh_gravShape_m st) (sh_zMeanAsym_km st ++ [C0])
        (sh_iAsymBds st ++ [Z.of_nat iNear]) (sh_gravity st)).

(** [pL[np.logical_or(Cpq_km != 0, Spq_km != 0)]] *)
Definition nonzero_degrees (f : ShapeFile) : list Z :=
  map fst (List.filter
             (fun pcs : Z * (Q * Q) =>
                negb (Qeq_bool (fst (snd pcs)) 0) || negb (Qeq_bool (snd (snd pcs)) 0))
             (combine (file_pLin f) (combine (file_Cpq_km f) (file_Spq_km f)))).

(** One file of the per-boundary mode, added to its nearest boundary. *)
Definition add_file_shape (R_m : Q) (rSigChange_m : list Q) (pMax : Z) (f : ShapeFile)
    (acc : ndarray Cplx * list Q * list Z) : result (ndarray Cplx * list Q * list Z) :=
  pMaxNonzero <~ max_item (nonzero_degrees f) ;;
  let pMax_f := Z.min pMaxNonzero pMax in
  _ <~ check_first_row f ;;
  C0 <~ item (file_Cpq_km f) 0 ;;
  let rAsym_m := (R_m - C0 * 1000)%Q in
  iLayer <~ argmin (map (fun r => Qabs (r - rAsym_m)) rSigChange_m) ;;
  r <~ item rSigChange_m iLayer ;;
  let '(A, zMean, iBds) := acc in
  A1 <~ np.setitem A [Z.of_nat iLayer; 0; 0; 0] (C.of_real r) ;;
  for_each (range 1 (pMax_f + 1))
    (fun p acc =>
       let '(A, zMean, iBds) := acc in
       let chipq_m := chipq_of_file f p in
       A' <~ set_order_slice A iLayer p
               (fun s q old =>
                  C.add old (C.div (C.mul (chipq_m s q) (C.of_real rAsym_m)) (C.of_real r))) ;;
       a000 <~ np.getitem A' [Z.of_nat iLayer; 0; 0; 0] ;;
       Ok (A', zMean ++ [((R_m - Re a000) / 1000)%Q], iBds ++ [Z.of_nat iLayer]))
    (A1, zMean, iBds).

(** The loop that loads every matching file, through the cache. *)
Definition load_shapes (shapeFiles : list string) (EOSlist : EOSlistT XidT)
    : result (list ShapeFile * EOSlistT XidT) :=
  for_each shapeFiles
    (fun fName acc =>
       fe <~ load_shape fName (snd acc) ;;
       Ok (fst acc ++ [fst fe], snd fe))
    ([], EOSlist).

(** The per-boundary mode: every file goes to its nearest boundary. *)
Definition per_boundary_shape (shapeFiles : list string) (R_m : Q)
    (rSigChange_m : list Q) (nBds : Z) (st : ShapeState) (EOSlist : EOSlistT XidT)
    : result (ShapeState * EOSlistT XidT) :=
  loadedFiles <~ load_shapes shapeFiles EOSlist ;;
  let '(files, EOSlist') := loadedFiles in
  pMaxEntries <~ collect (fun f => max_item (nonzero_degrees f)) files ;;
  ps <~ (if (0 <? length pMaxEntries)%nat
         then top <~ max_item pMaxEntries ;; Ok (sh_pMax st, top)
         else Ok (Some 0, 0)) ;;
  let pMax := limit_pMax (fst ps) (snd ps) in
  A0 <~ shape_zeros nBds pMax ;;
  acc <~ for_each files (add_file_shape R_m rSigChange_m pMax)
           (A0, sh_zMeanAsym_km st, sh_iAsymBds st) ;;
  let '(A, zMean, iBds) := acc in
  Ok (mkShapeState (Some pMax) (sh_pLin st) (sh_qLin st) A (sh_gravShape_m st)
        zMean iBds (sh_gravity st), EOSlist').

(** The end of [SetAsymShape]: the gravity-only fallback when no shape
    was loaded ([SKIP_ASYM]), the default [pLin]/[qLin], and the gravity
    shape array. *)
Definition finish_shapes (R_m Cmeasured : Q) (rSigChange_m : list Q) (nBds : Z)
    (SKIP_ASYM : bool) (st1 : ShapeState) : result ShapeState :=
  st2 <~
    (if SKIP_ASYM then
       A <~ shape_zeros nBds 2 ;;
       Ok (mkShapeState (Some 2) (sh_pLin st1) (sh_qLin st1) A (sh_gravShape_m st1)
             (sh_zMeanAsym_km st1) (sh_iAsymBds st1) (sh_gravity st1))
     else
       Ok (mkShapeState (sh_pMax st1) (sh_pLin st1) (sh_qLin st1) (sh_asymShape_m st1)
             (sh_gravShape_m st1) (np_unique_Q (sh_zMeanAsym_km st1))
             (np_unique_Z (sh_iAsymBds st1)) (sh_gravity st1))) ;;
  match sh_pMax st2 with
  | None => Raise ValueError
  | Some pMax =>
      let '(pLin, qLin) :=
        match sh_pLin st2 with
        | None => (Some (nLin_of pMax), Some (mLin_of pMax))
        | Some pl => (Some pl, sh_qLin st2)
        end in
      let st3 :=
        mkShapeState (Some pMax) pLin qLin (sh_asymShape_m st2)
          (np.zeros_like C.zero (sh_asymShape_m st2))
          (sh_zMeanAsym_km st2) (sh_iAsymBds st2) (sh_gravity st2) in
      if 2 <=? pMax
      then SetGravShape GeodesyNorm2chipq normFactor_4pi R_m Cmeasured rSigChange_m st3
      else Ok st3
  end.

(** The shape files found: those of [Planet.name], or failing that (for
    another [Planet.bodyname]) those of the body. *)
Definition find_shape_files (name bodyname asymFstring inductPath : string) : list string :=
  let shapeFname := (name +:+ asymFstring)%string in
  let searchPath := path_join inductPath (shapeFname +:+ "*.txt")%string in
  let backupShapeFname := (bodyname +:+ asymFstring)%string in
  let backupSearchPath := path_join inductPath (backupShapeFname +:+ "*.txt")%string in
  let shapeFiles := FilesMatchingPattern searchPath in
  if String.eqb name bodyname then shapeFiles
  else if (length shapeFiles =? 0)%nat then FilesMatchingPattern backupSearchPath
  else shapeFiles.

(** The single file of the concentric mode. *)
Definition concentric_file (name asymFstring inductPath : string) : string :=
  path_join inductPath ((name +:+ asymFstring) +:+ ".txt")%string.

Definition SetAsymShape
    (* Planet *)
    (name bodyname : string) (R_m Cmeasured : Q) (rSigChange_m : list Q) (nBds : Z)
    (st : ShapeState)
    (* Params *)
    (asymFstring inductPath : string) (CONCENTRIC_ASYM : bool)
    (EOSlist : EOSlistT XidT) : result (ShapeState * EOSlistT XidT) :=
  let shapeFiles := find_shape_files name bodyname asymFstring inductPath in
  let SKIP0 := (length shapeFiles =? 0)%nat in
  res <~
    (if CONCENTRIC_ASYM then
       let fName := concentric_file name asymFstring inductPath in
       if bool_decide (fName ∈ shapeFiles) then
         fe <~ load_shape fName EOSlist ;;
         st' <~ concentric_shape (fst fe) R_m rSigChange_m nBds st ;;
         Ok (st', snd fe, SKIP0)
       else Ok (st, EOSlist, true)
     else
       se <~ per_boundary_shape shapeFiles R_m rSigChange_m nBds st EOSlist ;;
       Ok (fst se, snd se, SKIP0)) ;;
  let '(st1, EOSlist1, SKIP_ASYM) := res in
  st4 <~ finish_shapes R_m Cmeasured rSigChange_m nBds SKIP_ASYM st1 ;;
  Ok (st4, EOSlist1).
End SetAsymShape.

(** The boundary nearest to a shape file's reference surface:
    [np.argmin(abs(rSigChange_m - rAsym_m))] with
    [rAsym_m = R_m - Cpq_km[0] * 1e3]. *)
Definition nearest_boundary (R_m : Q) (rSigChange_m : list Q) (f : ShapeFile) : result nat :=
  C0 <~ item (file_Cpq_km f) 0 ;;
  argmin (map (fun r => Qabs (r - (R_m - C0 * 1000))) rSigChange_m).

(** ** The control flow of [SetupInduction]

    The blocks modelled above are run in this order.  The flags that
    decide the flow are kept apart; every other attribute of [Planet],
    [Params] and [EOSlist] is in a state [S] that the blocks transform:
    [reduce_block] is the layer reduction ([reduce_layers]),
    [scaling_block] the optional [sigmaScaling], [nBds_block] the
    assignment [nBds = np.size(rSigChange_m)], [shape_block] is
    [SetAsymShape] with
    [nAsymBds], called with the degree cap and returning the one it
    leaves, [xid_block] the fetch of the coupling coefficients
    ([fetch_Xid]), [no_asym_block] the assignment
    [asymShape_m = np.zeros((nBds, 2, 1, 1))], [excitation_block] the call
    of [GetBexc], [binm_block] the initialisation of [Binm_nT], and
    [ionos_default_block] the defaults of the final [else].  None of them
    assigns [Planet.Do.VALID] or [Params.CALC_ASYM]. *)

Record SetupFlags : Type := mkSetupFlags {
  fl_VALID : bool;
  fl_invalidReason : option string;
  fl_CALC_ASYM : bool;
  fl_pMax : option Z
}.

Section SetupInduction.
Variable S : Type.
Variables (reduce_block scaling_block : S -> result S).
Variable shape_block : option Z -> S -> result (option Z * S).
Variable xid_block : option Z -> S -> result S.
Variables (nBds_block no_asym_block : S -> S).
Variable excitation_block : option Z -> S -> result S.
Variable binm_block : S -> result S.
Variable ionos_default_block : S -> S.

Definition SetupInduction
    (* Planet *)
    (phase : list Z) (NO_H2O : bool)
    (* Params and SigParams *)
    (inductOtype : string)
    (DO_INDUCTOGRAM REDUCED_INDUCT CALC_CONDUCT CALC_NEW ALLOW_LOW_PMAX : bool)
    (fl : SetupFlags) (s : S) : result (SetupFlags * S) :=
  let '(VALID, invalidReason) :=
    frozen_ocean_check phase inductOtype DO_INDUCTOGRAM REDUCED_INDUCT NO_H2O
                       (fl_VALID fl) (fl_invalidReason fl) in
  if CALC_CONDUCT && VALID then
    s1 <~ (if negb (String.eqb inductOtype "sigma" && DO_INDUCTOGRAM) then
             s' <~ (if CALC_NEW || negb DO_INDUCTOGRAM then reduce_block s else Ok s) ;;
             scaling_block s'
           else Ok s) ;;
    let s1 := nBds_block s1 in
    let g := asym_guard (fl_CALC_ASYM fl) (fl_pMax fl) ALLOW_LOW_PMAX in
    ps <~ (if calls_SetAsymShape g then
             ps <~ shape_block (guard_pMax g) s1 ;;
             s2 <~ xid_block (fst ps) (snd ps) ;;
             Ok (fst ps, s2)
           else Ok (guard_pMax g, no_asym_block s1)) ;;
    s3 <~ (if negb DO_INDUCTOGRAM then excitation_block (fst ps) (snd ps)
           else Ok (snd ps)) ;;
    s4 <~ binm_block s3 ;;
    Ok (mkSetupFlags VALID invalidReason (guard_CALC_ASYM g) (fst ps), s4)
  else
    Ok (mkSetupFlags VALID invalidReason (fl_CALC_ASYM fl) (fl_pMax fl),
        ionos_default_block s).
End SetupInduction.

(** ** The layers before the collapse

    [rLayers_m] and [sigmaInduct_Sm] as [SetupInduction] has them after
    the ionosphere is appended and the conductivities are floored, before
    the optional resampling of the ocean. *)
Definition ascending_layers (sigmaDef_Sm sigmaMin_Sm : Q) (r_m : list Q)
    (sigma_Sm : list fval) (ionosBounds_m sigmaIonosPedersen_Sm : option (list fval))
    (R_m : Q) : list fval * list fval :=
  let '(_, (zIonos_m, sigmaIonos_Sm)) :=
    ionosphere ionosBounds_m sigmaIonosPedersen_Sm R_m in
  (rev (map Fin (removelast r_m)) ++ zIonos_m,
   floor_conductivity sigmaDef_Sm sigmaMin_Sm (rev sigma_Sm ++ sigmaIonos_Sm)).

(** The conductivity a layered model assigns to the radius [x]: that of
    the first boundary at or above [x] (the rule of [fn_k]).
    [conductivity_at rSig sig x s] says that this conductivity is [s], up
    to equality of reals. *)
Definition conductivity_at (rSigChange_m sigmaLayers_Sm : list fval) (x s : fval) : Prop :=
  exists (j : nat) s' x',
    nth_error sigmaLayers_Sm j = Some s' /\
    nth_error rSigChange_m j = Some x' /\
    (s' = s \/ F.eqb s s' = true) /\
    (x' = x \/ F.ltb x x' = true) /\
    forall (j' : nat) y, (j' < j)%nat -> nth_error rSigChange_m j' = Some y ->
                         F.ltb y x = true.

(** ** The gravity coefficients of [SetGravShape]

    The complex coefficients [g_chipq_m] that [SetGravShape] computes
    from the degree-2 gravity coefficients (after the defaults are filled
    in), the fluid Love number [hf = kf + 1] and the 4pi normalisation. *)
Section GravityCoefficients.
Variable GeodesyNorm2chipq : Z -> list Q -> list Q -> nat -> nat -> Cplx.
Variable normFactor_4pi : Z -> Z -> Q.

Definition gravity_chipq (R_m Cmeasured : Q) (g : Gravity) : result (nat -> nat -> Cplx) :=
  let p := 2 in
  let C2q := [or_zero (C20 g); or_zero (C21 g); or_zero (C22 g)] in
  let S2q := [0%Q; or_zero (S21 g); or_zero (S22 g)] in
  let u := (((5 # 2) * (1 - (3 # 2) * Cmeasured)) ^ 2)%Q in
  let kf := ((4 - u) / (1 + u))%Q in
  let hf := (kf + 1)%Q in
  let H2c_m := map (fun c => hf * c * R_m)%Q C2q in
  let H2s_m := map (fun s => hf * s * R_m)%Q S2q in
  H2c_4pi_m <~ collect (fun q => h <~ item H2c_m (Z.to_nat q) ;;
                                 Ok (h / normFactor_4pi p q)%Q) (range 0 (p + 1)) ;;
  H2s_4pi_m <~ collect (fun q => h <~ item H2s_m (Z.to_nat q) ;;
                                 Ok (h / normFactor_4pi p q)%Q) (range 0 (p + 1)) ;;
  Ok (GeodesyNorm2chipq p H2c_4pi_m H2s_4pi_m).
End GravityCoefficients.

(** ** Cartesian to spherical components ([Bxyz2Bsph]) *)

Section Bxyz2Bsph.
(** [np.sin] and [np.cos]. *)
Variables (np_sin np_cos : Q -> Q).

(** Returns [(Br, Bth, Bphi)]. *)
Definition Bxyz2Bsph (Bx By Bz theta phi : Q) : Q * Q * Q :=
  let Br := (np_sin theta * np_cos phi * Bx + np_sin theta * np_sin phi * By
             + np_cos theta * Bz)%Q in
  let Bth := (np_cos theta * np_cos phi * Bx + np_cos theta * np_sin phi * By
              - np_sin theta * Bz)%Q in
  let Bphi := (- np_sin phi * Bx + np_cos phi * By)%Q in
  (Br, Bth, Bphi).
End Bxyz2Bsph.

(** ** The entry point [MagneticInduction]

    [Planet] is reduced to the attributes the function itself reads or
    assigns; everything else it carries is in [pl_rest].  [Params] is
    reduced to the switches that decide the flow.  The functions called
    are section variables; [SetupInduction] and [ReloadAsym] can change
    [Params.CALC_ASYM], and since [Params] is one shared object the caller
    sees that change. *)
Record PlanetView (Rest : Type) : Type := mkPlanetView {
  pl_VALID : bool;
  pl_Benm_nT : option (ndarray Cplx);
  pl_Binm_nT : option (ndarray Cplx);
  pl_calcedExc : option (list string);
  pl_ionosBounds_m : option (list fval);
  pl_sigmaIonosPedersen_Sm : option (list fval);
  pl_rest : Rest
}.
Arguments mkPlanetView {Rest} _ _ _ _ _ _ _.
Arguments pl_VALID {Rest} _.
Arguments pl_Benm_nT {Rest} _.
Arguments pl_Binm_nT {Rest} _.
Arguments pl_calcedExc {Rest} _.
Arguments pl_ionosBounds_m {Rest} _.
Arguments pl_sigmaIonosPedersen_Sm {Rest} _.
Arguments pl_rest {Rest} _.

Record ParamsView : Type := mkParamsView {
  pa_CALC_NEW_INDUCT : bool;
  pa_DO_INDUCTOGRAM : bool;
  pa_DO_EXPLOREOGRAM : bool;
  pa_PLOT_MAG_SPECTRUM : bool;
  pa_CALC_ASYM : bool;
  pa_CALC_NEW_ASYM : bool;
  pa_inducedMomentsFile : string
}.

Section MagneticInduction.
Variable Rest : Type.
#[local] Abbreviation PlanetT := (PlanetView Rest).
(** The functions of this module that [MagneticInduction] calls, and
    [os.path.isfile]. *)
Variable SetupInduction_fn : PlanetT -> ParamsView -> result (PlanetT * ParamsView).
Variable CalcInducedMoments_fn : PlanetT -> ParamsView -> result PlanetT.
Variable ReloadMoments_fn : PlanetT -> string -> result PlanetT.
Variable FourierSpectrum_fn : PlanetT -> ParamsView -> result PlanetT.
Variable CalcAsymContours_fn : PlanetT -> ParamsView -> result PlanetT.
Variable ReloadAsym_fn : PlanetT -> ParamsView -> result (PlanetT * ParamsView).
Variable isfile : string -> bool.

(** The assignments under [if SKIP:]. *)
Definition skip_defaults (Planet : PlanetT) : PlanetT :=
  mkPlanetView (pl_VALID Planet) (pl_Benm_nT Planet) (pl_Binm_nT Planet) (Some [])
    (Some (match pl_ionosBounds_m Planet with None => [NaN] | Some b => b end))
    (Some (match pl_sigmaIonosPedersen_Sm Planet with None => [NaN] | Some s => s end))
    (pl_rest Planet).

Definition MagneticInduction (Planet : PlanetT) (Params : ParamsView)
    (fNameOverride : option string) : result (PlanetT * ParamsView) :=
  st <~
    (if pl_VALID Planet && pa_CALC_NEW_INDUCT Params then
       pp <~ SetupInduction_fn Planet Params ;;
       let '(Planet, Params) := pp in
       if bool_decide (pl_Benm_nT Planet <> None) && pl_VALID Planet then
         Planet <~ CalcInducedMoments_fn Planet Params ;;
         Ok (Planet, Params, false)
       else
         Ok (mkPlanetView (pl_VALID Planet) (pl_Benm_nT Planet) None (Some [])
               (pl_ionosBounds_m Planet) (pl_sigmaIonosPedersen_Sm Planet)
               (pl_rest Planet),
             Params, false)
     else if pl_VALID Planet then
       let momentsFile :=
         match fNameOverride with
         | None => pa_inducedMomentsFile Params
         | Some f => f
         end in
       if isfile momentsFile then
         Planet <~ ReloadMoments_fn Planet momentsFile ;;
         Ok (Planet, Params, false)
       else Ok (Planet, Params, true)
     else Ok (Planet, Params, true)) ;;
  let '(Planet, Params, SKIP) := st in
  if SKIP then Ok (skip_defaults Planet, Params)
  else if negb (pa_DO_INDUCTOGRAM Params || pa_DO_EXPLOREOGRAM Params) then
    Planet <~ (if pa_PLOT_MAG_SPECTRUM Params then FourierSpectrum_fn Planet Params
               else Ok Planet) ;;
    if pa_CALC_ASYM Params then
      if pa_CALC_NEW_ASYM Params then
        pp <~ (if negb (pa_CALC_NEW_INDUCT Params) then SetupInduction_fn Planet Params
               else Ok (Planet, Params)) ;;
        Planet <~ CalcAsymContours_fn (fst pp) (snd pp) ;;
        Ok (Planet, snd pp)
      else
        ReloadAsym_fn Planet Params
    else Ok (Planet, Params)
  else Ok (Planet, Params).
End MagneticInduction.

(** ** Excitation moments ([GetBexc]) *)

(** A lookup [d[key]] in a dict raises [KeyError], which the exceptions
    above do not include. *)
Inductive lookup_exn : Type :=
  | KeyError
  | Builtin (e : exn).

Inductive kresult (A : Type) : Type :=
  | KOk (a : A)
  | KRaise (e : lookup_exn).
Arguments KOk {A} _.
Arguments KRaise {A} _.

Definition kbind {A B : Type} (r : kresult A) (k : A -> kresult B) : kresult B :=
  match r with
  | KOk a => k a
  | KRaise e => KRaise e
  end.

Definition lift {A : Type} (r : result A) : kresult A :=
  match r with
  | Ok a => KOk a
  | Raise e => KRaise (Builtin e)
  end.

Notation "x <~~ r ;; k" := (kbind r (fun x => k))
  (at level 100, r at next level, right associativity).

Fixpoint kfor_each {X S : Type} (xs : list X) (body : X -> S -> kresult S)
    (s : S) : kresult S :=
  match xs with
  | [] => KOk s
  | x :: xs' => s' <~~ body x s ;; kfor_each xs' body s'
  end.

Fixpoint kcollect {X A : Type} (f : X -> kresult A) (xs : list X) : kresult (list A) :=
  match xs with
  | [] => KOk []
  | x :: xs' => a <~~ f x ;; rest <~~ kcollect f xs' ;; KOk (a :: rest)
  end.

(** [d[key]] for a dict given by its items, in order. *)
Fixpoint dict_get {A : Type} (d : list (string * A)) (key : string) : kresult A :=
  match d with
  | [] => KRaise KeyError
  | (k, v) :: d' => if String.eqb k key then KOk v else dict_get d' key
  end.

(** The four values [GetBexc] returns, each of which can be [None]. *)
Record Bexc : Type := mkBexc {
  exc_Texc_hr : option (list Q);
  exc_omegaExc_radps : option (list Q);
  exc_Benm_nT : option (ndarray Cplx);
  exc_B0_nT : option (list Q)
}.

(** [f'{x}'] for a string that may be [None]. *)
Definition str_or_None (x : option string) : string :=
  match x with
  | Some s => s
  | None => "None"
  end.

(** [Benm_nT[iPeak, ...] = inpBenm_nT[inpTexc_hr == T, ...]] for an
    [inpBenm_nT] with four axes, as [GetBenm] returns it.  The rows
    picked by the mask form an array with one more leading axis than the
    target has; it is accepted when exactly one row is picked and the
    other lengths are those of the target or 1, an axis of length 1
    being repeated. *)
Definition assign_peak (Benm_nT : ndarray Cplx) (iPeak : nat) (inpBenm_nT : ndarray Cplx)
    (nInp : nat) (rows : list nat) : result (ndarray Cplx) :=
  match shape inpBenm_nT, shape Benm_nT with
  | [d0; d1; d2; d3], [e0; e1; e2; e3] =>
      if negb (d0 =? nInp)%nat then Raise IndexError
      else if negb (iPeak <? e0)%nat then Raise IndexError
      else
        match rows with
        | [row] =>
            if ((d1 =? e1) || (d1 =? 1))%nat && ((d2 =? e2) || (d2 =? 1))%nat
               && ((d3 =? e3) || (d3 =? 1))%nat
            then
              Ok (np.update_where Benm_nT
                    (fun k => match k with
                              | i :: _ => (i =? iPeak)%nat
                              | [] => false
                              end)
                    (fun k old =>
                       match k with
                       | [_; s; n; m] =>
                           data inpBenm_nT [row; if (d1 =? 1)%nat then 0%nat else s;
                                            if (d2 =? 1)%nat then 0%nat else n;
                                            if (d3 =? 1)%nat then 0%nat else m]
                       | _ => old
                       end))
            else Raise ValueError
        | _ => Raise ValueError
        end
  | _, _ => Raise ValueError
  end.

Section GetBexc.
(** The objects held by [EOSlist.loaded] and [EOSlist.ranges]: storing
    the tuple of the four values, unpacking a stored object into four
    values, and storing an array of periods. *)
Variable V : Type.
Variable pack : Bexc -> V.
Variable unpack : V -> result Bexc.
Variable periods_obj : list Q -> V.
(** [f'{excSelection}'], [_Test], [os.path.join], [os.path.isfile],
    MoonMag's [read_Benm] (periods, moments with four axes, background
    field), [Excitations] (the dict of periods of a body, by its items),
    and [np.pi]. *)
Variable str_dict : list (string * bool) -> string.
Variable Test_dir : string.
Variable path_join : string -> string -> string.
Variable isfile : string -> bool.
Variable GetBenm : Z -> Z -> string -> string -> list Q * ndarray Cplx * list Q.
Variable Excitations : string -> list (string * option Q).
Variable np_pi : Q.

Record ExcCache : Type := mkExcCache {
  exc_loaded : gmap string V;
  exc_ranges : gmap string V
}.

Definition BeLabel (bodyname : string) (era model : option string)
    (excSelection : list (string * bool)) (nprmMax : Z) : string :=
  (bodyname +:+ "Be" +:+ pretty nprmMax +:+ str_or_None era +:+ str_or_None model
   +:+ str_dict excSelection)%string.

(** The name of the first file of moments, without [.txt], and its
    folder. *)
Definition Be_files (bodyname : string) (era model : option string) (nprmMax : Z)
    : list string * string :=
  let '(fNames, fPath) :=
    if String.eqb (String.substring 0 4 bodyname) "Test" then
      (map (fun npi => "Be" +:+ pretty npi +:+ "xyz_Test")%string (range 1 (nprmMax + 1)),
       path_join Test_dir "inductionData")
    else
      (map (fun npi => "Be" +:+ pretty npi +:+ "xyz_" +:+ bodyname)%string
           (range 1 (nprmMax + 1)),
       path_join bodyname "inductionData") in
  let fNames :=
    match era with
    | Some era => map (fun fNamenp => fNamenp +:+ "_" +:+ era)%string fNames
    | None => fNames
    end in
  let fNames :=
    match model with
    | Some model => map (fun fNamenp => fNamenp +:+ "_" +:+ model)%string fNames
    | None => fNames
    end in
  (fNames, fPath).

(** One turn of the loop over [excSelection.items()]; the state is
    [(iPeak, Texc_hr, Benm_nT)]. *)
Definition pick_peak (BeList : list (string * option Q)) (inpTexc_hr : list Q)
    (inpBenm_nT : ndarray Cplx) (entry : string * bool)
    (st : nat * list Q * ndarray Cplx) : kresult (nat * list Q * ndarray Cplx) :=
  let '(iPeak, Texc_hr, Benm_nT) := st in
  if snd entry then
    T <~~ dict_get BeList (fst entry) ;;
    match T with
    | None => KOk st
    | Some T =>
        iClosest <~~ lift (argmin (map (fun Ti => Qabs (Ti - T)) inpTexc_hr)) ;;
        Tnear <~~ lift (item inpTexc_hr iClosest) ;;
        Texc_hr <~~ (if (iPeak <? length Texc_hr)%nat then KOk (<[iPeak := Tnear]> Texc_hr)
                     else KRaise (Builtin IndexError)) ;;
        Benm_nT <~~ lift (assign_peak Benm_nT iPeak inpBenm_nT (length inpTexc_hr)
                            (List.filter (fun i => Qeq_bool (nth i inpTexc_hr 0%Q) Tnear)
                                         (seq 0 (length inpTexc_hr)))) ;;
        KOk (S iPeak, Texc_hr, Benm_nT)
    end
  else KOk st.

(** Returns the four values and [EOSlist]. *)
Definition GetBexc (bodyname : string) (era model : option string)
    (excSelection : list (string * bool)) (nprmMax pMax : Z) (EOSlist : ExcCache)
    : kresult (Bexc * ExcCache) :=
  let label := BeLabel bodyname era model excSelection nprmMax in
  match exc_loaded EOSlist !! label with
  | Some v =>
      b <~~ lift (unpack v) ;;
      KOk (b, EOSlist)
  | None =>
      let '(fNames, fPath) := Be_files bodyname era model nprmMax in
      let nprmMax := if 1 <? nprmMax then 1 else nprmMax in
      fName0 <~~ lift (item fNames 0) ;;
      if isfile (path_join fPath (fName0 +:+ ".txt")) then
        let '(inpTexc_hr, inpBenm_nT, B0_nT) := GetBenm nprmMax pMax fPath fName0 in
        let BeList := Excitations bodyname in
        selected <~~ kcollect (fun kv => dict_get excSelection (fst kv)) BeList ;;
        let eachT :=
          map (fun sv : bool * (string * option Q) =>
                 fst sv && bool_decide (snd (snd sv) <> None))
              (combine selected BeList) in
        let nPeaks := length (List.filter (fun b : bool => b) eachT) in
        Benm0 <~~ lift (shape_zeros (Z.of_nat nPeaks) (nprmMax + pMax)) ;;
        st <~~ kfor_each excSelection (pick_peak BeList inpTexc_hr inpBenm_nT)
                 (0%nat, repeat 0%Q nPeaks, Benm0) ;;
        let '(_, Texc_hr, Benm_nT) := st in
        let omegaExc_radps := map (fun T => 2 * np_pi / T / 3600)%Q Texc_hr in
        let b := mkBexc (Some Texc_hr) (Some omegaExc_radps) (Some Benm_nT) (Some B0_nT) in
        KOk (b, mkExcCache (<[label := pack b]> (exc_loaded EOSlist))
                           (<[label := periods_obj Texc_hr]> (exc_ranges EOSlist)))
      else
        KOk (mkBexc None None None None, EOSlist)
  end.
End GetBexc.

(** * Thermodynamics

    The functions below follow [Thermodynamics/MgSO4/MgSO4Props.py],
    [Thermodynamics/Clathrates/ClathrateProps.py] and
    [Thermodynamics/Seawater/SwProps.py].  Concentrations, pressures
    and temperatures are rationals and decimal literals are read
    exactly.  The functions are written for one point; the code applies
    them to arrays entry by entry.  A division is the division of the
    reals: a zero divisor, which Python floats refuse and numpy answers
    with [inf], is excluded by the hypotheses of every statement. *)

(** ** Units of concentration ([MgSO4Props.py]) *)

Definition Molal2ppt (b_molkg m_gmol : Q) : Q :=
  let m_kgmol := (m_gmol / 1000)%Q in
  (b_molkg * m_kgmol / (1 + b_molkg * m_kgmol) * 1000)%Q.

Definition Ppt2molal (w_ppt m_gmol : Q) : Q :=
  let m_kgmol := (m_gmol / 1000)%Q in
  let w_frac := (w_ppt / 1000)%Q in
  (w_frac / (1 - w_frac) / m_kgmol)%Q.

Section Massppt2molFrac.
(** [Constants.mH2O_gmol]; [Utilities/dataStructs.py] gives it no value here,
    so it is a parameter. *)
Variable mH2O_gmol : Q.

End Massppt2molFrac.

(** ** The Riemann sum [Integral] ([MgSO4Props.py]) *)

(** [np.linspace] on reals. *)
Definition linspace_Q (start stop : Q) (num : Z) : result (list Q) :=
  if num <? 0 then Raise ValueError
  else
    let div := num - 1 in
    let step := ((stop - start) / inject_Z div)%Q in
    Ok (map (fun i : nat =>
               if (0 <? div) && (Z.of_nat i =? div) then stop
               else (inject_Z (Z.of_nat i) * step + start)%Q)
            (seq 0 (Z.to_nat num))).

(** [np.sum] of a list of reals. *)
Definition np_sum (xs : list Q) : Q := fold_right Qplus 0%Q xs.

(** The value [Integral] stores for one upper bound [xb]. *)
Definition Integral_point (func : Q -> Q) (a xb : Q) (nPts : Z) : result Q :=
  if negb (Qeq_bool a xb) then
    evalPts <~ linspace_Q a xb nPts ;;
    x1 <~ item evalPts 1 ;;
    x0 <~ item evalPts 0 ;;
    let dx := (x1 - x0)%Q in
    let integrand := map (fun evalPt => (func evalPt * dx)%Q) evalPts in
    Ok (np_sum integrand)
  else Ok 0%Q.

(** What [Integral] returns: one number for a single upper bound, an
    array otherwise. *)
Inductive scalar_or_array : Type :=
  | Scalar (x : Q)
  | Array (xs : list Q).

(** [Integral(func, a, b, nPts)] for upper bounds [b] given as a number
    or as a one-dimensional array. *)
Definition Integral (func : Q -> Q) (a : Q) (b : list Q) (nPts : Z)
    : result scalar_or_array :=
  res <~ collect (fun xb => Integral_point func a xb nPts) b ;;
  match res with
  | [x] => Ok (Scalar x)
  | _ => Ok (Array res)
  end.

(** ** Stability of methane clathrates ([ClathrateProps.py]) *)

Section Clathrates.
(** [np.log] and [Constants.phaseClath]; [Utilities/dataStructs.py] gives
    the latter no value here, so it is a parameter. *)
Variable np_log : Q -> Q.
Variable phaseClath : Z.

(** [TclathDissocLower_K] and [TclathDissocUpper_K]. *)
Definition TclathDissocLower_K (P_MPa : Q) : Q :=
  ((21233820985 # 100000000) + (4337319252 # 100000000) * P_MPa
   - (783348412 # 100000000) * P_MPa ^ 2)%Q.

Definition TclathDissocUpper_K (P_MPa : Q) : Q :=
  (- (203058036 # 10000000)
   + (809637199 # 100000000) * np_log (P_MPa / (456717945 # 1000000000000000000000000)))%Q.

(** One row of the grid: the phase at every temperature for a
    dissociation temperature [Tdissoc_K]. *)
Definition stable_row (T_K : list Q) (Tdissoc_K : Q) : list Z :=
  map (fun T => if Qltb T Tdissoc_K then phaseClath else 0) T_K.

(** Returns the array [P_MPa] as the assignment [P_MPa[P_MPa==0] = 1e-12]
    leaves it for the caller, and the grid [stable]. *)
Definition ClathStableSloan1998 (P_MPa T_K : list Q) : list Q * list (list Z) :=
  let P_MPa := map (fun P => if Qeq_bool P 0 then (1 # 1000000000000)%Q else P) P_MPa in
  let Plow_MPa := List.filter (fun P => Qltb P (2567 # 1000)) P_MPa in
  let Pupp_MPa := List.filter (fun P => Qle_bool (2567 # 1000) P) P_MPa in
  let stableLow := map (fun P => stable_row T_K (TclathDissocLower_K P)) Plow_MPa in
  let stableUpp := map (fun P => stable_row T_K (TclathDissocUpper_K P)) Pupp_MPa in
  (P_MPa, stableLow ++ stableUpp).

(** The dissociation temperature that applies at a pressure. *)
Definition TclathDissoc_K (P_MPa : Q) : Q :=
  if Qltb P_MPa (2567 # 1000) then TclathDissocLower_K P_MPa else TclathDissocUpper_K P_MPa.
End Clathrates.

(** ** Seawater ([SwProps.py]) *)

(** [Constants.bar2MPa] *)
Definition bar2MPa : Q := 101325 # 1000000.

Definition MPa2seaPressure (P_MPa : Q) : Q :=
  let SP_MPa := (P_MPa - bar2MPa)%Q in
  (SP_MPa * 10 / bar2MPa)%Q.

(** *** Arrays of numbers and numpy's broadcasting

    An operation on two arrays aligns their shapes at the last axis; two
    lengths are compatible when they are equal or one of them is 1, and
    anything else raises [ValueError]. *)
Fixpoint broadcast_rev (s1 s2 : list nat) : result (list nat) :=
  match s1, s2 with
  | [], s => Ok s
  | s, [] => Ok s
  | a :: s1', b :: s2' =>
      d <~ (if (a =? b)%nat then Ok a
            else if (a =? 1)%nat then Ok b
            else if (b =? 1)%nat then Ok a
            else Raise ValueError) ;;
      r <~ broadcast_rev s1' s2' ;;
      Ok (d :: r)
  end.

Definition broadcast_shapes (s1 s2 : list nat) : result (list nat) :=
  r <~ broadcast_rev (rev s1) (rev s2) ;; Ok (rev r).

(** The position of an operand of shape [s] that position [k] of the
    result reads. *)
Definition broadcast_index (s k : list nat) : list nat :=
  map (fun di : nat * nat => if (fst di =? 1)%nat then 0%nat else snd di)
      (combine s (skipn (length k - length s) k)).

Definition np_elementwise {A B C : Type} (f : A -> B -> C) (a : ndarray A) (b : ndarray B)
    : result (ndarray C) :=
  sh <~ broadcast_shapes (shape a) (shape b) ;;
  Ok (mkArray sh (fun k => f (data a (broadcast_index (shape a) k))
                             (data b (broadcast_index (shape b) k)))).

(** [np.size] *)
Definition np_size {A : Type} (a : ndarray A) : nat := fold_right Nat.mul 1%nat (shape a).

(** A one-dimensional array. *)
Definition array1 {A : Type} (d : A) (xs : list A) : ndarray A :=
  mkArray [length xs] (fun k => match k with [i] => nth i xs d | _ => d end).

(** [np.array(rows)] for one-dimensional rows of the same length [M];
    of no rows it is the empty one-dimensional array. *)
Definition np_array_rows (rows : list (list Q)) (M : nat) : ndarray Q :=
  match rows with
  | [] => array1 0%Q []
  | _ => mkArray [length rows; M]
           (fun k => match k with [i; j] => nth j (nth i rows []) 0%Q | _ => 0%Q end)
  end.

(** [Constants.T0] *)
Definition T0 : Q := 27315 # 100.

Section Seawater.
(** The functions of the GSW package, which work on arrays entry by
    entry: [CT_from_t(SA, t, p)], [enthalpy(SA, CT, p)] and
    [t_freezing(SA, p, saturation_fraction)]. *)
Variables (CT_from_t enthalpy gswTfreeze : Q -> Q -> Q -> Q).

(** [T_C] and [SP_dbar] are one-dimensional arrays. *)
Definition gswT2conservT (wOcean_ppt : Q) (T_C SP_dbar : list Q) (DO_1D : bool)
    : result (ndarray Q) :=
  if DO_1D then
    CT_C <~ collect (fun i => T <~ item T_C i ;; SP <~ item SP_dbar i ;;
                              Ok (CT_from_t wOcean_ppt T SP))
                    (seq 0 (length SP_dbar)) ;;
    Ok (array1 0%Q CT_C)
  else
    Ok (np_array_rows
          (map (fun SPi_dbar => map (fun T => CT_from_t wOcean_ppt T SPi_dbar) T_C) SP_dbar)
          (length T_C)).

(** [np.array([f(wOcean_ppt, CT_C[i,:], SP_dbar[i]) for i in
    range(np.size(SP_dbar))])]: [CT_C[i,:]] needs two axes at least and
    a row [i]. *)
Definition gsw_by_row (f : Q -> Q -> Q -> Q) (wOcean_ppt : Q) (CT_C : ndarray Q)
    (SP_dbar : list Q) : result (ndarray Q) :=
  match SP_dbar with
  | [] => Ok (array1 0%Q [])
  | _ =>
      match shape CT_C with
      | d0 :: d1 :: rest =>
          if (length SP_dbar <=? d0)%nat then
            Ok (mkArray (length SP_dbar :: d1 :: rest)
                  (fun k => match k with
                            | i :: _ => f wOcean_ppt (data CT_C k) (nth i SP_dbar 0%Q)
                            | [] => 0%Q
                            end))
          else Raise IndexError
      | _ => Raise IndexError
      end
  end.

Definition gswEnthalpy_Jkg := gsw_by_row enthalpy.

(** [np.mean([a, b], axis=0)] *)
Definition np_mean_pair (a b : ndarray Q) : result (ndarray Q) :=
  if bool_decide (shape a = shape b) then
    Ok (mkArray (shape a) (fun k => ((data a k + data b k) / 2)%Q))
  else Raise ValueError.

(** [a / dT] *)
Definition div_scalar (a : ndarray Q) (dT : Q) : ndarray Q :=
  mkArray (shape a) (fun k => (data a k / dT)%Q).

(** Returns [(dCTdT, dHdT)]. *)
Definition GetdCTdTanddHdT (wOcean_ppt : Q) (CT_C : ndarray Q) (SP_dbar T_C : list Q)
    (dT : Q) : result (ndarray Q * ndarray Q) :=
  CTplus_C <~ gswT2conservT wOcean_ppt (map (fun T => T + dT)%Q T_C) SP_dbar false ;;
  CTless_C <~ gswT2conservT wOcean_ppt (map (fun T => T - dT)%Q T_C) SP_dbar false ;;
  dCTplus <~ np_elementwise Qminus CTplus_C CT_C ;;
  dCTless <~ np_elementwise Qminus CT_C CTless_C ;;
  dCTdT <~ np_mean_pair (div_scalar dCTplus dT) (div_scalar dCTless dT) ;;
  Hmid_Jkg <~ gswEnthalpy_Jkg wOcean_ppt CT_C SP_dbar ;;
  Hplus_Jkg <~ gswEnthalpy_Jkg wOcean_ppt CTplus_C SP_dbar ;;
  Hless_Jkg <~ gswEnthalpy_Jkg wOcean_ppt CTless_C SP_dbar ;;
  dHplus <~ np_elementwise Qminus Hplus_Jkg Hmid_Jkg ;;
  dHless <~ np_elementwise Qminus Hmid_Jkg Hless_Jkg ;;
  dHdT <~ np_mean_pair (div_scalar dHplus dT) (div_scalar dHless dT) ;;
  Ok (dCTdT, dHdT).

(** [np.asarray] of a number or of a one-dimensional array. *)
Definition np_asarray (x : scalar_or_array) : ndarray Q :=
  match x with
  | Scalar v => mkArray [] (fun _ => v)
  | Array xs => array1 0%Q xs
  end.

Definition values (x : scalar_or_array) : list Q :=
  match x with
  | Scalar v => [v]
  | Array xs => xs
  end.

(** [np.meshgrid(P_MPa, T_K, indexing='ij')] *)
Definition meshgrid_ij (P_MPa T_K : list Q) : ndarray Q * ndarray Q :=
  (mkArray [length P_MPa; length T_K]
     (fun k => match k with [i; _] => nth i P_MPa 0%Q | _ => 0%Q end),
   mkArray [length P_MPa; length T_K]
     (fun k => match k with [_; j] => nth j T_K 0%Q | _ => 0%Q end)).

(** [PhaseFunc.__call__] for pressures and temperatures that are numbers
    or one-dimensional arrays. *)
Definition PhaseFunc (w_ppt : Q) (P_MPa T_K : scalar_or_array) : result (ndarray Z) :=
  let P := np_asarray P_MPa in
  let T := np_asarray T_K in
  if (np_size P =? 0)%nat || (np_size T =? 0)%nat then
    Ok (array1 0 [])
  else
    let '(P, T) :=
      if negb (np_size P =? np_size T)%nat
         && negb ((np_size P =? 1)%nat || (np_size T =? 1)%nat)
      then meshgrid_ij (values P_MPa) (values T_K)
      else (P, T) in
    np_elementwise
      (fun T_K P_MPa =>
         if Qlt_le_dec ((T_K - T0) - gswTfreeze w_ppt (MPa2seaPressure P_MPa) 0) 0
         then 1 else 0)
      T P.
End Seawater.

(** ** Concrete inputs used to exercise the statements *)

(** A run of the layer method on one excitation of degree one. *)
Definition demo_Benm : ndarray Cplx :=
  mkArray [1; 2; 2; 2]%nat
    (fun k => match k with
              | [_; s; n; m] => mkC (inject_Z (Z.of_nat (s + n + m))) 1
              | _ => C.zero
              end).

Definition demo_AeList (_ _ _ : list Q) (_ : Q) (_ : Z) (_ : bool)
    : list Cplx * list Q * list Q :=
  ([mkC (1 # 2) (1 # 3)], [(3 # 5)%Q], [(1 # 7)%Q]).


(** A four-layer body (ice, two liquid layers, rock) without ionosphere. *)
Definition demo_phase : list Z := [1; 0; 0; 50].
Definition demo_r_m : list Q := [100 # 1; 90 # 1; 70 # 1; 50 # 1; 0 # 1]%Q.
Definition demo_sigma_Sm : list fval := [Fin (1 # 100000000); Fin 2; Fin 3; NaN].
Definition demo_interp1d (_ _ : list fval) (_ : string) (_ : fval) (xNew : list fval)
    : list fval :=
  map (fun x => F.div x (Fin 10)) xNew.

(** A stand-in for the coupling coefficients that records the triple
    they were built for. *)
Definition demo_LoadXid (nprmMax pMax nMax : Z) (_ _ : list Z) : Z * Z * Z :=
  (nprmMax, pMax, nMax).

(** A stored moments file for one excitation of degree one, written for
    a body of radius 1560 km. *)
Definition demo_Aen : ndarray Cplx :=
  mkArray [1; 2]%nat
    (fun k => match k with
              | [_; 1%nat] => mkC (9 # 10) (1 # 10)
              | _ => C.zero
              end).

Definition demo_BinmLin : ndarray Cplx :=
  mkArray [1; 3]%nat
    (fun k => match k with
              | [_; j] => mkC (inject_Z (Z.of_nat j)) 1
              | _ => C.zero
              end).

Definition demo_reload : MomentsFile :=
  mkMomentsFile demo_Benm demo_Benm [1 # 10000]%Q demo_BinmLin
    [1; 1; 1] [-1; 0; 1] [1; 1; 1] [-1; 0; 1]
    [mkC 10 1] [mkC 20 2] [mkC 30 3] demo_Aen
    (np.zeros C.zero [1; 2; 1; 1]%nat) [NaN] ["orbital"%string] (1560 # 1).

(** A body with two boundaries and one concentric shape file of degree
    two whose reference surface lies 10 km deep. *)
Definition demo_path_join (dir file : string) : string := (dir +:+ "/" +:+ file)%string.

Definition demo_glob (pattern : string) : list string :=
  if String.eqb pattern "Europa/inductionData/EuropaShape_4piNormDepth*.txt"
  then ["Europa/inductionData/EuropaShape_4piNormDepth.txt"%string]
  else [].

Definition demo_no_files (_ : string) : list string := [].

Definition demo_loadtxt (_ : string) : ShapeFile :=
  mkShapeFile [0; 1; 1; 2; 2; 2] [0; 0; 1; 0; 1; 2]
              [10; 1; 2; 3; 4; 5]%Q [0; 0; 6; 0; 7; 8]%Q.

Definition demo_chipq (_ : Z) (Cpq Spq : list Q) (s q : nat) : Cplx :=
  mkC (nth q Cpq 0%Q) (if (s =? 0)%nat then nth q Spq 0%Q else - nth q Spq 0%Q)%Q.

Definition demo_norm4pi (_ _ : Z) : Q := 1%Q.

Definition demo_rSigChange : list Q := [1500000 # 1; 1560000 # 1]%Q.

Definition demo_shape0 : ShapeState :=
  mkShapeState (Some 2) None None (np.zeros C.zero [2; 2; 1; 1]%nat)
    (np.zeros C.zero [2; 2; 1; 1]%nat) [] []
    (mkGravity (Some (4355 # 10000000)) None (Some (1315 # 10000000)) None None None).

Definition demo_shape_run (glob : string -> list string) (CONCENTRIC_ASYM : bool)
    : result (ShapeState * EOSlistT unit) :=
  SetAsymShape unit demo_chipq demo_norm4pi glob demo_loadtxt demo_path_join
    (fun l => l) (fun l => l) "Europa" "Europa" (1560000 # 1) (346 # 1000)
    demo_rSigChange 2 demo_shape0 "Shape_4piNormDepth" "Europa/inductionData"
    CONCENTRIC_ASYM (mkEOSlist unit ∅ ∅).

Definition is_ok {A : Type} (r : result A) : bool :=
  match r with
  | Ok _ => true
  | Raise _ => false
  end.

Definition shape_of_run (run : result (ShapeState * EOSlistT unit)) : ShapeState :=
  match run with
  | Ok (st, _) => st
  | Raise _ => demo_shape0
  end.

Definition cache_of_run (run : result (ShapeState * EOSlistT unit)) : EOSlistT unit :=
  match run with
  | Ok (_, EOSlist) => EOSlist
  | Raise _ => mkEOSlist unit ∅ ∅
  end.

(** Blocks for [SetupInduction] that only record that they ran. *)
Definition demo_block (name : string) (s : list string) : result (list string) :=
  Ok (s ++ [name]).

Definition demo_shape_block (pMax : option Z) (s : list string)
    : result (option Z * list string) :=
  Ok (pMax, s ++ ["SetAsymShape"%string]).

Definition demo_SetupInduction :=
  SetupInduction (list string) (demo_block "reduce") (demo_block "scaling")
    demo_shape_block (fun _ => demo_block "Xid") (fun s => s)
    (fun s => s ++ ["no asymmetry"%string]) (fun _ => demo_block "GetBexc")
    (demo_block "Binm") (fun s => s ++ ["ionosphere defaults"%string]).

(** The file of a run with asymmetry ([nprmMax = 1], [pMax = 1]): two
    columns of amplitudes and a linear list that goes up to degree two. *)
Definition demo_reload_asym : MomentsFile :=
  mkMomentsFile (np.zeros C.zero [1; 2; 3; 3]%nat) (np.zeros C.zero [1; 2; 3; 3]%nat)
    [1 # 10000]%Q (np.zeros C.zero [1; 8]%nat)
    (nLin_of 2) (mLin_of 2) (nLin_of 1) (mLin_of 1)
    [mkC 10 1] [mkC 20 2] [mkC 30 3] demo_Aen
    (np.zeros C.zero [1; 2; 2; 2]%nat) [NaN] ["orbital"%string] (1560 # 1).

(** The value of a computation that returned, for use in statements
    about concrete runs. *)
Definition ok_value {A : Type} (default : A) (r : result A) : A :=
  match r with
  | Ok a => a
  | Raise _ => default
  end.

(** A run of the layer method with [nprmMax = 2] on one excitation. *)
Definition demo_Benm2 : ndarray Cplx :=
  mkArray [1; 2; 3; 3]%nat
    (fun k => match k with
              | [_; s; n; m] => mkC (inject_Z (Z.of_nat (s + n + m))) 1
              | _ => C.zero
              end).

Definition demo_moments_run (inductMethod : string) (nprmMax : Z) (Benm : ndarray Cplx)
    : result Moments :=
  CalcInducedMoments (1 # 1000000) (fun z => z) Re Im (fun x => x)
    (fun _ _ y0 _ => Ok y0) demo_AeList unit
    (fun _ _ _ _ _ B _ _ _ _ _ _ _ => B)
    nprmMax 0 1 inductMethod [1 # 100]%Q [1560000 # 1]%Q [1 # 10000]%Q
    Benm (np.zeros_like C.zero Benm) Benm Benm tt (1560000 # 1)
    false false false false "RK45" (1000 # 1).

Definition no_moments : Moments :=
  mkMoments [] [] [] [] (np.zeros C.zero []) [] [] (np.zeros C.zero []) [].

(** The shape state [SetAsymShape] hands to [SetGravShape] for a body
    with two boundaries and [pMax = 2]. *)
Definition demo_shape_grav : ShapeState :=
  mkShapeState (Some 2) None None (np.zeros C.zero [2; 2; 3; 3]%nat)
    (np.zeros C.zero [2; 2; 3; 3]%nat) [] []
    (mkGravity (Some (4355 # 10000000)) None (Some (1315 # 10000000)) None None None).

(** A profile and settings for [MagneticInduction], and callees that
    raise if they are ever called. *)
Definition demo_planet_view (VALID : bool) : PlanetView unit :=
  mkPlanetView VALID None None None None (Some [Fin (1 # 10000)]) tt.

Definition demo_params_view (CALC_NEW_INDUCT DO_INDUCTOGRAM : bool) : ParamsView :=
  mkParamsView CALC_NEW_INDUCT DO_INDUCTOGRAM false true true true
    "Europa/inductionData/inducedMoments.mat".

Definition demo_MagneticInduction
    (SetupInduction_fn : PlanetView unit -> ParamsView -> result (PlanetView unit * ParamsView))
    (isfile : string -> bool) :=
  MagneticInduction unit SetupInduction_fn
    (fun _ _ => Raise RuntimeError) (fun _ _ => Raise RuntimeError)
    (fun _ _ => Raise RuntimeError) (fun _ _ => Raise RuntimeError)
    (fun _ _ => Raise RuntimeError) isfile.

(** A body with two selected excitations; the dict of selections and
    the dict of periods list them in different orders. *)
Definition demo_excSelection : list (string * bool) :=
  [("orbital"%string, true); ("synodic"%string, true); ("true anomaly"%string, false)].

Definition demo_Excitations (_ : string) : list (string * option Q) :=
  [("synodic"%string, Some (1123 # 100)); ("orbital"%string, Some (85 # 1));
   ("true anomaly"%string, None)]%Q.

Definition demo_GetBenm (_ pMax : Z) (_ _ : string) : list Q * ndarray Cplx * list Q :=
  ([1118 # 100; 8522 # 100; 560 # 100]%Q,
   mkArray [3; 2; Z.to_nat (pMax + 2); Z.to_nat (pMax + 2)]%nat
     (fun k => match k with
               | i :: _ => mkC (inject_Z (Z.of_nat i)) 1
               | [] => C.zero
               end),
   [0; 0; 400]%Q).

Definition demo_GetBexc (isfile : string -> bool) :=
  GetBexc Bexc (fun b => b) Ok (fun T => mkBexc (Some T) None None None)
    (fun _ => "{...}"%string) "Test" demo_path_join isfile demo_GetBenm demo_Excitations
    (355 # 113).

Definition is_kok {A : Type} (r : kresult A) : bool :=
  match r with
  | KOk _ => true
  | KRaise _ => false
  end.

Definition kok_value {A : Type} (default : A) (r : kresult A) : A :=
  match r with
  | KOk a => a
  | KRaise _ => default
  end.

Definition no_Bexc : Bexc * ExcCache Bexc :=
  (mkBexc None None None None, mkExcCache Bexc ∅ ∅).

(* ================================================================== *)
(** * Properties *)

(** ** Ranges and the linear lists *)

Lemma range_length lo hi : length (range lo hi) = Z.to_nat (hi - lo).
Proof. unfold range. now rewrite length_map, length_seq. Qed.

Lemma range_nth lo hi (i : nat) :
  (i < Z.to_nat (hi - lo))%nat -> nth_error (range lo hi) i = Some (lo + Z.of_nat i).
Proof.
  intros Hi. unfold range.
  rewrite nth_error_map, nth_error_seq.
  destruct (Nat.ltb_spec i (Z.to_nat (hi - lo))); [reflexivity | lia].
Qed.

Lemma range_snoc lo hi : lo <= hi -> range lo (hi + 1) = range lo hi ++ [hi].
Proof.
  intros Hle. unfold range.
  replace (Z.to_nat (hi + 1 - lo)) with (S (Z.to_nat (hi - lo))) by lia.
  rewrite seq_S, map_app. simpl. do 2 f_equal. lia.
Qed.

Lemma range_In lo hi x : In x (range lo hi) <-> lo <= x < hi.
Proof.
  unfold range. rewrite in_map_iff. split.
  - intros (i & <- & Hi). apply in_seq in Hi. lia.
  - intros Hx. exists (Z.to_nat (x - lo)). split; [lia |]. apply in_seq. lia.
Qed.

Lemma nLin_of_snoc (k : Z) :
  0 <= k -> nLin_of (k + 1) = nLin_of k ++ nBlock (k + 1).
Proof.
  intros Hk. unfold nLin_of.
  rewrite (range_snoc 1 (k + 1)) by lia.
  rewrite flat_map_app. simpl. now rewrite app_nil_r.
Qed.

Lemma mLin_of_snoc (k : Z) :
  0 <= k -> mLin_of (k + 1) = mLin_of k ++ mBlock (k + 1).
Proof.
  intros Hk. unfold mLin_of.
  rewrite (range_snoc 1 (k + 1)) by lia.
  rewrite flat_map_app. simpl. now rewrite app_nil_r.
Qed.

Lemma nBlock_length n : 0 <= n -> length (nBlock n) = Z.to_nat (2 * n + 1).
Proof. intros Hn. unfold nBlock. rewrite length_map, range_length. lia. Qed.

Lemma mBlock_length n : 0 <= n -> length (mBlock n) = Z.to_nat (2 * n + 1).
Proof. intros Hn. unfold mBlock. rewrite length_map, range_length. lia. Qed.

Lemma nLin_of_length (k : nat) :
  length (nLin_of (Z.of_nat k)) = Z.to_nat (Z.of_nat k * Z.of_nat k + 2 * Z.of_nat k).
Proof.
  induction k as [|k IH]; [reflexivity |].
  replace (Z.of_nat (S k)) with (Z.of_nat k + 1) by lia.
  rewrite nLin_of_snoc, length_app, IH, nBlock_length by lia. nia.
Qed.

Lemma mLin_of_length (k : nat) :
  length (mLin_of (Z.of_nat k)) = Z.to_nat (Z.of_nat k * Z.of_nat k + 2 * Z.of_nat k).
Proof.
  induction k as [|k IH]; [reflexivity |].
  replace (Z.of_nat (S k)) with (Z.of_nat k + 1) by lia.
  rewrite mLin_of_snoc, length_app, IH, mBlock_length by lia. nia.
Qed.

Lemma nBlock_nth n (j : nat) :
  (j < Z.to_nat (2 * n + 1))%nat -> nth_error (nBlock n) j = Some n.
Proof.
  intros Hj. unfold nBlock. rewrite nth_error_map, range_nth by lia. reflexivity.
Qed.

Lemma mBlock_nth n (j : nat) :
  (j < Z.to_nat (2 * n + 1))%nat -> nth_error (mBlock n) j = Some (- n + Z.of_nat j).
Proof.
  intros Hj. unfold mBlock. rewrite nth_error_map, range_nth by lia. reflexivity.
Qed.

(** The entry of degree [n] and order [m] sits [n*n + n + m - 1] places
    after the head of the lists. *)
Lemma lin_lookup (k : nat) (n m : Z) :
  1 <= n <= Z.of_nat k -> - n <= m <= n ->
  nth_error (nLin_of (Z.of_nat k)) (Z.to_nat (n * n + n + m - 1)) = Some n /\
  nth_error (mLin_of (Z.of_nat k)) (Z.to_nat (n * n + n + m - 1)) = Some m.
Proof.
  induction k as [|k IH]; intros Hn Hm; [lia |].
  replace (Z.of_nat (S k)) with (Z.of_nat k + 1) in * by lia.
  rewrite nLin_of_snoc, mLin_of_snoc by lia.
  destruct (Z.eq_dec n (Z.of_nat k + 1)) as [->|Hne].
  - rewrite !nth_error_app2
      by (rewrite ?nLin_of_length, ?mLin_of_length; nia).
    rewrite nLin_of_length, mLin_of_length.
    rewrite nBlock_nth, mBlock_nth by nia.
    split; f_equal; nia.
  - rewrite !nth_error_app1
      by (rewrite ?nLin_of_length, ?mLin_of_length; nia).
    apply IH; lia.
Qed.

(** Conversely every place of the lists holds such an entry. *)
Lemma lin_lookup_inv (k i : nat) :
  (i < length (nLin_of (Z.of_nat k)))%nat ->
  exists n m, 1 <= n <= Z.of_nat k /\ - n <= m <= n /\
    i = Z.to_nat (n * n + n + m - 1).
Proof.
  induction k as [|k IH]; intros Hi; [simpl in Hi; lia |].
  destruct (Nat.lt_ge_cases i (length (nLin_of (Z.of_nat k)))) as [Hlt|Hge].
  - destruct (IH Hlt) as (n & m & Hn & Hm & ->).
    exists n, m. repeat split; lia.
  - rewrite nLin_of_length in Hi, Hge.
    exists (Z.of_nat (S k)),
      (Z.of_nat i + 1 - Z.of_nat (S k) * Z.of_nat (S k) - Z.of_nat (S k)).
    repeat split; nia.
Qed.

(** ** Loops *)

Lemma for_each_app {X S : Type} (xs ys : list X) (body : X -> S -> result S) (s : S) :
  for_each (xs ++ ys) body s = (s' <~ for_each xs body s ;; for_each ys body s').
Proof.
  revert s. induction xs as [|x xs IH]; intros s; simpl; [reflexivity |].
  destruct (body x s); simpl; [apply IH | reflexivity].
Qed.

Lemma for_each_map {X Y S : Type} (f : X -> Y) (xs : list X)
    (body : Y -> S -> result S) (s : S) :
  for_each (map f xs) body s = for_each xs (fun x => body (f x)) s.
Proof.
  revert s. induction xs as [|x xs IH]; intros s; simpl; [reflexivity |].
  destruct (body (f x) s); simpl; [apply IH | reflexivity].
Qed.

(** Two nested loops run through the product of their lists. *)
Lemma for_each_nested {X Y S : Type} (xs : list X) (ys : list Y)
    (body : X -> Y -> S -> result S) (s : S) :
  for_each xs (fun x => for_each ys (body x)) s
  = for_each (list_prod xs ys) (fun p => body (fst p) (snd p)) s.
Proof.
  revert s. induction xs as [|x xs IH]; intros s; simpl; [reflexivity |].
  rewrite for_each_app, for_each_map. simpl.
  destruct (for_each ys (body x) s); simpl; [apply IH | reflexivity].
Qed.

Lemma nLin_of_In (P n : Z) : In n (nLin_of P) <-> 1 <= n <= P.
Proof.
  unfold nLin_of. rewrite in_flat_map. split.
  - intros (n' & Hn' & Hin). apply range_In in Hn'.
    apply in_map_iff in Hin. destruct Hin as (m & <- & _). lia.
  - intros Hn. exists n. split; [apply range_In; lia |].
    apply in_map_iff. exists 0. split; [reflexivity | apply range_In; lia].
Qed.

Lemma mLin_of_In (P m : Z) : In m (mLin_of P) <-> 1 <= P /\ - P <= m <= P.
Proof.
  unfold mLin_of. rewrite in_flat_map. split.
  - intros (n' & Hn' & Hin). apply range_In in Hn'.
    apply in_map_iff in Hin. destruct Hin as (m' & <- & Hm'). apply range_In in Hm'. lia.
  - intros [HP Hm]. exists P. split; [apply range_In; lia |].
    apply in_map_iff. exists m. split; [reflexivity | apply range_In; lia].
Qed.

(** ** The spherically symmetric moments *)

Section SymmetricMoments.
Variables (d0 d2 d3 a1 : nat).
Variables (Benm_nT Aen : ndarray Cplx).
Hypothesis Benm_shape : shape Benm_nT = [d0; 2%nat; d2; d3].
Hypothesis Aen_shape : shape Aen = [d0; a1].

#[local] Abbreviation sym_key := (sym_key d3).
#[local] Abbreviation sym_value := (sym_value d3 Benm_nT Aen).
#[local] Abbreviation sym_valid := (sym_valid d0 d2 d3 a1).
#[local] Abbreviation sym_body := (sym_body Benm_nT Aen).

Lemma wrap_index_nonneg size i :
  0 <= i < Z.of_nat size -> wrap_index size i = Ok (Z.to_nat i).
Proof.
  intros Hi. unfold wrap_index.
  destruct (Z.leb_spec 0 i), (Z.ltb_spec i (Z.of_nat size)); simpl; try lia; reflexivity.
Qed.

Lemma wrap_index_neg size i :
  - Z.of_nat size <= i < 0 -> wrap_index size i = Ok (Z.to_nat (Z.of_nat size + i)).
Proof.
  intros Hi. unfold wrap_index.
  destruct (Z.leb_spec 0 i); simpl; [lia |].
  destruct (Z.leb_spec (- Z.of_nat size) i), (Z.ltb_spec i 0); simpl; try lia; reflexivity.
Qed.

Lemma sym_wrap iPeak n m :
  sym_valid (iPeak, n, m) ->
  wrap_indices [d0; 2%nat; d2; d3] [iPeak; int_of_bool (m <? 0); n; m]
  = Ok (sym_key (iPeak, n, m)).
Proof.
  intros (Hi & Hn & _ & Hm). simpl.
  rewrite (wrap_index_nonneg d0 iPeak) by lia. simpl.
  rewrite (wrap_index_nonneg 2 (int_of_bool (m <? 0)))
    by (destruct (m <? 0); simpl; lia). simpl.
  rewrite (wrap_index_nonneg d2 n) by lia. simpl.
  destruct (Z.ltb_spec m 0).
  - rewrite wrap_index_neg by lia. reflexivity.
  - rewrite wrap_index_nonneg by lia. reflexivity.
Qed.

Lemma sym_key_inj t t' :
  sym_valid t -> sym_valid t' -> sym_key t = sym_key t' -> t = t'.
Proof.
  destruct t as [[i n] m], t' as [[i' n'] m'].
  intros (Hi & Hn & _ & Hm) (Hi' & Hn' & _ & Hm') Hk.
  unfold sym_key in Hk. injection Hk as H1 H2 H3 H4.
  assert (i = i') by lia. assert (n = n') by lia. subst.
  destruct (Z.ltb_spec m 0), (Z.ltb_spec m' 0); simpl in H2;
    try discriminate; repeat f_equal; lia.
Qed.

Lemma sym_body_ok t B :
  sym_valid t -> shape B = [d0; 2%nat; d2; d3] ->
  sym_body t B
  = Ok (mkArray (shape B)
          (fun k' => if list_nat_eqb (sym_key t) k' then sym_value t else data B k')).
Proof using Benm_shape Aen_shape.
  destruct t as [[i n] m]. intros Hv HB.
  unfold sym_body, sym_assign, np.getitem, np.setitem. simpl fst; simpl snd.
  rewrite Benm_shape, Aen_shape, HB, (sym_wrap i n m Hv).
  destruct Hv as (Hi & Hn & Ha & Hm).
  simpl. rewrite (wrap_index_nonneg d0 i), (wrap_index_nonneg a1 n) by lia.
  reflexivity.
Qed.

(** What a run of assignments leaves in the array. *)
Lemma sym_loop_spec (ts : list (Z * Z * Z)) (B : ndarray Cplx) :
  Forall sym_valid ts -> shape B = [d0; 2%nat; d2; d3] ->
  exists B', for_each ts sym_body B = Ok B' /\
    shape B' = [d0; 2%nat; d2; d3] /\
    (forall t, In t ts -> data B' (sym_key t) = sym_value t) /\
    (forall k, (forall t, In t ts -> sym_key t <> k) -> data B' k = data B k).
Proof using Benm_shape Aen_shape.
  revert B. induction ts as [|t ts IH]; intros B Hv HB.
  - exists B. simpl. repeat split; [assumption | contradiction].
  - inversion Hv as [|? ? Ht Hts]; subst.
    simpl. rewrite (sym_body_ok t B Ht HB). simpl.
    edestruct (IH (mkArray (shape B)
                  (fun k' => if list_nat_eqb (sym_key t) k' then sym_value t
                             else data B k')) Hts HB)
      as (B' & Hrun & HB' & Hin & Hout).
    exists B'. split; [exact Hrun |]. split; [exact HB' |]. split.
    + intros t0 [<-|Ht0].
      * destruct (in_dec (fun x y : Z * Z * Z => decide (x = y)) t ts) as [Hl|Hl].
        -- apply Hin, Hl.
        -- rewrite Hout.
           ++ simpl. unfold list_nat_eqb. rewrite bool_decide_eq_true_2; reflexivity.
           ++ intros t' Ht' Hk. apply Hl.
              rewrite List.Forall_forall in Hts.
              rewrite (sym_key_inj t t' Ht (Hts t' Ht')); [exact Ht' | symmetry; exact Hk].
      * apply Hin, Ht0.
    + intros k Hk. rewrite Hout by (intros t' Ht'; apply Hk; now right).
      simpl. unfold list_nat_eqb. rewrite bool_decide_eq_false_2; [reflexivity |].
      apply Hk. now left.
Qed.
End SymmetricMoments.

Lemma sym_moments_product (nExc : Z) (ns ms : list Z) (Benm_nT Aen B : ndarray Cplx) :
  sym_moments nExc ns ms Benm_nT Aen B
  = for_each (list_prod (list_prod (range 0 nExc) ns) ms) (sym_body Benm_nT Aen) B.
Proof.
  unfold sym_moments.
  rewrite (for_each_nested (range 0 nExc) ns
             (fun iPeak n => for_each ms (fun m => sym_assign Benm_nT Aen iPeak n m))).
  rewrite (for_each_nested (list_prod (range 0 nExc) ns) ms
             (fun p m => sym_assign Benm_nT Aen (fst p) (snd p) m)).
  reflexivity.
Qed.

(** The loops of the symmetric case, for arrays of matching shape and an
    arbitrary array of amplitudes: they end without an exception and every
    entry of degree [1..nprmMax] holds [n/(n+1) * Benm * Aen]. *)
Lemma sym_moments_spec (nExc nprmMax : Z) (d2 d3 a1 : nat)
    (Benm_nT Aen Binm_nT : ndarray Cplx) :
  shape Benm_nT = [Z.to_nat nExc; 2%nat; d2; d3] ->
  shape Binm_nT = shape Benm_nT ->
  shape Aen = [Z.to_nat nExc; a1] ->
  nprmMax < Z.of_nat d2 -> nprmMax < Z.of_nat d3 -> nprmMax < Z.of_nat a1 ->
  exists B',
    sym_moments nExc (nLin_of nprmMax) (mLin_of nprmMax) Benm_nT Aen Binm_nT = Ok B' /\
    shape B' = shape Benm_nT /\
    forall iPeak n m,
      0 <= iPeak < nExc -> 1 <= n <= nprmMax -> - n <= m <= n ->
      exists b a,
        np.getitem Benm_nT [iPeak; int_of_bool (m <? 0); n; m] = Ok b /\
        np.getitem Aen [iPeak; n] = Ok a /\
        np.getitem B' [iPeak; int_of_bool (m <? 0); n; m]
        = Ok (C.mul (C.mul (C.of_real (inject_Z n / inject_Z (n + 1))) b) a).
Proof.
  intros HBe HBi HAe H2 H3 Ha.
  rewrite sym_moments_product.
  set (ts := list_prod (list_prod (range 0 nExc) (nLin_of nprmMax)) (mLin_of nprmMax)).
  assert (Hvalid : Forall (sym_valid (Z.to_nat nExc) d2 d3 a1) ts).
  { apply List.Forall_forall. intros [[i n] m] Hin. unfold ts in Hin.
    apply in_prod_iff in Hin. destruct Hin as [Hin Hm].
    apply in_prod_iff in Hin. destruct Hin as [Hi Hn].
    apply range_In in Hi. apply nLin_of_In in Hn. apply mLin_of_In in Hm.
    unfold sym_valid. lia. }
  rewrite HBe in HBi.
  destruct (sym_loop_spec (Z.to_nat nExc) d2 d3 a1 Benm_nT Aen HBe HAe ts Binm_nT Hvalid HBi)
    as (B' & Hrun & HB' & Hin & _).
  exists B'. split; [exact Hrun |]. split; [congruence |].
  intros iPeak n m Hi Hn Hm.
  assert (Hv : sym_valid (Z.to_nat nExc) d2 d3 a1 (iPeak, n, m))
    by (unfold sym_valid; lia).
  assert (Ht : In (iPeak, n, m) ts).
  { unfold ts. apply in_prod_iff. split; [apply in_prod_iff; split |].
    - apply range_In. lia.
    - apply nLin_of_In. lia.
    - apply mLin_of_In. lia. }
  exists (data Benm_nT (sym_key d3 (iPeak, n, m))),
         (data Aen [Z.to_nat iPeak; Z.to_nat n]).
  unfold np.getitem. rewrite HBe, HB', HAe, (sym_wrap _ _ _ _ iPeak n m Hv).
  simpl. rewrite !wrap_index_nonneg by (unfold sym_valid in Hv; lia). simpl.
  repeat split. f_equal. apply (Hin _ Ht).
Qed.

(** ** Columns and comprehensions *)

Lemma set_column_ok {A : Type} (a : ndarray A) (d0 d1 : nat) (j : Z) (vals : list A) :
  shape a = [d0; d1] -> 0 <= j < Z.of_nat d1 -> length vals = d0 ->
  exists a', set_column a j vals = Ok a' /\ shape a' = [d0; d1] /\
    (forall i c, c <> Z.to_nat j -> data a' [i; c] = data a [i; c]) /\
    (forall i, data a' [i; Z.to_nat j] = nth i vals (data a [i; Z.to_nat j])).
Proof.
  intros Hsh Hj Hlen. unfold set_column. rewrite Hsh, wrap_index_nonneg by lia.
  simpl. rewrite Hlen, Nat.eqb_refl.
  eexists. split; [reflexivity |]. simpl. split; [exact Hsh |]. split.
  - intros i c Hc. destruct (Nat.eqb_spec c (Z.to_nat j)); [contradiction | reflexivity].
  - intros i. now rewrite Nat.eqb_refl.
Qed.

Lemma collect_ok {X A : Type} (f : X -> result A) (xs : list X) :
  (forall x, In x xs -> exists a, f x = Ok a) ->
  exists l, collect f xs = Ok l /\ length l = length xs.
Proof.
  induction xs as [|x xs IH]; intros Hall.
  - exists []. split; reflexivity.
  - destruct (Hall x (or_introl eq_refl)) as [a Ha].
    destruct IH as (l & Hl & Hlen); [intros y Hy; apply Hall; now right |].
    exists (a :: l). simpl. rewrite Ha. simpl. rewrite Hl. simpl.
    split; [reflexivity | now rewrite Hlen].
Qed.

Lemma collect_nth {X A : Type} (f : X -> result A) (xs : list X) (l : list A) (i : nat) (x : X) :
  collect f xs = Ok l -> nth_error xs i = Some x ->
  exists a, f x = Ok a /\ nth_error l i = Some a.
Proof.
  revert l i. induction xs as [|y xs IH]; intros l i Hc Hx.
  - destruct i; discriminate.
  - simpl in Hc. destruct (f y) as [a|] eqn:Hy; [|discriminate]. simpl in Hc.
    destruct (collect f xs) as [rest|] eqn:Hrest; [|discriminate].
    simpl in Hc. injection Hc as <-.
    destruct i as [|i]; simpl in *.
    + injection Hx as <-. now exists a.
    + apply (IH rest i eq_refl Hx).
Qed.

(** ** The layer method without asymmetry *)

Section LayerMethod.
Variable mu0 : Q.
Variables (np_sqrt : Cplx -> Cplx) (np_abs np_angle_deg : Cplx -> Q) (np_degrees : Q -> Q).
Variable ODEsolve :
  (Q -> Cplx -> result Cplx) -> Q * Q -> Cplx -> string -> result Cplx.
Variable AeList :
  list Q -> list Q -> list Q -> Q -> Z -> bool -> list Cplx * list Q * list Q.
Variable XidT : Type.
Variable BiAsym :
  list Q -> list Q -> list Q -> ndarray Cplx -> ndarray Cplx -> ndarray Cplx ->
  Q -> list Z -> list Z -> Z -> Z -> bool -> XidT -> ndarray Cplx.

Variables (nprmMax pMax nExc : Z) (inductMethod : string).
Variables (sigmaLayers_Sm rSigChange_m omegaExc_radps : list Q).
Variables (Benm Binm0 asymShape_m gravShape_m : ndarray Cplx) (Xid : XidT).
Variable R_m : Q.
Variables (DO_PARALLEL INDUCTOGRAM_IN_PROGRESS DO_EXPLOREOGRAM : bool).
Variables (EckhardtSolveMethod : string) (rMinODE : Q).

#[local] Abbreviation par :=
  (do_parallel_inner DO_PARALLEL INDUCTOGRAM_IN_PROGRESS DO_EXPLOREOGRAM).
#[local] Abbreviation N := (Z.to_nat (nprmMax + pMax + 1)).

(** The closed-form routine returns one amplitude per frequency. *)
Hypothesis AeList_length : forall nn,
  length (fst (fst (AeList rSigChange_m sigmaLayers_Sm omegaExc_radps (1 / R_m)%Q nn par)))
  = Z.to_nat nExc.

Lemma higher_degrees_ok (ns : list Z) (A : ndarray Cplx) :
  (forall n, In n ns -> 0 <= n <= nprmMax) ->
  shape A = [Z.to_nat nExc; Z.to_nat (nprmMax + 1)] ->
  exists A',
    for_each ns
      (fun n A =>
         let '(Ae_n, _, _) :=
           AeList rSigChange_m sigmaLayers_Sm omegaExc_radps (1 / R_m)%Q n par in
         set_column A n Ae_n) A = Ok A' /\
    shape A' = [Z.to_nat nExc; Z.to_nat (nprmMax + 1)].
Proof using AeList_length.
  revert A. induction ns as [|n ns IH]; intros A Hns HA.
  - exists A. split; [reflexivity | exact HA].
  - simpl. pose proof (AeList_length n) as Hlen.
    destruct (AeList rSigChange_m sigmaLayers_Sm omegaExc_radps (1 / R_m)%Q n par)
      as [[Ae_n ?] ?]. simpl in Hlen.
    destruct (set_column_ok A _ _ n Ae_n HA) as (A1 & HA1 & Hsh & _);
      [specialize (Hns n (or_introl eq_refl)); lia | exact Hlen |].
    rewrite HA1. simpl. apply IH; [intros; apply Hns; now right | exact Hsh].
Qed.

Lemma linear_indices_ok (B : ndarray Cplx) (iPeak : Z) :
  0 <= pMax -> 1 <= nprmMax ->
  shape B = [Z.to_nat nExc; 2%nat; N; N] -> 0 <= iPeak < nExc ->
  forall nm, In nm (combine (nLin_of (nprmMax + pMax)) (mLin_of (nprmMax + pMax))) ->
  exists v, np.getitem B [iPeak; int_of_bool (snd nm <? 0); fst nm; snd nm] = Ok v.
Proof.
  intros Hp Hn' HB Hi [n m] Hin.
  pose proof (in_combine_l _ _ _ _ Hin) as Hn. apply nLin_of_In in Hn.
  pose proof (in_combine_r _ _ _ _ Hin) as Hm. apply mLin_of_In in Hm.
  unfold np.getitem. rewrite HB. simpl fst; simpl snd.
  rewrite (sym_wrap (Z.to_nat nExc) N N N iPeak n m) by (unfold sym_valid; lia).
  eexists. reflexivity.
Qed.

Hypothesis method_layer :
  inductMethod = "Srivastava1966"%string \/ inductMethod = "layer"%string.
Hypothesis nExc_nonneg : 0 <= nExc.
Hypothesis nprmMax_pos : 1 <= nprmMax.
Hypothesis pMax_nonneg : 0 <= pMax.
Hypothesis Benm_shape : shape Benm = [Z.to_nat nExc; 2%nat; N; N].
Hypothesis Binm_shape : shape Binm0 = shape Benm.

(** C1.  With the layer method and asymmetry off, [CalcInducedMoments]
    returns, and for every excitation [iPeak], every degree [n] in
    [1..nprmMax] and every order [m] with [|m| <= n] the induced moment
    [Binm_nT[iPeak, int(m<0), n, m]] is
    [n/(n+1) * Benm_nT[iPeak, int(m<0), n, m] * Aen[iPeak, n]], whatever
    amplitudes the closed-form routine produced and whatever the forcing
    moments are. *)
Theorem layer_symmetric_moments :
  exists M,
    CalcInducedMoments mu0 np_sqrt np_abs np_angle_deg np_degrees ODEsolve AeList XidT BiAsym
      nprmMax pMax nExc inductMethod sigmaLayers_Sm rSigChange_m omegaExc_radps
      Benm Binm0 asymShape_m gravShape_m Xid R_m
      false DO_PARALLEL INDUCTOGRAM_IN_PROGRESS DO_EXPLOREOGRAM
      EckhardtSolveMethod rMinODE = Ok M /\
    forall iPeak n m,
      0 <= iPeak < nExc -> 1 <= n <= nprmMax -> - n <= m <= n ->
      exists b a,
        np.getitem Benm [iPeak; int_of_bool (m <? 0); n; m] = Ok b /\
        np.getitem (Aen M) [iPeak; n] = Ok a /\
        np.getitem (Binm_nT M) [iPeak; int_of_bool (m <? 0); n; m]
        = Ok (C.mul (C.mul (C.of_real (inject_Z n / inject_Z (n + 1))) b) a).
Proof using All.
  unfold CalcInducedMoments.
  assert (Hnum : String.eqb inductMethod "Eckhardt1963" || String.eqb inductMethod "numeric"
                 = false) by (destruct method_layer as [-> | ->]; reflexivity).
  assert (Hlay : String.eqb inductMethod "Srivastava1966" || String.eqb inductMethod "layer"
                 = true) by (destruct method_layer as [-> | ->]; reflexivity).
  rewrite Hnum, Hlay.
  pose proof (AeList_length 1) as Hlen1.
  destruct (AeList rSigChange_m sigmaLayers_Sm omegaExc_radps (1 / R_m)%Q 1 par)
    as [[Ae1 Amp1] AeArg]. simpl in Hlen1.
  destruct (set_column_ok
              (np.zeros C.zero [Z.to_nat nExc; Z.to_nat (nprmMax + 1)]) _ _ 1 Ae1
              eq_refl) as (A1 & HA1 & HshA1 & _); [lia | exact Hlen1 |].
  rewrite HA1. cbn [rbind].
  destruct (higher_degrees_ok (range 2 nprmMax) A1) as (A & HA & HshA);
    [intros n Hn; apply range_In in Hn; lia | exact HshA1 |].
  rewrite HA. cbn [rbind].
  destruct (sym_moments_spec nExc nprmMax N N (Z.to_nat (nprmMax + 1)) Benm A Binm0
              Benm_shape Binm_shape HshA) as (B' & HB' & HshB & Hval); try lia.
  rewrite HB'. cbn [rbind].
  destruct (collect_ok
              (fun iPeak =>
                 collect (fun nm : Z * Z =>
                            np.getitem B' [iPeak; int_of_bool (snd nm <? 0); fst nm; snd nm])
                         (combine (nLin_of (nprmMax + pMax)) (mLin_of (nprmMax + pMax))))
              (range 0 nExc)) as (L & HL & _).
  { intros iPeak Hi. apply range_In in Hi.
    destruct (collect_ok
                (fun nm : Z * Z =>
                   np.getitem B' [iPeak; int_of_bool (snd nm <? 0); fst nm; snd nm])
                (combine (nLin_of (nprmMax + pMax)) (mLin_of (nprmMax + pMax))))
      as (l & Hl & _); [|eauto].
    apply linear_indices_ok; try lia. congruence. }
  rewrite HL. cbn [rbind].
  eexists. split; [reflexivity |]. simpl. exact Hval.
Qed.
End LayerMethod.

Lemma layer_symmetric_moments_witness :
  exists M,
    CalcInducedMoments (1 # 1000000) (fun z => z) Re Im (fun x => x)
      (fun _ _ y0 _ => Ok y0) demo_AeList unit
      (fun _ _ _ _ _ B _ _ _ _ _ _ _ => B)
      1 0 1 "layer" [1 # 100]%Q [1560000 # 1]%Q [1 # 10000]%Q
      demo_Benm (np.zeros_like C.zero demo_Benm) demo_Benm demo_Benm tt (1560000 # 1)
      false false false false "RK45" (1000 # 1) = Ok M /\
    forall iPeak n m,
      0 <= iPeak < 1 -> 1 <= n <= 1 -> - n <= m <= n ->
      exists b a,
        np.getitem demo_Benm [iPeak; int_of_bool (m <? 0); n; m] = Ok b /\
        np.getitem (Aen M) [iPeak; n] = Ok a /\
        np.getitem (Binm_nT M) [iPeak; int_of_bool (m <? 0); n; m]
        = Ok (C.mul (C.mul (C.of_real (inject_Z n / inject_Z (n + 1))) b) a).
Proof.
  apply (layer_symmetric_moments (1 # 1000000) (fun z => z) Re Im (fun x => x)
           (fun _ _ y0 _ => Ok y0) demo_AeList unit
           (fun _ _ _ _ _ B _ _ _ _ _ _ _ => B)
           1 0 1 "layer").
  - intros nn. reflexivity.
  - right. reflexivity.
  - lia.
  - lia.
  - lia.
  - reflexivity.
  - reflexivity.
Defined.

(** ** Position of an entry in the linear lists *)

(** C6, as the code has it.  The lists start at degree one, so for
    [1 <= n <= nMax] and [-n <= m <= n] the entry [(n, m)] of
    [nLin]/[mLin] is found at the (zero-based) index [n*n + n + m - 1],
    and nowhere else: it is the [(n*n + n + m)]-th entry counting from
    one. *)
Theorem linear_index_of_degree_order (nMax n m : Z) (i : nat) :
  1 <= n <= nMax -> - n <= m <= n ->
  (nth_error (nLin_of nMax) i = Some n /\ nth_error (mLin_of nMax) i = Some m)
  <-> Z.of_nat i = n * n + n + m - 1.
Proof.
  intros Hn Hm.
  replace nMax with (Z.of_nat (Z.to_nat nMax)) by lia.
  split.
  - intros [Hni Hmi].
    assert (Hlt : (i < length (nLin_of (Z.of_nat (Z.to_nat nMax))))%nat)
      by (apply nth_error_Some; congruence).
    destruct (lin_lookup_inv _ _ Hlt) as (n' & m' & Hn' & Hm' & ->).
    destruct (lin_lookup (Z.to_nat nMax) n' m' Hn' Hm') as [Hn2 Hm2].
    rewrite Hn2 in Hni. rewrite Hm2 in Hmi.
    injection Hni as ->. injection Hmi as ->. nia.
  - intros Hi.
    replace i with (Z.to_nat (n * n + n + m - 1)) by lia.
    apply lin_lookup; lia.
Qed.

Lemma linear_index_of_degree_order_witness :
  (nth_error (nLin_of 2) 4 = Some 2 /\ nth_error (mLin_of 2) 4 = Some (-1))
  <-> Z.of_nat 4 = 2 * 2 + 2 + -1 - 1.
Proof. apply (linear_index_of_degree_order 2 2 (-1) 4); lia. Defined.

(** C6, as stated, fails on the first entry: degree one, order minus one
    is not at index [1*1 + 1 + (-1) = 1]; that place holds order zero. *)
Lemma linear_offset_counterexample :
  nth_error (mLin_of 1) (Z.to_nat (1 * 1 + 1 + -1)) = Some 0 /\
  ~ (nth_error (nLin_of 1) (Z.to_nat (1 * 1 + 1 + -1)) = Some 1 /\
     nth_error (mLin_of 1) (Z.to_nat (1 * 1 + 1 + -1)) = Some (-1)).
Proof. split; [reflexivity |]. intros [_ H]. discriminate H. Qed.

(** ** The wavenumber lookup of the numeric method *)







(** ** The radial equation against its statement *)

Lemma inject_Z_nonzero (n : Z) : n <> 0 -> ~ (inject_Z n == 0)%Q.
Proof.
  intros Hn H. apply Hn. unfold Qeq in H. simpl in H. lia.
Qed.


(** ** The numeric method *)


Section NumericLoop.
Variable ODEsolve :
  (Q -> Cplx -> result Cplx) -> Q * Q -> Cplx -> string -> result Cplx.
Variables (nExc : Z) (k_pm : list (list Cplx)) (rSigChange_m omegaExc_radps : list Q).
Variables (R_m : Q) (EckhardtSolveMethod : string) (rMinODE : Q).
Variables (Benm : ndarray Cplx) (d2 d3 a1 : nat).

#[local] Abbreviation nE := (Z.to_nat nExc).
#[local] Abbreviation solve nprm k_row :=
  (SolveForQ ODEsolve nprm k_row rSigChange_m R_m EckhardtSolveMethod rMinODE).
#[local] Abbreviation step :=
  (numeric_step ODEsolve nExc k_pm rSigChange_m omegaExc_radps R_m
                EckhardtSolveMethod rMinODE Benm).

Hypothesis nExc_nonneg : 0 <= nExc.
Hypothesis Benm_shape : shape Benm = [nE; 2%nat; d2; d3].
Hypothesis omega_length : length omegaExc_radps = nE.
Hypothesis k_pm_length : length k_pm = nE.


End NumericLoop.


Section NumericMethod.
Variable mu0 : Q.
Variables (np_sqrt : Cplx -> Cplx) (np_abs np_angle_deg : Cplx -> Q) (np_degrees : Q -> Q).
Variable ODEsolve :
  (Q -> Cplx -> result Cplx) -> Q * Q -> Cplx -> string -> result Cplx.
Variable AeList :
  list Q -> list Q -> list Q -> Q -> Z -> bool -> list Cplx * list Q * list Q.
Variable XidT : Type.
Variable BiAsym :
  list Q -> list Q -> list Q -> ndarray Cplx -> ndarray Cplx -> ndarray Cplx ->
  Q -> list Z -> list Z -> Z -> Z -> bool -> XidT -> ndarray Cplx.

Variables (nprmMax pMax nExc : Z) (inductMethod : string).
Variables (sigmaLayers_Sm rSigChange_m omegaExc_radps : list Q).
Variables (Benm Binm0 asymShape_m gravShape_m : ndarray Cplx) (Xid : XidT).
Variables (R_m rTop : Q).
Variables (CALC_ASYM DO_PARALLEL INDUCTOGRAM_IN_PROGRESS DO_EXPLOREOGRAM : bool).
Variables (EckhardtSolveMethod : string) (rMinODE : Q).

#[local] Abbreviation N := (Z.to_nat (nprmMax + pMax + 1)).

Hypothesis method_numeric :
  inductMethod = "Eckhardt1963"%string \/ inductMethod = "numeric"%string.
Hypothesis nExc_nonneg : 0 <= nExc.
Hypothesis nprmMax_pos : 1 <= nprmMax.
Hypothesis pMax_nonneg : 0 <= pMax.
Hypothesis Benm_shape : shape Benm = [Z.to_nat nExc; 2%nat; N; N].
Hypothesis Binm_shape : shape Binm0 = shape Benm.
Hypothesis omega_length : length omegaExc_radps = Z.to_nat nExc.
Hypothesis sigma_length : length sigmaLayers_Sm = length rSigChange_m.
Hypothesis outer_boundary : last_item rSigChange_m = Ok rTop.
(** The integrator returns a final value whenever the right-hand side
    is defined on the span it is given. *)
Hypothesis solver_returns : forall f t0 tf y0 method,
  (forall r Qv, (t0 <= r)%Q -> (r <= tf)%Q -> exists v, f r Qv = Ok v) ->
  exists y, ODEsolve f (t0, tf) y0 method = Ok y.

End NumericMethod.


(** ** Layer reduction *)

Lemma F_ltb_Fin (a b : Q) : F.ltb (Fin a) (Fin b) = true <-> (a < b)%Q.
Proof.
  unfold F.ltb, Qltb. rewrite negb_true_iff. split.
  - intros H. apply Qnot_le_lt. intros Hle. apply Qle_bool_iff in Hle. congruence.
  - intros H. destruct (Qle_bool b a) eqn:Hle; [|reflexivity].
    apply Qle_bool_iff in Hle. exfalso. apply (Qlt_not_le _ _ H Hle).
Qed.

Lemma F_ltb_inv (x y : fval) :
  F.ltb x y = true -> exists a b, x = Fin a /\ y = Fin b /\ (a < b)%Q.
Proof.
  destruct x as [a|], y as [b|]; try discriminate.
  intros H. exists a, b. repeat split. now apply F_ltb_Fin.
Qed.


Lemma F_ltb_trans (x y z : fval) :
  F.ltb x y = true -> F.ltb y z = true -> F.ltb x z = true.
Proof.
  intros Hxy Hyz.
  destruct (F_ltb_inv _ _ Hxy) as (a & b & -> & -> & Hab).
  destruct (F_ltb_inv _ _ Hyz) as (b' & c & [= <-] & -> & Hbc).
  apply F_ltb_Fin. now apply (Qlt_trans _ b).
Qed.

Lemma F_eqb_trans (x y z : fval) :
  F.eqb x y = true -> F.eqb y z = true -> F.eqb x z = true.
Proof.
  destruct x as [a|], y as [b|], z as [c|]; simpl; try discriminate.
  rewrite !Qeq_bool_iff. intros H1 H2. now rewrite H1.
Qed.


(** Strong sortedness and the positional reading of an ordering. *)
Lemma StronglySorted_nth {A : Type} (R : A -> A -> Prop) (l : list A) :
  StronglySorted R l <->
  (forall (i j : nat) x y,
      (i < j)%nat -> nth_error l i = Some x -> nth_error l j = Some y -> R x y).
Proof.
  induction l as [|a l IH].
  - split; [intros _ [|i] j x y _ Hi; discriminate | constructor].
  - split.
    + intros Hs. apply StronglySorted_inv in Hs. destruct Hs as [Hs Hall].
      intros [|i] [|j] x y Hij Hi Hj; try lia; simpl in *.
      * injection Hi as <-. rewrite List.Forall_forall in Hall.
        apply Hall. eapply nth_error_In, Hj.
      * apply (proj1 IH Hs i j); [lia | exact Hi | exact Hj].
    + intros H. constructor.
      * apply IH. intros i j x y Hij Hi Hj. apply (H (S i) (S j)); [lia | exact Hi | exact Hj].
      * apply List.Forall_forall. intros y Hy. apply In_nth_error in Hy.
        destruct Hy as [j Hj]. apply (H 0%nat (S j)); [lia | reflexivity | exact Hj].
Qed.

(** *** Indexing with the change indices *)

Lemma combine_map_S {A : Type} (ns : list nat) (xs : list A) :
  combine (map S ns) xs = map (fun p => (S (fst p), snd p)) (combine ns xs).
Proof.
  revert xs. induction ns as [|n ns IH]; intros [|x xs]; simpl; try reflexivity.
  now rewrite IH.
Qed.

Lemma filter_map_swap {A B : Type} (f : A -> B) (P : B -> bool) (l : list A) :
  List.filter P (map f l) = map f (List.filter (fun a => P (f a)) l).
Proof.
  induction l as [|a l IH]; simpl; [reflexivity |].
  destruct (P (f a)); simpl; now rewrite IH.
Qed.

Lemma change_indices_cons (s : fval) (sigma : list fval) :
  change_indices (s :: sigma)
  = (if F.neb s (hd NaN (sigma ++ [NaN])) then [0%nat] else [])
    ++ map S (change_indices sigma).
Proof.
  unfold change_indices. cbn [length seq combine List.filter fst snd].
  assert (Hhd : nth 1 ((s :: sigma) ++ [NaN]) NaN = hd NaN (sigma ++ [NaN]))
    by (destruct sigma; reflexivity).
  rewrite Hhd.
  rewrite <- seq_shift, combine_map_S, filter_map_swap.
  cbn [fst snd].
  change (fun a : nat * fval =>
            F.neb (snd a) (nth (S (S (fst a))) ((s :: sigma) ++ [NaN]) NaN))
    with (fun isig : nat * fval =>
            F.neb (snd isig) (nth (S (fst isig)) (sigma ++ [NaN]) NaN)).
  destruct (F.neb s (hd NaN (sigma ++ [NaN]))); cbn [map app fst];
    rewrite !map_map; reflexivity.
Qed.

Lemma collect_item_shift {A : Type} (x : A) (xs : list A) (idxs : list nat) :
  collect (item (x :: xs)) (map S idxs) = collect (item xs) idxs.
Proof.
  induction idxs as [|i idxs IH]; simpl; [reflexivity |].
  unfold item at 1 3. simpl. now rewrite IH.
Qed.

Lemma change_indices_length_nil (sigma : list fval) :
  sigma = [] -> change_indices sigma = [].
Proof. now intros ->. Qed.

(** Indexing with [change_indices] is [collapse_runs]. *)
Lemma pick_change_indices {A : Type} (sigma : list fval) (xs : list A) :
  (length sigma <= length xs)%nat ->
  collect (item xs) (change_indices sigma) = Ok (collapse_runs sigma xs).
Proof.
  revert xs. induction sigma as [|s sigma IH]; intros xs Hlen; [reflexivity |].
  destruct xs as [|x xs]; [simpl in Hlen; lia |].
  rewrite change_indices_cons. cbn [collapse_runs].
  simpl in Hlen.
  destruct (F.neb s (hd NaN (sigma ++ [NaN]))); cbn [app collect].
  - unfold item at 1. cbn [nth_error rbind].
    rewrite collect_item_shift, IH by lia. reflexivity.
  - rewrite collect_item_shift. apply IH. lia.
Qed.

Lemma collapse_runs_In {A : Type} (sigma : list fval) (xs : list A) (x : A) :
  In x (collapse_runs sigma xs) -> In x xs.
Proof.
  revert xs. induction sigma as [|s sigma IH]; intros [|y xs]; simpl; try contradiction.
  destruct (F.neb s (hd NaN (sigma ++ [NaN]))); simpl.
  - intros [-> | Hin]; [now left | right; now apply IH].
  - intros Hin. right. now apply IH.
Qed.




(** *** The radii before the collapse *)

Lemma removelast_nth {A : Type} (l : list A) (i : nat) (x : A) :
  nth_error (removelast l) i = Some x -> nth_error l i = Some x.
Proof.
  rewrite removelast_firstn_len, nth_error_firstn.
  destruct (i <? Init.Nat.pred (length l))%nat; [tauto | discriminate].
Qed.

Lemma rev_decreasing_sorted (l : list Q) :
  strictly_decreasing l -> StronglySorted (fun x y => F.ltb x y = true) (rev (map Fin l)).
Proof.
  intros Hdec. apply StronglySorted_nth. intros i j x y Hij Hi Hj.
  rewrite nth_error_rev, length_map in Hi, Hj.
  destruct (Nat.ltb_spec i (length l)); [|discriminate].
  destruct (Nat.ltb_spec j (length l)); [|discriminate].
  rewrite nth_error_map in Hi, Hj.
  destruct (nth_error l (length l - S i)) as [a|] eqn:Ha; [|discriminate].
  destruct (nth_error l (length l - S j)) as [b|] eqn:Hb; [|discriminate].
  simpl in Hi, Hj. injection Hi as <-. injection Hj as <-.
  apply F_ltb_Fin. apply (Hdec (length l - S j)%nat (length l - S i)%nat); [lia | exact Hb | exact Ha].
Qed.

Lemma ascending_layers_sorted (r_m : list Q) (zIonos_m : list fval) :
  strictly_decreasing r_m ->
  strictly_increasing zIonos_m ->
  (forall r z, In r r_m -> In z zIonos_m -> F.ltb (Fin r) z = true) ->
  StronglySorted (fun x y => F.ltb x y = true) (rev (map Fin (removelast r_m)) ++ zIonos_m).
Proof.
  intros Hdec Hion Habove. apply StronglySorted_app. split; [|split].
  - intros x1 x2 H1 H2. apply list_elem_of_In in H1, H2.
    apply in_rev, in_map_iff in H1. destruct H1 as (r & <- & Hr).
    apply Habove; [|exact H2].
    apply In_nth_error in Hr. destruct Hr as [i Hi].
    eapply nth_error_In, removelast_nth, Hi.
  - apply rev_decreasing_sorted. intros i j x y Hij Hi Hj.
    apply (Hdec i j); [exact Hij | now apply removelast_nth | now apply removelast_nth].
  - apply StronglySorted_nth. exact Hion.
Qed.

(** *** The liquid layers *)




Lemma last_item_ok {A : Type} (xs : list A) : xs <> [] -> exists x, last_item xs = Ok x.
Proof.
  intros Hne. unfold last_item. destruct (rev xs) as [|y ys] eqn:Hrev; [|now exists y].
  apply (f_equal (@rev A)) in Hrev. rewrite rev_involutive in Hrev. contradiction.
Qed.

Lemma item_ok {A : Type} (xs : list A) (i : nat) :
  (i < length xs)%nat -> exists x, item xs i = Ok x /\ nth_error xs i = Some x.
Proof.
  intros Hi. unfold item. destruct (nth_error xs i) as [x|] eqn:Hx; [now exists x |].
  apply nth_error_None in Hx. lia.
Qed.

Lemma item_inv {A : Type} (xs : list A) (i : nat) (x : A) :
  item xs i = Ok x -> nth_error xs i = Some x.
Proof. unfold item. destruct (nth_error xs i); [now intros [= ->] | discriminate]. Qed.

(** *** The resampled ocean radii *)





Section OceanReduction.
Variable sigmaDef_Sm : Q.
Variable interp1d : list fval -> list fval -> string -> fval -> list fval -> list fval.
Hypothesis interp1d_length : forall x y kind fill xNew,
  length (interp1d x y kind fill xNew) = length xNew.

#[local] Abbreviation flt := (fun x y : fval => F.ltb x y = true).

End OceanReduction.

Lemma floor_conductivity_length (sigmaDef_Sm sigmaMin_Sm : Q) (sigma : list fval) :
  length (floor_conductivity sigmaDef_Sm sigmaMin_Sm sigma) = length sigma.
Proof. unfold floor_conductivity. now rewrite !length_map. Qed.


Section LayerReducer.
Variables (sigmaDef_Sm sigmaMin_Sm : Q).
Variable interp1d : list fval -> list fval -> string -> fval -> list fval -> list fval.
Variables (phase : list Z) (r_m : list Q) (sigma_Sm : list fval).
Variables (ionosBounds sigmaIonosPedersen : option (list fval)).
Variables (R_m zb_km D_km : Q) (NO_H2O REDUCED_INDUCT : bool) (nIntL : Z).
Variable oceanInterpMethod : string.

(** The interpolator returns one value per requested radius. *)
Hypothesis interp1d_length : forall x y kind fill xNew,
  length (interp1d x y kind fill xNew) = length xNew.
Hypothesis profile_valid :
  valid_profile phase r_m sigma_Sm ionosBounds sigmaIonosPedersen
                R_m zb_km D_km NO_H2O REDUCED_INDUCT nIntL.

End LayerReducer.



(** ** The frozen-ocean check *)

Lemma frozen_ocean_check_frozen (phase : list Z) (inductOtype : string)
    (DO_INDUCTOGRAM REDUCED_INDUCT NO_H2O VALID : bool) (invalidReason : option string) :
  liquid_indices phase = [] -> inductOtype <> "sigma"%string ->
  frozen_ocean_check phase inductOtype DO_INDUCTOGRAM REDUCED_INDUCT NO_H2O
                     VALID invalidReason
  = if DO_INDUCTOGRAM
    then (false, Some "Ocean completely frozen in inductogram"%string)
    else (VALID, invalidReason).
Proof.
  intros Hliq Hmode. unfold frozen_ocean_check. rewrite Hliq. cbn [length Nat.eqb andb].
  destruct (String.eqb_spec inductOtype "sigma") as [He|_]; [contradiction |].
  cbn [negb]. destruct DO_INDUCTOGRAM; [reflexivity |].
  destruct (REDUCED_INDUCT && negb NO_H2O); reflexivity.
Qed.

Section SetupFlow.
Variable S : Type.
Variables (reduce_block scaling_block : S -> result S).
Variable shape_block : option Z -> S -> result (option Z * S).
Variable xid_block : option Z -> S -> result S.
Variables (nBds_block no_asym_block : S -> S).
Variable excitation_block : option Z -> S -> result S.
Variable binm_block : S -> result S.
Variable ionos_default_block : S -> S.

#[local] Abbreviation Setup :=
  (SetupInduction S reduce_block scaling_block shape_block xid_block nBds_block
                  no_asym_block excitation_block binm_block ionos_default_block).

(** Whatever the blocks do, the validity flag and its reason after
    [SetupInduction] are those the frozen-ocean check left. *)
Lemma SetupInduction_validity (phase : list Z) (NO_H2O : bool) (inductOtype : string)
    (DO_INDUCTOGRAM REDUCED_INDUCT CALC_CONDUCT CALC_NEW ALLOW_LOW_PMAX : bool)
    (fl fl' : SetupFlags) (s s' : S) :
  Setup phase NO_H2O inductOtype DO_INDUCTOGRAM REDUCED_INDUCT CALC_CONDUCT CALC_NEW
        ALLOW_LOW_PMAX fl s = Ok (fl', s') ->
  (fl_VALID fl', fl_invalidReason fl')
  = frozen_ocean_check phase inductOtype DO_INDUCTOGRAM REDUCED_INDUCT NO_H2O
                       (fl_VALID fl) (fl_invalidReason fl).
Proof.
  unfold SetupInduction. intros H.
  destruct (frozen_ocean_check _ _ _ _ _ _ _) as [VALID reason].
  destruct (CALC_CONDUCT && VALID).
  - destruct (if negb _ then _ else _) as [s1|]; [cbn [rbind] in H | discriminate].
    destruct (if calls_SetAsymShape _ then _ else _) as [ps|];
      [cbn [rbind] in H | discriminate].
    destruct (if negb DO_INDUCTOGRAM then _ else _) as [s3|];
      [cbn [rbind] in H | discriminate].
    destruct (binm_block s3) as [s4|]; [cbn [rbind] in H | discriminate].
    now injection H as <- <-.
  - now injection H as <- <-.
Qed.

(** C8, as the code has it.  With no liquid layer and a run that is not
    in ['sigma'] mode: when an inductogram is being made, [SetupInduction]
    returns with [Planet.Do.VALID] False (and the reason recorded), having
    run none of the conductivity blocks; in every other run, whatever
    [REDUCED_INDUCT] and [NO_H2O] are, it leaves [Planet.Do.VALID] and
    [Planet.invalidReason] as they were. *)
Theorem frozen_ocean_marks_inductogram_only (phase : list Z) (NO_H2O : bool)
    (inductOtype : string)
    (DO_INDUCTOGRAM REDUCED_INDUCT CALC_CONDUCT CALC_NEW ALLOW_LOW_PMAX : bool)
    (fl : SetupFlags) (s : S) :
  liquid_indices phase = [] -> inductOtype <> "sigma"%string ->
  (DO_INDUCTOGRAM = true ->
   Setup phase NO_H2O inductOtype DO_INDUCTOGRAM REDUCED_INDUCT CALC_CONDUCT CALC_NEW
         ALLOW_LOW_PMAX fl s
   = Ok (mkSetupFlags false (Some "Ocean completely frozen in inductogram"%string)
                      (fl_CALC_ASYM fl) (fl_pMax fl),
         ionos_default_block s)) /\
  (DO_INDUCTOGRAM = false ->
   forall fl' s',
     Setup phase NO_H2O inductOtype DO_INDUCTOGRAM REDUCED_INDUCT CALC_CONDUCT CALC_NEW
           ALLOW_LOW_PMAX fl s = Ok (fl', s') ->
     fl_VALID fl' = fl_VALID fl /\ fl_invalidReason fl' = fl_invalidReason fl).
Proof.
  intros Hliq Hmode. split.
  - intros ->. unfold SetupInduction.
    rewrite (frozen_ocean_check_frozen _ _ _ _ _ _ _ Hliq Hmode).
    now rewrite andb_false_r.
  - intros -> fl' s' H. apply SetupInduction_validity in H.
    rewrite (frozen_ocean_check_frozen _ _ _ _ _ _ _ Hliq Hmode) in H.
    now injection H.
Qed.

(** ** The degree cap *)


End SetupFlow.

Lemma frozen_ocean_marks_inductogram_only_witness :
  demo_SetupInduction [1; 50] false "Tb" true false true true false
    (mkSetupFlags true None false None) []
  = Ok (mkSetupFlags false (Some "Ocean completely frozen in inductogram"%string)
                     false None,
        ["ionosphere defaults"%string]).
Proof.
  refine (proj1 (frozen_ocean_marks_inductogram_only (list string) _ _ _ _ _ _ _ _ _
                   [1; 50] false "Tb" true false true true false
                   (mkSetupFlags true None false None) [] _ _) eq_refl).
  - reflexivity.
  - discriminate.
Defined.

(** C8 as stated fails: a body of ice over rock, no inductogram, neither
    reduced induction nor a waterless body; [SetupInduction] runs the
    conductivity blocks and the profile stays valid. *)
Lemma frozen_ocean_counterexample :
  liquid_indices [1; 50] = [] /\
  "Tb"%string <> "sigma"%string /\
  demo_SetupInduction [1; 50] false "Tb" false false true true false
    (mkSetupFlags true None false None) []
  = Ok (mkSetupFlags true None false (Some 0),
        ["reduce"; "scaling"; "no asymmetry"; "GetBexc"; "Binm"]%string).
Proof. split; [reflexivity |]. split; [discriminate | reflexivity]. Qed.



(** ** The cache of coupling coefficients *)

(** The key is the empty string whatever the triple, so once a tensor is
    cached every later fetch returns it. *)
Lemma fetch_Xid_reuses_first (XidT : Type)
    (LoadXid : Z -> Z -> Z -> list Z -> list Z -> XidT)
    (EOSlist : EOSlistT XidT) (nprmMax1 pMax1 nprmMax2 pMax2 : Z) :
  loaded XidT EOSlist !! XidLabel = None ->
  fst (fetch_Xid XidT LoadXid nprmMax2 pMax2
         (snd (fetch_Xid XidT LoadXid nprmMax1 pMax1 EOSlist)))
  = LoadedXid XidT
      (LoadXid nprmMax1 pMax1 (nprmMax1 + pMax1)
               (nLin_of (nprmMax1 + pMax1)) (mLin_of (nprmMax1 + pMax1))).
Proof.
  intros Hfresh. unfold fetch_Xid at 2. rewrite Hfresh. cbn [snd].
  unfold fetch_Xid. cbn [loaded]. rewrite lookup_insert_eq. reflexivity.
Qed.

(** C5 at work.  Starting from an empty cache, a setup with
    [(nprmMax, pMax) = (1, 2)] followed by one with [(1, 4)]: the second
    fetch returns the tensor built for the triple [(1, 2, 3)], not one
    for [(1, 4, 5)], and the cache still holds a single entry whose
    recorded range is ["1x2x3"]. *)
Theorem Xid_cache_key_ignores_triple :
  let first := fetch_Xid (Z * Z * Z) demo_LoadXid 1 2 (mkEOSlist (Z * Z * Z) ∅ ∅) in
  let second := fetch_Xid (Z * Z * Z) demo_LoadXid 1 4 (snd first) in
  fst second = LoadedXid (Z * Z * Z) (1, 2, 3) /\
  fst second <> LoadedXid (Z * Z * Z) (demo_LoadXid 1 4 5 (nLin_of 5) (mLin_of 5)) /\
  size (loaded (Z * Z * Z) (snd second)) = 1%nat /\
  ranges (Z * Z * Z) (snd second) !! XidLabel = Some "1x2x3"%string.
Proof.
  cbv zeta.
  rewrite (fetch_Xid_reuses_first (Z * Z * Z) demo_LoadXid (mkEOSlist (Z * Z * Z) ∅ ∅)
             1 2 1 4 ltac:(apply lookup_empty)).
  split; [reflexivity |]. split; [discriminate |].
  split; vm_compute; reflexivity.
Qed.


(** ** Reloading against another reference radius *)

(** The radius test is one-sided: whenever the stored radius does not
    exceed the current one by more than one part in a million, nothing is
    rescaled and nothing is logged. *)
Lemma reload_without_rescale (np_abs np_angle_deg : Cplx -> Q)
    (reload : MomentsFile) (R_m : Q) (col1 : list Cplx) :
  get_column (saved_Aen reload) 1 = Ok col1 ->
  ((saved_R_km reload * 1000 - R_m) / R_m <= 1 # 1000000)%Q ->
  exists out,
    ReloadMoments np_abs np_angle_deg reload R_m = Ok out /\
    radius_warning out = false /\
    re_Aen out = saved_Aen reload /\
    re_Binm_nT out = saved_Binm_nT reload /\
    re_BinmLin_nT out = saved_BinmLin_nT reload /\
    re_Amp out = map np_abs col1 /\
    re_Bi1xyz_nT out = (saved_Bi1x_nT reload, saved_Bi1y_nT reload, saved_Bi1z_nT reload).
Proof.
  intros Hcol Hle. unfold ReloadMoments. rewrite Hcol. cbn [rbind].
  unfold Qltb. apply Qle_bool_iff in Hle. rewrite Hle. cbn [negb rbind].
  eexists. split; [reflexivity |]. repeat split.
Qed.

(** C3 at work.  A file stored for a radius of 1560 km, reloaded for a
    body of radius 1561 km: the relative mismatch is well above 1e-6, yet
    no warning is logged and the amplitudes and moments come back as
    stored, not multiplied by [(R/R')^(n+2)]. *)
Theorem reload_smaller_stored_radius :
  exists out,
    ReloadMoments Re Im demo_reload (1561000 # 1) = Ok out /\
    radius_warning out = false /\
    re_Aen out = saved_Aen demo_reload /\
    re_Binm_nT out = saved_Binm_nT demo_reload /\
    re_BinmLin_nT out = saved_BinmLin_nT demo_reload /\
    np.getitem (re_Aen out) [0; 1] = Ok (mkC (9 # 10) (1 # 10)) /\
    ~ C.eq (mkC (9 # 10) (1 # 10))
           (C.mul (mkC (9 # 10) (1 # 10))
                  (C.of_real (((1561000 # 1) / (1560 * 1000)) ^ 3)%Q)).
Proof.
  destruct (reload_without_rescale Re Im demo_reload (1561000 # 1)
              [mkC (9 # 10) (1 # 10)] eq_refl)
    as (out & Hrun & Hwarn & HA & HB & HL & _).
  { vm_compute. discriminate. }
  exists out. rewrite Hrun, Hwarn, HA, HB, HL.
  repeat (split; [reflexivity |]).
  intros [Hre _]. vm_compute in Hre. discriminate Hre.
Qed.

(** The same file reloaded for a smaller body (1559 km) is rescaled:
    the degree-1 amplitude is multiplied by [(R/R')^3]. *)
Lemma reload_larger_stored_radius :
  exists out,
    ReloadMoments Re Im demo_reload (1559000 # 1) = Ok out /\
    radius_warning out = true /\
    np.getitem (re_Aen out) [0; 1]
    = Ok (C.mul (mkC (9 # 10) (1 # 10))
                (C.of_real (((1559000 # 1) / (1560 * 1000)) ^ (1 + 2))%Q)).
Proof.
  eexists. split; [vm_compute; reflexivity |]. split; reflexivity.
Qed.

(** ** The degree-0 coefficient of the shape arrays *)

Lemma wrap_index_inv (size : nat) (i : Z) (k : nat) :
  wrap_index size i = Ok k -> 0 <= i -> k = Z.to_nat i /\ (k < size)%nat.
Proof.
  unfold wrap_index. intros H Hi.
  destruct (Z.leb_spec 0 i); [|lia]. cbn [andb] in H.
  destruct (Z.ltb_spec i (Z.of_nat size)).
  - injection H as <-. lia.
  - destruct (Z.ltb_spec i 0); [lia |]. rewrite andb_false_r in H. discriminate.
Qed.

(** [a[i0, 0, 0, 0] = v] touches that entry only. *)
Lemma setitem_origin (A A1 : ndarray Cplx) (i0 : nat) (v : Cplx) :
  np.setitem A [Z.of_nat i0; 0; 0; 0] v = Ok A1 ->
  shape A1 = shape A /\
  data A1 [i0; 0%nat; 0%nat; 0%nat] = v /\
  forall i, i <> i0 ->
    data A1 [i; 0%nat; 0%nat; 0%nat] = data A [i; 0%nat; 0%nat; 0%nat].
Proof.
  unfold np.setitem. intros H.
  destruct (shape A) as [|d0 [|d1 [|d2 [|d3 [|? ?]]]]] eqn:Hsh; try discriminate.
  - cbn [wrap_indices rbind] in H. destruct (wrap_index d0 _); discriminate.
  - cbn [wrap_indices rbind] in H.
    destruct (wrap_index d0 _); [|discriminate]. cbn [rbind] in H.
    destruct (wrap_index d1 _); discriminate.
  - cbn [wrap_indices rbind] in H.
    destruct (wrap_index d0 _); [|discriminate]. cbn [rbind] in H.
    destruct (wrap_index d1 _); [|discriminate]. cbn [rbind] in H.
    destruct (wrap_index d2 _); discriminate.
  - cbn [wrap_indices] in H.
    destruct (wrap_index d0 (Z.of_nat i0)) as [k0|] eqn:H0; [|discriminate].
    cbn [rbind] in H.
    destruct (wrap_index d1 0) as [k1|] eqn:H1; [|discriminate]. cbn [rbind] in H.
    destruct (wrap_index d2 0) as [k2|] eqn:H2; [|discriminate]. cbn [rbind] in H.
    destruct (wrap_index d3 0) as [k3|] eqn:H3; [|discriminate]. cbn [rbind] in H.
    injection H as <-.
    apply wrap_index_inv in H0, H1, H2, H3; try lia.
    destruct H0 as [-> _], H1 as [-> _], H2 as [-> _], H3 as [-> _].
    rewrite Nat2Z.id. cbn [shape data]. split; [reflexivity |]. split.
    + unfold list_nat_eqb. now rewrite bool_decide_eq_true_2.
    + intros i Hi. unfold list_nat_eqb. rewrite bool_decide_eq_false_2; [reflexivity |].
      intros [= Heq]. now apply Hi.
  - cbn [wrap_indices] in H.
    destruct (wrap_index d0 _); [|discriminate]. cbn [rbind] in H.
    destruct (wrap_index d1 _); [|discriminate]. cbn [rbind] in H.
    destruct (wrap_index d2 _); [|discriminate]. cbn [rbind] in H.
    destruct (wrap_index d3 _); discriminate.
Qed.

(** [a[iLayer, :, p, :p+1] = ...] with [p >= 1] leaves every entry of
    degree 0 alone. *)
Lemma set_order_slice_origin (A A' : ndarray Cplx) (iLayer : nat) (p : Z)
    (vals : nat -> nat -> Cplx -> Cplx) :
  set_order_slice A iLayer p vals = Ok A' -> 1 <= p ->
  shape A' = shape A /\
  forall i, data A' [i; 0%nat; 0%nat; 0%nat] = data A [i; 0%nat; 0%nat; 0%nat].
Proof.
  unfold set_order_slice. intros H Hp.
  destruct (shape A) as [|d0 [|d1 [|d2 [|d3 [|? ?]]]]] eqn:Hsh; try discriminate.
  destruct (iLayer <? d0)%nat; [|discriminate].
  destruct (wrap_index d2 p) as [j|] eqn:Hj; [|discriminate]. cbn [rbind] in H.
  destruct (Z.to_nat (p + 1) <=? d3)%nat; [|discriminate].
  injection H as <-. cbn [shape data np.update_where]. split; [exact Hsh |].
  intros i. apply wrap_index_inv in Hj; [|lia]. destruct Hj as [-> _].
  destruct (Nat.eqb_spec 0 (Z.to_nat p)); [lia |].
  now rewrite andb_false_r.
Qed.

Section ConcentricLoops.
Variables (rSigChange : list Q) (chipq : Z -> nat -> nat -> Cplx).

#[local] Abbreviation layer_body p :=
  (fun (ir : nat * Q) (A : ndarray Cplx) =>
     r <~ item rSigChange (fst ir) ;;
     A1 <~ np.setitem A [Z.of_nat (fst ir); 0; 0; 0] (C.of_real r) ;;
     set_order_slice A1 (fst ir) p
       (fun s q _ => C.mul (chipq p s q) (C.of_real (snd ir)))).

Lemma concentric_layers_origin (p : Z) (irs : list (nat * Q)) (A A' : ndarray Cplx) :
  for_each irs (layer_body p) A = Ok A' -> 1 <= p ->
  shape A' = shape A /\
  (forall i r, In i (map fst irs) -> nth_error rSigChange i = Some r ->
     data A' [i; 0%nat; 0%nat; 0%nat] = C.of_real r) /\
  (forall i, ~ In i (map fst irs) ->
     data A' [i; 0%nat; 0%nat; 0%nat] = data A [i; 0%nat; 0%nat; 0%nat]).
Proof.
  intros Hrun Hp. revert A Hrun.
  induction irs as [|[i0 s0] irs IH]; intros A Hrun.
  - simpl in Hrun. injection Hrun as <-. repeat split; intros; contradiction.
  - cbn [for_each fst snd] in Hrun.
    destruct (item rSigChange i0) as [r0|] eqn:Hr0; [|discriminate]. cbn [rbind] in Hrun.
    destruct (np.setitem A [Z.of_nat i0; 0; 0; 0] (C.of_real r0)) as [A1|] eqn:HA1;
      [|discriminate]. cbn [rbind] in Hrun.
    destruct (set_order_slice A1 i0 p _) as [A2|] eqn:HA2; [|discriminate].
    cbn [rbind] in Hrun.
    destruct (setitem_origin _ _ _ _ HA1) as (Hsh1 & Hset & Hother).
    destruct (set_order_slice_origin _ _ _ _ _ HA2 Hp) as (Hsh2 & Hsame).
    destruct (IH A2 Hrun) as (Hsh & Hin & Hout).
    split; [congruence |]. split.
    + intros i r Hi Hr. cbn [map fst] in Hi.
      destruct (in_dec Nat.eq_dec i (map fst irs)) as [Hrest | Hrest];
        [now apply Hin |].
      destruct Hi as [<- | Hi]; [|contradiction].
      rewrite (Hout _ Hrest), Hsame, Hset.
      apply item_inv in Hr0. congruence.
    + intros i Hi. cbn [map fst] in Hi.
      rewrite Hout by (intros H; apply Hi; now right).
      rewrite Hsame. apply Hother. intros ->. apply Hi. now left.
Qed.

Lemma concentric_degrees_origin (ps : list Z) (irs : list (nat * Q)) (A0 A : ndarray Cplx) :
  for_each ps (fun p => for_each irs (layer_body p)) A0 = Ok A ->
  ps <> [] -> (forall p, In p ps -> 1 <= p) ->
  forall i r, In i (map fst irs) -> nth_error rSigChange i = Some r ->
    data A [i; 0%nat; 0%nat; 0%nat] = C.of_real r.
Proof.
  revert A0. induction ps as [|p ps IH]; intros A0 Hrun Hne Hps; [contradiction |].
  cbn [for_each] in Hrun.
  destruct (for_each irs (layer_body p) A0) as [A1|] eqn:HA1; [|discriminate].
  cbn [rbind] in Hrun.
  destruct ps as [|p' ps'].
  - simpl in Hrun. injection Hrun as <-.
    apply (concentric_layers_origin p irs A0 A1 HA1). apply Hps. now left.
  - apply (IH A1 Hrun); [discriminate | intros q Hq; apply Hps; now right].
Qed.
End ConcentricLoops.

Lemma combine_seq_fst {A : Type} (l : list A) (a : nat) :
  map fst (combine (seq a (length l)) l) = seq a (length l).
Proof.
  revert a. induction l as [|x l IH]; intros a; simpl; [reflexivity |]. now rewrite IH.
Qed.

Section BoundaryLoops.
Variable GeodesyNorm2chipq : Z -> list Q -> list Q -> nat -> nat -> Cplx.
Variables (R_m : Q) (rSigChange : list Q).

Lemma file_degrees_origin (f : ShapeFile) (iLayer : nat) (rAsym r : Q) (ps : list Z)
    (acc acc' : ndarray Cplx * list Q * list Z) :
  for_each ps
    (fun p acc =>
       let '(A, zMean, iBds) := acc in
       let chipq_m := chipq_of_file GeodesyNorm2chipq f p in
       A' <~ set_order_slice A iLayer p
               (fun s q old =>
                  C.add old (C.div (C.mul (chipq_m s q) (C.of_real rAsym)) (C.of_real r))) ;;
       a000 <~ np.getitem A' [Z.of_nat iLayer; 0; 0; 0] ;;
       Ok (A', zMean ++ [((R_m - Re a000) / 1000)%Q], iBds ++ [Z.of_nat iLayer]))
    acc = Ok acc' ->
  (forall p, In p ps -> 1 <= p) ->
  shape (fst (fst acc')) = shape (fst (fst acc)) /\
  forall i, data (fst (fst acc')) [i; 0%nat; 0%nat; 0%nat]
            = data (fst (fst acc)) [i; 0%nat; 0%nat; 0%nat].
Proof.
  revert acc. induction ps as [|p ps IH]; intros [[A zM] iB] Hrun Hps.
  - simpl in Hrun. injection Hrun as <-. split; reflexivity.
  - cbn [for_each] in Hrun.
    destruct (set_order_slice A iLayer p _) as [A1|] eqn:HA1; [|discriminate].
    cbn [rbind] in Hrun.
    destruct (np.getitem A1 _) as [a000|]; [|discriminate]. cbn [rbind] in Hrun.
    destruct (set_order_slice_origin _ _ _ _ _ HA1 (Hps p (or_introl eq_refl)))
      as (Hsh1 & Hsame1).
    destruct (IH _ Hrun) as (Hsh & Hsame); [intros q Hq; apply Hps; now right |].
    cbn [fst] in *. split; [congruence |]. intros i. now rewrite Hsame, Hsame1.
Qed.

(** One file sets the degree-0 entry of its nearest boundary only. *)
Lemma add_file_shape_origin (pMax : Z) (f : ShapeFile)
    (acc acc' : ndarray Cplx * list Q * list Z) :
  add_file_shape GeodesyNorm2chipq R_m rSigChange pMax f acc = Ok acc' ->
  exists iLayer r,
    nearest_boundary R_m rSigChange f = Ok iLayer /\
    nth_error rSigChange iLayer = Some r /\
    shape (fst (fst acc')) = shape (fst (fst acc)) /\
    data (fst (fst acc')) [iLayer; 0%nat; 0%nat; 0%nat] = C.of_real r /\
    forall i, i <> iLayer ->
      data (fst (fst acc')) [i; 0%nat; 0%nat; 0%nat]
      = data (fst (fst acc)) [i; 0%nat; 0%nat; 0%nat].
Proof.
  unfold add_file_shape, nearest_boundary. intros H.
  destruct (max_item (nonzero_degrees f)) as [pTop|]; [cbn [rbind] in H | discriminate].
  destruct (check_first_row f); [cbn [rbind] in H | discriminate].
  destruct (item (file_Cpq_km f) 0) as [C0|]; [cbn [rbind] in H |- * | discriminate].
  destruct (argmin _) as [iLayer|]; [cbn [rbind] in H | discriminate].
  destruct (item rSigChange iLayer) as [r|] eqn:Hr; [cbn [rbind] in H | discriminate].
  destruct acc as [[A zM] iB].
  destruct (np.setitem A _ _) as [A1|] eqn:HA1; [cbn [rbind] in H | discriminate].
  destruct (setitem_origin _ _ _ _ HA1) as (Hsh1 & Hset & Hother).
  apply item_inv in Hr. exists iLayer, r.
  destruct (file_degrees_origin _ _ _ _ _ _ _ H) as (Hsh & Hsame).
  { intros p Hp. apply range_In in Hp. lia. }
  cbn [fst] in *.
  split; [reflexivity |]. split; [assumption |]. split; [congruence |].
  split; [now rewrite Hsame |]. intros i Hi. rewrite Hsame. now apply Hother.
Qed.

Lemma per_boundary_files_origin (pMax : Z) (files : list ShapeFile)
    (acc acc' : ndarray Cplx * list Q * list Z) :
  for_each files (add_file_shape GeodesyNorm2chipq R_m rSigChange pMax) acc = Ok acc' ->
  shape (fst (fst acc')) = shape (fst (fst acc)) /\
  (forall f i r, In f files -> nearest_boundary R_m rSigChange f = Ok i ->
     nth_error rSigChange i = Some r ->
     data (fst (fst acc')) [i; 0%nat; 0%nat; 0%nat] = C.of_real r) /\
  (forall i, (forall f, In f files -> nearest_boundary R_m rSigChange f <> Ok i) ->
     data (fst (fst acc')) [i; 0%nat; 0%nat; 0%nat]
     = data (fst (fst acc)) [i; 0%nat; 0%nat; 0%nat]).
Proof.
  revert acc. induction files as [|f files IH]; intros acc Hrun.
  - simpl in Hrun. injection Hrun as <-. repeat split; intros; contradiction.
  - cbn [for_each] in Hrun.
    destruct (add_file_shape _ _ _ _ f acc) as [acc1|] eqn:Hadd; [|discriminate].
    cbn [rbind] in Hrun.
    destruct (add_file_shape_origin _ _ _ _ Hadd) as (i0 & r0 & Hnear & Hr0 & Hsh0 & Hset & Hother).
    destruct (IH acc1 Hrun) as (Hsh & Hin & Hout).
    split; [congruence |]. split.
    + intros g i r Hg Hi Hr.
      assert (Hdec : (exists g', In g' files /\ nearest_boundary R_m rSigChange g' = Ok i)
                     \/ forall g', In g' files -> nearest_boundary R_m rSigChange g' <> Ok i).
      { clear. induction files as [|h hs IHh]; [right; intros ? []|].
        destruct (nearest_boundary R_m rSigChange h) as [j|e] eqn:Hh.
        - destruct (Nat.eq_dec j i) as [->|Hne].
          + left. exists h. split; [now left | exact Hh].
          + destruct IHh as [(g' & Hg' & Hn) | Hnone].
            * left. exists g'. split; [now right | exact Hn].
            * right. intros g' [<- | Hg']; [rewrite Hh; congruence | now apply Hnone].
        - destruct IHh as [(g' & Hg' & Hn) | Hnone].
          + left. exists g'. split; [now right | exact Hn].
          + right. intros g' [<- | Hg']; [rewrite Hh; discriminate | now apply Hnone]. }
      destruct Hdec as [(g' & Hg' & Hn) | Hnone]; [now apply (Hin g' i r) |].
      destruct Hg as [<- | Hg]; [|exfalso; now apply (Hnone g Hg)].
      rewrite (Hout i Hnone).
      assert (i = i0) as -> by congruence.
      rewrite Hset. congruence.
    + intros i Hnone.
      rewrite Hout by (intros g Hg; apply Hnone; now right).
      apply Hother. intros ->. apply (Hnone f); [now left | exact Hnear].
Qed.

(** The gravity loop writes degree 2 only. *)
Lemma gravity_layers_origin (g_chipq : nat -> nat -> Cplx) (irs : list (nat * Q))
    (G G' : ndarray Cplx) :
  for_each irs
    (fun ir a =>
       set_order_slice a (fst ir) 2
         (fun s q _ => C.mul (g_chipq s q) (C.of_real (snd ir)))) G = Ok G' ->
  shape G' = shape G /\
  forall i, data G' [i; 0%nat; 0%nat; 0%nat] = data G [i; 0%nat; 0%nat; 0%nat].
Proof.
  revert G. induction irs as [|ir irs IH]; intros G Hrun.
  - simpl in Hrun. injection Hrun as <-. split; reflexivity.
  - cbn [for_each] in Hrun.
    destruct (set_order_slice G (fst ir) 2 _) as [G1|] eqn:HG1; [|discriminate].
    cbn [rbind] in Hrun.
    destruct (set_order_slice_origin _ _ _ _ _ HG1 ltac:(lia)) as (Hsh1 & Hsame1).
    destruct (IH G1 Hrun) as (Hsh & Hsame).
    split; [congruence |]. intros i. now rewrite Hsame, Hsame1.
Qed.
End BoundaryLoops.

Section ShapeArrays.
Variable XidT : Type.
Variable GeodesyNorm2chipq : Z -> list Q -> list Q -> nat -> nat -> Cplx.
Variable normFactor_4pi : Z -> Z -> Q.
Variable FilesMatchingPattern : string -> list string.
Variable loadtxt : string -> ShapeFile.
Variable path_join : string -> string -> string.
Variable np_unique_Q : list Q -> list Q.
Variable np_unique_Z : list Z -> list Z.
Variables (R_m Cmeasured : Q) (rSigChange : list Q) (nBds : Z).

Lemma shape_zeros_data (n pMax : Z) (A : ndarray Cplx) (k : list nat) :
  shape_zeros n pMax = Ok A -> data A k = C.zero.
Proof.
  unfold shape_zeros. destruct ((n <? 0) || (pMax + 1 <? 0)); [discriminate |].
  now intros [= <-].
Qed.

Lemma SetGravShape_origin (st st' : ShapeState) :
  SetGravShape GeodesyNorm2chipq normFactor_4pi R_m Cmeasured rSigChange st = Ok st' ->
  sh_asymShape_m st' = sh_asymShape_m st /\ sh_pMax st' = sh_pMax st /\
  forall i, data (sh_gravShape_m st') [i; 0%nat; 0%nat; 0%nat]
            = data (sh_gravShape_m st) [i; 0%nat; 0%nat; 0%nat].
Proof.
  unfold SetGravShape. intros H.
  destruct (collect _ _) as [H2c|]; [cbn [rbind] in H | discriminate].
  destruct (collect _ _) as [H2s|]; [cbn [rbind] in H | discriminate].
  destruct (for_each _ _ _) as [grav|] eqn:Hgrav; [cbn [rbind] in H | discriminate].
  destruct (argmin _) as [iNear|]; [cbn [rbind] in H | discriminate].
  injection H as <-. cbn [sh_asymShape_m sh_pMax sh_gravShape_m].
  split; [reflexivity |]. split; [reflexivity |].
  apply (gravity_layers_origin _ _ _ _ Hgrav).
Qed.

Lemma finish_shapes_origin (SKIP_ASYM : bool) (st1 st' : ShapeState) :
  finish_shapes GeodesyNorm2chipq normFactor_4pi np_unique_Q np_unique_Z
                R_m Cmeasured rSigChange nBds SKIP_ASYM st1 = Ok st' ->
  (forall i, data (sh_gravShape_m st') [i; 0%nat; 0%nat; 0%nat] = C.zero) /\
  (SKIP_ASYM = true ->
   forall i, data (sh_asymShape_m st') [i; 0%nat; 0%nat; 0%nat] = C.zero) /\
  (SKIP_ASYM = false ->
   sh_asymShape_m st' = sh_asymShape_m st1 /\ sh_pMax st' = sh_pMax st1).
Proof.
  unfold finish_shapes. intros H.
  assert (Htail : forall st2,
            match sh_pMax st2 with
            | None => Raise ValueError
            | Some pMax =>
                let '(pLin, qLin) :=
                  match sh_pLin st2 with
                  | None => (Some (nLin_of pMax), Some (mLin_of pMax))
                  | Some pl => (Some pl, sh_qLin st2)
                  end in
                let st3 :=
                  mkShapeState (Some pMax) pLin qLin (sh_asymShape_m st2)
                    (np.zeros_like C.zero (sh_asymShape_m st2))
                    (sh_zMeanAsym_km st2) (sh_iAsymBds st2) (sh_gravity st2) in
                if 2 <=? pMax
                then SetGravShape GeodesyNorm2chipq normFactor_4pi R_m Cmeasured
                                  rSigChange st3
                else Ok st3
            end = Ok st' ->
            sh_asymShape_m st' = sh_asymShape_m st2 /\ sh_pMax st' = sh_pMax st2 /\
            forall i, data (sh_gravShape_m st') [i; 0%nat; 0%nat; 0%nat] = C.zero).
  { intros st2 Ht. destruct (sh_pMax st2) as [pMax|] eqn:HpMax; [|discriminate].
    destruct (sh_pLin st2); cbv zeta in Ht; cbn beta iota in Ht;
      (destruct (2 <=? pMax);
       [apply SetGravShape_origin in Ht; cbn [sh_asymShape_m sh_pMax sh_gravShape_m] in Ht;
        destruct Ht as (Ha & Hp & Hg); repeat split; try assumption;
        intros i; now rewrite Hg
       | injection Ht as <-; repeat split]). }
  destruct SKIP_ASYM.
  - destruct (shape_zeros nBds 2) as [A|] eqn:HA; [|discriminate].
    destruct (Htail (mkShapeState (Some 2) (sh_pLin st1) (sh_qLin st1) A
                       (sh_gravShape_m st1) (sh_zMeanAsym_km st1) (sh_iAsymBds st1)
                       (sh_gravity st1)) H) as (Ha & Hp & Hg).
    cbn [sh_asymShape_m sh_pMax] in Ha, Hp.
    split; [exact Hg |]. split; [|discriminate].
    intros _ i. rewrite Ha. apply (shape_zeros_data _ _ _ _ HA).
  - destruct (Htail (mkShapeState (sh_pMax st1) (sh_pLin st1) (sh_qLin st1)
                       (sh_asymShape_m st1) (sh_gravShape_m st1)
                       (np_unique_Q (sh_zMeanAsym_km st1))
                       (np_unique_Z (sh_iAsymBds st1)) (sh_gravity st1)) H)
      as (Ha & Hp & Hg).
    cbn [sh_asymShape_m sh_pMax] in Ha, Hp.
    split; [exact Hg |]. split; [discriminate |]. intros _. split; assumption.
Qed.

Lemma concentric_shape_origin (f : ShapeFile) (st st1 : ShapeState) :
  concentric_shape GeodesyNorm2chipq f R_m rSigChange nBds st = Ok st1 ->
  exists pMax,
    sh_pMax st1 = Some pMax /\
    (1 <= pMax ->
     forall i r, nth_error rSigChange i = Some r ->
       data (sh_asymShape_m st1) [i; 0%nat; 0%nat; 0%nat] = C.of_real r).
Proof.
  unfold concentric_shape. intros H.
  destruct (check_first_row f); [cbn [rbind] in H | discriminate].
  destruct (item (file_Cpq_km f) 0) as [C0|]; [cbn [rbind] in H | discriminate].
  destruct (max_item (file_pLin f)) as [pTop|]; [cbn [rbind] in H | discriminate].
  destruct (shape_zeros nBds _) as [A0|]; [cbn [rbind] in H | discriminate].
  destruct (for_each _ _ A0) as [A|] eqn:Hloop; [cbn [rbind] in H | discriminate].
  destruct (argmin _) as [iNear|]; [cbn [rbind] in H | discriminate].
  injection H as <-. cbn [sh_pMax sh_asymShape_m].
  eexists. split; [reflexivity |]. intros Hp i r Hr.
  apply (concentric_degrees_origin rSigChange (chipq_of_file GeodesyNorm2chipq f)
           _ _ _ _ Hloop).
  - intros He. assert (Hin : In 1 (range 1 (limit_pMax (sh_pMax st) pTop + 1)))
      by (apply range_In; lia).
    rewrite He in Hin. contradiction.
  - intros p Hin. apply range_In in Hin. lia.
  - rewrite combine_seq_fst, length_map. apply in_seq.
    assert (i < length rSigChange)%nat by (apply nth_error_Some; congruence). lia.
  - exact Hr.
Qed.
Lemma per_boundary_shape_origin (shapeFiles : list string) (st : ShapeState)
    (EOSlist : EOSlistT XidT) (se : ShapeState * EOSlistT XidT) :
  per_boundary_shape XidT GeodesyNorm2chipq loadtxt shapeFiles R_m rSigChange nBds st EOSlist
  = Ok se ->
  exists files E1,
    load_shapes XidT loadtxt shapeFiles EOSlist = Ok (files, E1) /\
    forall i,
      (forall f r, In f files -> nearest_boundary R_m rSigChange f = Ok i ->
         nth_error rSigChange i = Some r ->
         data (sh_asymShape_m (fst se)) [i; 0%nat; 0%nat; 0%nat] = C.of_real r) /\
      ((forall f, In f files -> nearest_boundary R_m rSigChange f <> Ok i) ->
       data (sh_asymShape_m (fst se)) [i; 0%nat; 0%nat; 0%nat] = C.zero).
Proof.
  unfold per_boundary_shape. intros H.
  destruct (load_shapes XidT loadtxt shapeFiles EOSlist) as [[files E1]|];
    [cbn [rbind] in H | discriminate].
  destruct (collect _ files) as [pMaxEntries|]; [cbn [rbind] in H | discriminate].
  destruct (if (0 <? length pMaxEntries)%nat then _ else _) as [ps|];
    [cbn [rbind] in H | discriminate].
  destruct (shape_zeros nBds _) as [A0|] eqn:HA0; [cbn [rbind] in H | discriminate].
  destruct (for_each files _ _) as [[[A zM] iB]|] eqn:Hloop;
    [cbn [rbind] in H | discriminate].
  injection H as <-. cbn [fst sh_asymShape_m].
  exists files, E1. split; [reflexivity |]. intros i.
  destruct (per_boundary_files_origin _ _ _ _ _ _ _ Hloop) as (_ & Hin & Hout).
  cbn [fst] in Hin, Hout. split.
  - intros f r. apply Hin.
  - intros Hnone. rewrite (Hout i Hnone). apply (shape_zeros_data _ _ _ _ HA0).
Qed.

(** C9, as the code has it.  Whenever [SetAsymShape] returns: the
    gravity-derived shape array holds 0 at degree 0, order 0 of every
    boundary; the asymmetric shape array holds the boundary's radius
    [rSigChange_m[layer]] there for every boundary in concentric mode when
    the shape file is found and the degree cap is at least 1, and in
    per-boundary mode for the boundaries nearest to a shape file, the
    other boundaries holding 0; in the gravity-only fallback it holds 0
    at every boundary. *)
Theorem shape_degree_zero_coefficients
    (name bodyname asymFstring inductPath : string) (CONCENTRIC_ASYM : bool)
    (st st' : ShapeState) (EOSlist EOSlist' : EOSlistT XidT) :
  SetAsymShape XidT GeodesyNorm2chipq normFactor_4pi FilesMatchingPattern loadtxt
    path_join np_unique_Q np_unique_Z name bodyname R_m Cmeasured rSigChange nBds st
    asymFstring inductPath CONCENTRIC_ASYM EOSlist = Ok (st', EOSlist') ->
  let shapeFiles :=
    find_shape_files FilesMatchingPattern path_join name bodyname asymFstring inductPath in
  let fName := concentric_file path_join name asymFstring inductPath in
  (forall i, data (sh_gravShape_m st') [i; 0%nat; 0%nat; 0%nat] = C.zero) /\
  (CONCENTRIC_ASYM = true -> In fName shapeFiles ->
   forall pMax, sh_pMax st' = Some pMax -> 1 <= pMax ->
   forall i r, nth_error rSigChange i = Some r ->
     data (sh_asymShape_m st') [i; 0%nat; 0%nat; 0%nat] = C.of_real r) /\
  (CONCENTRIC_ASYM = false -> shapeFiles <> [] ->
   forall files E1, load_shapes XidT loadtxt shapeFiles EOSlist = Ok (files, E1) ->
   forall i,
     (forall f r, In f files -> nearest_boundary R_m rSigChange f = Ok i ->
        nth_error rSigChange i = Some r ->
        data (sh_asymShape_m st') [i; 0%nat; 0%nat; 0%nat] = C.of_real r) /\
     ((forall f, In f files -> nearest_boundary R_m rSigChange f <> Ok i) ->
      data (sh_asymShape_m st') [i; 0%nat; 0%nat; 0%nat] = C.zero)) /\
  ((shapeFiles = [] \/ (CONCENTRIC_ASYM = true /\ ~ In fName shapeFiles)) ->
   forall i, data (sh_asymShape_m st') [i; 0%nat; 0%nat; 0%nat] = C.zero).
Proof.
  intros H shapeFiles fName. unfold SetAsymShape in H.
  fold shapeFiles fName in H. cbv zeta in H.
  assert (Hskip0 : shapeFiles <> [] -> (length shapeFiles =? 0)%nat = false)
    by (destruct shapeFiles; [contradiction | reflexivity]).
  destruct CONCENTRIC_ASYM.
  - destruct (bool_decide (fName ∈ shapeFiles)) eqn:Hmem.
    + apply bool_decide_eq_true_1, list_elem_of_In in Hmem.
      assert (Hne : shapeFiles <> []) by (intros He; rewrite He in Hmem; contradiction).
      destruct (load_shape XidT loadtxt fName EOSlist) as [fe|];
        [cbn [rbind] in H | discriminate].
      destruct (concentric_shape _ _ _ _ _ _) as [st1|] eqn:Hc;
        [cbn [rbind] in H | discriminate].
      rewrite (Hskip0 Hne) in H.
      destruct (finish_shapes _ _ _ _ _ _ _ _ _ _) as [st4|] eqn:Hf;
        [cbn [rbind] in H | discriminate].
      injection H as <- <-.
      destruct (finish_shapes_origin _ _ _ Hf) as (Hg & _ & Hkeep).
      destruct (Hkeep eq_refl) as [Ha Hp].
      destruct (concentric_shape_origin _ _ _ Hc) as (pMaxc & HpMaxc & Horigin).
      split; [exact Hg |]. split; [|split].
      * intros _ _ pMax HpMax Hp1 i r Hr. rewrite Ha. apply Horigin; [|exact Hr].
        assert (pMax = pMaxc) as -> by congruence. exact Hp1.
      * discriminate.
      * intros [He | [_ Hnot]]; [contradiction | contradiction].
    + apply bool_decide_eq_false_1 in Hmem. rewrite list_elem_of_In in Hmem.
      cbn [rbind] in H.
      destruct (finish_shapes _ _ _ _ _ _ _ _ _ _) as [st4|] eqn:Hf;
        [cbn [rbind] in H | discriminate].
      injection H as <- <-.
      destruct (finish_shapes_origin _ _ _ Hf) as (Hg & Hzero & _).
      split; [exact Hg |]. split; [|split].
      * intros _ Hin. contradiction.
      * discriminate.
      * intros _. apply Hzero. reflexivity.
  - destruct (per_boundary_shape _ _ _ _ _ _ _ _ _) as [se|] eqn:Hpb;
      [cbn [rbind] in H | discriminate].
    destruct (finish_shapes _ _ _ _ _ _ _ _ _ _) as [st4|] eqn:Hf;
      [cbn [rbind] in H | discriminate].
    injection H as <- <-.
    destruct (finish_shapes_origin _ _ _ Hf) as (Hg & Hzero & Hkeep).
    split; [exact Hg |]. split; [discriminate |]. split.
    + intros _ Hne files E1 Hload i.
      destruct (Hkeep (Hskip0 Hne)) as [Ha _]. rewrite Ha.
      destruct (per_boundary_shape_origin _ _ _ _ Hpb) as (files' & E1' & Hload' & Hi).
      rewrite Hload in Hload'. injection Hload' as <- <-. apply Hi.
    + intros [He | [Hc _]]; [|discriminate].
      apply Hzero. now rewrite He.
Qed.

End ShapeArrays.

Lemma run_returns (run : result (ShapeState * EOSlistT unit)) :
  is_ok run = true -> run = Ok (shape_of_run run, cache_of_run run).
Proof. destruct run as [[st EOSlist]|e]; [reflexivity | discriminate]. Qed.

Lemma demo_shape_run_concentric :
  demo_shape_run demo_glob true
  = Ok (shape_of_run (demo_shape_run demo_glob true),
        cache_of_run (demo_shape_run demo_glob true)).
Proof. apply run_returns. vm_compute. reflexivity. Qed.

Lemma shape_degree_zero_coefficients_witness :
  data (sh_gravShape_m (shape_of_run (demo_shape_run demo_glob true)))
       [0; 0; 0; 0]%nat = C.zero /\
  data (sh_asymShape_m (shape_of_run (demo_shape_run demo_glob true)))
       [0; 0; 0; 0]%nat = C.of_real (1500000 # 1).
Proof.
  destruct (shape_degree_zero_coefficients unit demo_chipq demo_norm4pi demo_glob
              demo_loadtxt demo_path_join (fun l => l) (fun l => l)
              (1560000 # 1) (346 # 1000) demo_rSigChange 2
              "Europa" "Europa" "Shape_4piNormDepth" "Europa/inductionData" true
              demo_shape0 (shape_of_run (demo_shape_run demo_glob true))
              (mkEOSlist unit ∅ ∅) (cache_of_run (demo_shape_run demo_glob true))
              demo_shape_run_concentric) as (Hgrav & Hconc & _ & _).
  split; [apply Hgrav |].
  apply (Hconc eq_refl) with (pMax := 2).
  - vm_compute. left. reflexivity.
  - vm_compute. reflexivity.
  - lia.
  - reflexivity.
Defined.

(** C9 as stated fails.  In the concentric run above the gravity-derived
    array, built and filled for degree 2, holds 0 at degree 0 of the
    first boundary, whose radius is 1500 km; and without any shape file
    the asymmetric array holds 0 there as well. *)
Lemma shape_degree_zero_counterexample :
  nth_error demo_rSigChange 0 = Some (1500000 # 1)%Q /\
  sh_pMax (shape_of_run (demo_shape_run demo_glob true)) = Some 2 /\
  data (sh_gravShape_m (shape_of_run (demo_shape_run demo_glob true)))
       [0; 0; 0; 0]%nat = C.zero /\
  data (sh_asymShape_m (shape_of_run (demo_shape_run demo_no_files false)))
       [0; 0; 0; 0]%nat = C.zero /\
  ~ C.eq C.zero (C.of_real (1500000 # 1)).
Proof.
  split; [reflexivity |]. split; [vm_compute; reflexivity |].
  split; [vm_compute; reflexivity |]. split; [vm_compute; reflexivity |].
  intros [H _]. vm_compute in H. discriminate H.
Qed.

(* ================================================================== *)
(** * Further properties of the code *)

(** ** [ReloadMoments]: what the rescaling branch does *)

Lemma wrap_index_cases (size : nat) (i : Z) :
  (exists k, wrap_index size i = Ok k /\ (k < size)%nat /\
             (0 <= i -> k = Z.to_nat i)) \/
  (wrap_index size i = Raise IndexError /\ (Z.of_nat size <= i \/ i < - Z.of_nat size)).
Proof.
  unfold wrap_index.
  destruct (Z.leb_spec 0 i), (Z.ltb_spec i (Z.of_nat size)); cbn [andb].
  - left. exists (Z.to_nat i). split; [reflexivity |]. split; [lia | reflexivity].
  - destruct (Z.ltb_spec i 0); [lia |]. rewrite andb_false_r. right. split; [reflexivity | lia].
  - destruct (Z.leb_spec (- Z.of_nat size) i), (Z.ltb_spec i 0); cbn [andb]; try lia.
    + left. eexists. split; [reflexivity |]. split; lia.
    + right. split; [reflexivity | lia].
  - lia.
Qed.

Lemma max_item_bound (xs : list Z) (top x : Z) :
  max_item xs = Ok top -> In x xs -> x <= top.
Proof.
  destruct xs as [|y rest]; [discriminate |]. cbn [max_item]. intros [= <-].
  assert (Hfold : forall l a, a <= fold_left Z.max l a /\
                    forall z, In z l -> z <= fold_left Z.max l a).
  { induction l as [|b l IH]; intros a; cbn [fold_left].
    - split; [lia | contradiction].
    - destruct (IH (Z.max a b)) as [H1 H2]. split; [lia |].
      intros z [<- | Hz]; [lia | now apply H2]. }
  destruct (Hfold rest y) as [H1 H2].
  intros [<- | Hx]; [exact H1 | now apply H2].
Qed.

Lemma NoDup_range (lo hi : Z) : List.NoDup (range lo hi).
Proof.
  unfold range. generalize (Z.to_nat (hi - lo)) as n, 0%nat as a.
  induction n as [|n IH]; intros a; cbn [seq map]; constructor; [|apply IH].
  rewrite in_map_iff. intros (i & Hi & Hin). apply in_seq in Hin. lia.
Qed.

Section RescaleLoop.
Variables (R_m Rre_m : Q) (nLin : list Z).
Variables (d0 d1 b0 b1 b2 b3 l0 : nat).

#[local] Abbreviation factor n := (C.of_real ((R_m / Rre_m) ^ (n + 2))%Q).

(** The loop over the degrees, for arrays of the shapes that
    [CalcInducedMoments] saves: it ends without an exception and every
    degree of the list is multiplied once by its own factor. *)
Lemma rescale_loop_spec (ns : list Z) (A B L : ndarray Cplx) :
  List.NoDup ns ->
  (forall n, In n ns -> 0 <= n < Z.of_nat d1 /\ n < Z.of_nat b2) ->
  shape A = [d0; d1] -> shape B = [b0; b1; b2; b3] -> shape L = [l0; length nLin] ->
  exists A' B' L',
    for_each ns (rescale_degree R_m Rre_m nLin) (A, B, L) = Ok (A', B', L') /\
    shape A' = [d0; d1] /\ shape B' = [b0; b1; b2; b3] /\ shape L' = [l0; length nLin] /\
    (forall i n, In n ns ->
       data A' [i; Z.to_nat n] = C.mul (data A [i; Z.to_nat n]) (factor n)) /\
    (forall i c, ~ In (Z.of_nat c) ns -> data A' [i; c] = data A [i; c]) /\
    (forall i s n q, In n ns ->
       data B' [i; s; Z.to_nat n; q] = C.mul (data B [i; s; Z.to_nat n; q]) (factor n)) /\
    (forall i s c q, ~ In (Z.of_nat c) ns -> data B' [i; s; c; q] = data B [i; s; c; q]) /\
    (forall i j n, nth_error nLin j = Some n -> In n ns ->
       data L' [i; j] = C.mul (data L [i; j]) (factor n)) /\
    (forall i j n, nth_error nLin j = Some n -> ~ In n ns -> data L' [i; j] = data L [i; j]).
Proof.
  revert A B L. induction ns as [|n ns IH]; intros A B L Hnd Hns HA HB HL.
  - exists A, B, L. cbn [for_each].
    repeat (split; [first [reflexivity | assumption | (intros; contradiction)] |]).
    reflexivity.
  - apply List.NoDup_cons_iff in Hnd. destruct Hnd as [Hn Hnd].
    destruct (Hns n (or_introl eq_refl)) as [Hn1 Hn2].
    cbn [for_each]. unfold rescale_degree at 1, scale_column, scale_degree, scale_masked.
    rewrite HA, HB, HL, !wrap_index_nonneg by lia. cbn [rbind].
    rewrite Nat.eqb_refl. cbn [rbind].
    match goal with
    | |- context [for_each ns _ (?a, ?b, ?l)] =>
        destruct (IH a b l Hnd) as
          (A' & B' & L' & Hrun & HA' & HB' & HL' & HAin & HAout & HBin & HBout & HLin & HLout);
          [intros n' Hn'; apply Hns; now right | exact HA | exact HB | exact HL |]
    end.
    exists A', B', L'. split; [exact Hrun |].
    split; [exact HA' |]. split; [exact HB' |]. split; [exact HL' |].
    cbn [np.update_where data] in *.
    split; [|split; [|split; [|split; [|split]]]].
    + intros i n' [<- | Hin].
      * rewrite HAout by (rewrite Z2Nat.id by lia; exact Hn).
        now rewrite Nat.eqb_refl.
      * rewrite (HAin i n' Hin).
        destruct (Nat.eqb_spec (Z.to_nat n') (Z.to_nat n)) as [He|_]; [|reflexivity].
        exfalso. apply Hn. destruct (Hns n' (or_intror Hin)) as [Hn' _].
        replace n with n' by lia. exact Hin.
    + intros i c Hc. rewrite HAout by (intros Hin; apply Hc; now right).
      destruct (Nat.eqb_spec c (Z.to_nat n)) as [->|_]; [|reflexivity].
      exfalso. apply Hc. left. lia.
    + intros i s n' q [<- | Hin].
      * rewrite HBout by (rewrite Z2Nat.id by lia; exact Hn).
        now rewrite Nat.eqb_refl.
      * rewrite (HBin i s n' q Hin).
        destruct (Nat.eqb_spec (Z.to_nat n') (Z.to_nat n)) as [He|_]; [|reflexivity].
        exfalso. apply Hn. destruct (Hns n' (or_intror Hin)) as [Hn' _].
        replace n with n' by lia. exact Hin.
    + intros i s c q Hc. rewrite HBout by (intros Hin; apply Hc; now right).
      destruct (Nat.eqb_spec c (Z.to_nat n)) as [->|_]; [|reflexivity].
      exfalso. apply Hc. left. lia.
    + intros i j n' Hj [<- | Hin].
      * rewrite (HLout i j n Hj Hn).
        rewrite (nth_error_nth _ _ 0 Hj), Z.eqb_refl. reflexivity.
      * rewrite (HLin i j n' Hj Hin).
        rewrite (nth_error_nth _ _ 0 Hj).
        destruct (Z.eqb_spec n' n) as [->|_]; [contradiction | reflexivity].
    + intros i j n' Hj Hout.
      rewrite (HLout i j n' Hj) by (intros Hin; apply Hout; now right).
      rewrite (nth_error_nth _ _ 0 Hj).
      destruct (Z.eqb_spec n' n) as [->|_]; [|reflexivity].
      exfalso. apply Hout. now left.
Qed.

(** Every exception of one turn of the loop is an [IndexError], and a
    turn that ends leaves the shape of [Aen] as it was. *)
Lemma rescale_degree_cases (n : Z) (A B L : ndarray Cplx) :
  rescale_degree R_m Rre_m nLin n (A, B, L) = Raise IndexError \/
  exists A' B' L',
    rescale_degree R_m Rre_m nLin n (A, B, L) = Ok (A', B', L') /\ shape A' = shape A.
Proof.
  unfold rescale_degree, scale_column, scale_degree, scale_masked.
  destruct (shape A) as [|a0 [|a1 [|? ?]]] eqn:HA; try (left; reflexivity).
  destruct (wrap_index_cases a1 n) as [(c & -> & _) | [-> _]]; [|left; reflexivity].
  cbn [rbind].
  destruct (shape B) as [|e0 [|e1 [|e2 [|e3 [|? ?]]]]]; try (left; reflexivity).
  destruct (wrap_index_cases e2 n) as [(c' & -> & _) | [-> _]]; [|left; reflexivity].
  cbn [rbind].
  destruct (shape L) as [|f0 [|f1 [|? ?]]]; try (left; reflexivity).
  destruct (length nLin =? f1)%nat; [|left; reflexivity].
  cbn [rbind]. right. eexists _, _, _. split; [reflexivity | exact HA].
Qed.

Lemma rescale_loop_out_of_range (ns : list Z) (n0 : Z) (A B L : ndarray Cplx) :
  In n0 ns -> Z.of_nat d1 <= n0 -> shape A = [d0; d1] ->
  for_each ns (rescale_degree R_m Rre_m nLin) (A, B, L) = Raise IndexError.
Proof.
  revert A B L. induction ns as [|n ns IH]; intros A B L Hin Hn0 HA; [contradiction |].
  cbn [for_each].
  destruct (Z.eq_dec n n0) as [->|Hne].
  - unfold rescale_degree, scale_column. rewrite HA.
    destruct (wrap_index_cases d1 n0) as [(c & _ & Hc & Hc') | [-> _]]; [|reflexivity].
    specialize (Hc' ltac:(lia)). lia.
  - destruct Hin as [->|Hin]; [contradiction |].
    destruct (rescale_degree_cases n A B L) as [-> | (A' & B' & L' & -> & HA')];
      [reflexivity |].
    cbn [rbind]. apply IH; [exact Hin | exact Hn0 | congruence].
Qed.
End RescaleLoop.

(** X1.  [ReloadMoments] for a file whose stored radius exceeds the
    current one by more than one part in a million, with arrays of the
    shapes [CalcInducedMoments] saves and amplitudes for every degree of
    [nLin]: it returns with the warning logged; for every degree
    [1 <= n <= max(nLin)] the column [Aen[:, n]], the block
    [Binm_nT[:, :, n, :]] and the entries of [BinmLin_nT] whose degree is [n]
    are the stored ones times [(R_m/Rre_m)^(n+2)]; degree 0 is left as
    stored; [Amp] is the modulus of the stored [Aen[:, 1]] times
    [(R_m/Rre_m)^3]. *)
Theorem reload_rescales_each_degree (np_abs np_angle_deg : Cplx -> Q)
    (reload : MomentsFile) (R_m : Q) (d0 d1 b0 b1 b2 b3 l0 : nat) (nTop : Z) :
  let Rre_m := (saved_R_km reload * 1000)%Q in
  shape (saved_Aen reload) = [d0; d1] ->
  shape (saved_Binm_nT reload) = [b0; b1; b2; b3] ->
  shape (saved_BinmLin_nT reload) = [l0; length (saved_nLin reload)] ->
  max_item (saved_nLin reload) = Ok nTop ->
  1 <= nTop < Z.of_nat d1 -> nTop < Z.of_nat b2 ->
  (1 # 1000000 < (Rre_m - R_m) / R_m)%Q ->
  exists out,
    ReloadMoments np_abs np_angle_deg reload R_m = Ok out /\
    radius_warning out = true /\
    (forall i n, 1 <= n <= nTop ->
       data (re_Aen out) [i; Z.to_nat n]
       = C.mul (data (saved_Aen reload) [i; Z.to_nat n])
               (C.of_real ((R_m / Rre_m) ^ (n + 2))%Q)) /\
    (forall i, data (re_Aen out) [i; 0%nat] = data (saved_Aen reload) [i; 0%nat]) /\
    (forall i s n q, 1 <= n <= nTop ->
       data (re_Binm_nT out) [i; s; Z.to_nat n; q]
       = C.mul (data (saved_Binm_nT reload) [i; s; Z.to_nat n; q])
               (C.of_real ((R_m / Rre_m) ^ (n + 2))%Q)) /\
    (forall i s q, data (re_Binm_nT out) [i; s; 0%nat; q]
                   = data (saved_Binm_nT reload) [i; s; 0%nat; q]) /\
    (forall i j n, nth_error (saved_nLin reload) j = Some n -> 1 <= n ->
       data (re_BinmLin_nT out) [i; j]
       = C.mul (data (saved_BinmLin_nT reload) [i; j])
               (C.of_real ((R_m / Rre_m) ^ (n + 2))%Q)) /\
    re_Amp out
    = map (fun i => (np_abs (data (saved_Aen reload) [i; 1%nat]) * (R_m / Rre_m) ^ 3)%Q)
          (seq 0 d0).
Proof.
  intros Rre_m HA HB HL Htop Hd1 Hb2 Hgap.
  destruct (rescale_loop_spec R_m Rre_m (saved_nLin reload) d0 d1 b0 b1 b2 b3 l0
              (range 1 (nTop + 1)) (saved_Aen reload) (saved_Binm_nT reload)
              (saved_BinmLin_nT reload) (NoDup_range _ _))
    as (A' & B' & L' & Hrun & _ & _ & _ & HAin & HAout & HBin & HBout & HLin & _);
    [intros n Hn; apply range_In in Hn; lia | exact HA | exact HB | exact HL |].
  unfold ReloadMoments, get_column. rewrite HA.
  rewrite wrap_index_nonneg by lia. cbn [rbind].
  assert (Hlt : Qltb (1 # 1000000) ((saved_R_km reload * 1000 - R_m) / R_m) = true).
  { unfold Qltb. apply negb_true_iff. destruct (Qle_bool _ _) eqn:Hle; [|reflexivity].
    apply Qle_bool_iff in Hle. exfalso. apply (Qlt_not_le _ _ Hgap Hle). }
  rewrite Hlt, Htop. cbn [rbind]. fold Rre_m. rewrite Hrun. cbn [rbind].
  eexists. split; [reflexivity |].
  cbn [radius_warning re_Aen re_Binm_nT re_BinmLin_nT re_Amp].
  split; [reflexivity |].
  split; [intros i n Hn; apply HAin, range_In; lia |].
  split; [intros i; apply HAout; rewrite range_In; cbn; lia |].
  split; [intros i s n q Hn; apply HBin, range_In; lia |].
  split; [intros i s q; apply HBout; rewrite range_In; cbn; lia |].
  split.
  - intros i j n Hj Hn. apply (HLin i j n Hj), range_In.
    pose proof (max_item_bound _ _ n Htop (nth_error_In _ _ Hj)). lia.
  - rewrite !map_map. reflexivity.
Qed.

Lemma reload_rescales_each_degree_witness :
  exists out,
    ReloadMoments Re Im demo_reload (1559000 # 1) = Ok out /\
    radius_warning out = true /\
    (forall i n, 1 <= n <= 1 ->
       data (re_Aen out) [i; Z.to_nat n]
       = C.mul (data (saved_Aen demo_reload) [i; Z.to_nat n])
               (C.of_real (((1559000 # 1) / (saved_R_km demo_reload * 1000)) ^ (n + 2))%Q)) /\
    (forall i, data (re_Aen out) [i; 0%nat] = data (saved_Aen demo_reload) [i; 0%nat]) /\
    (forall i s n q, 1 <= n <= 1 ->
       data (re_Binm_nT out) [i; s; Z.to_nat n; q]
       = C.mul (data (saved_Binm_nT demo_reload) [i; s; Z.to_nat n; q])
               (C.of_real (((1559000 # 1) / (saved_R_km demo_reload * 1000)) ^ (n + 2))%Q)) /\
    (forall i s q, data (re_Binm_nT out) [i; s; 0%nat; q]
                   = data (saved_Binm_nT demo_reload) [i; s; 0%nat; q]) /\
    (forall i j n, nth_error (saved_nLin demo_reload) j = Some n -> 1 <= n ->
       data (re_BinmLin_nT out) [i; j]
       = C.mul (data (saved_BinmLin_nT demo_reload) [i; j])
               (C.of_real (((1559000 # 1) / (saved_R_km demo_reload * 1000)) ^ (n + 2))%Q)) /\
    re_Amp out
    = map (fun i => (Re (data (saved_Aen demo_reload) [i; 1%nat])
                     * ((1559000 # 1) / (saved_R_km demo_reload * 1000)) ^ 3)%Q)
          (seq 0 1).
Proof.
  apply (reload_rescales_each_degree Re Im demo_reload (1559000 # 1) 1 2 1 2 2 2 1 1).
  - reflexivity.
  - reflexivity.
  - reflexivity.
  - reflexivity.
  - lia.
  - lia.
  - reflexivity.
Defined.

(** X2.  When the rescaling branch is taken and [nLin] holds a degree
    for which [Aen] has no column (the file of a run with asymmetry:
    [Aen] has [nprmMax+1] columns, [nLin] goes up to [nprmMax+pMax]), the
    statement [Aen[:, n] *= scaling] fails: [ReloadMoments] raises
    [IndexError]. *)
Theorem reload_rescale_beyond_Aen (np_abs np_angle_deg : Cplx -> Q)
    (reload : MomentsFile) (R_m : Q) (d0 d1 : nat) (nTop : Z) :
  shape (saved_Aen reload) = [d0; d1] -> (2 <= d1)%nat ->
  max_item (saved_nLin reload) = Ok nTop -> Z.of_nat d1 <= nTop ->
  (1 # 1000000 < (saved_R_km reload * 1000 - R_m) / R_m)%Q ->
  ReloadMoments np_abs np_angle_deg reload R_m = Raise IndexError.
Proof.
  intros HA Hd1 Htop Hbeyond Hgap.
  unfold ReloadMoments, get_column. rewrite HA.
  rewrite wrap_index_nonneg by lia. cbn [rbind].
  assert (Hlt : Qltb (1 # 1000000) ((saved_R_km reload * 1000 - R_m) / R_m) = true).
  { unfold Qltb. apply negb_true_iff. destruct (Qle_bool _ _) eqn:Hle; [|reflexivity].
    apply Qle_bool_iff in Hle. exfalso. apply (Qlt_not_le _ _ Hgap Hle). }
  rewrite Hlt, Htop. cbn [rbind].
  rewrite (rescale_loop_out_of_range R_m (saved_R_km reload * 1000) (saved_nLin reload)
             d0 d1 (range 1 (nTop + 1)) nTop); [reflexivity | | exact Hbeyond | exact HA].
  apply range_In. lia.
Qed.

Lemma reload_rescale_beyond_Aen_witness :
  ReloadMoments Re Im demo_reload_asym (1559000 # 1) = Raise IndexError.
Proof.
  apply (reload_rescale_beyond_Aen Re Im demo_reload_asym (1559000 # 1) 1 2 2).
  - reflexivity.
  - lia.
  - reflexivity.
  - lia.
  - reflexivity.
Defined.

(** ** [CalcInducedMoments]: the linear lists and the amplitudes *)

Lemma collect_length {X A : Type} (f : X -> result A) (xs : list X) (l : list A) :
  collect f xs = Ok l -> length l = length xs.
Proof.
  revert l. induction xs as [|x xs IH]; intros l; cbn [collect].
  - now intros [= <-].
  - destruct (f x) as [a|]; [|discriminate]. cbn [rbind].
    destruct (collect f xs) as [rest|]; [|discriminate]. cbn [rbind].
    intros [= <-]. cbn [length]. now rewrite (IH rest eq_refl).
Qed.

Lemma collect_nth_inv {X A : Type} (f : X -> result A) (xs : list X) (l : list A)
    (i : nat) (a : A) :
  collect f xs = Ok l -> nth_error l i = Some a ->
  exists x, nth_error xs i = Some x /\ f x = Ok a.
Proof.
  intros Hc Ha.
  assert (Hi : (i < length xs)%nat).
  { rewrite <- (collect_length f xs l Hc). apply nth_error_Some. congruence. }
  destruct (nth_error xs i) as [x|] eqn:Hx; [|apply nth_error_None in Hx; lia].
  destruct (collect_nth f xs l i x Hc Hx) as (a' & Hfa & Ha').
  exists x. split; [reflexivity |]. congruence.
Qed.

Lemma nth_error_combine_Some {A B : Type} (l1 : list A) (l2 : list B) (i : nat) (a : A) (b : B) :
  nth_error l1 i = Some a -> nth_error l2 i = Some b ->
  nth_error (combine l1 l2) i = Some (a, b).
Proof.
  revert l2 i. induction l1 as [|x l1 IH]; intros [|y l2] [|i]; cbn; try discriminate.
  - now intros [= ->] [= ->].
  - apply IH.
Qed.

Lemma set_column_inv {A : Type} (a a' : ndarray A) (j : Z) (vals : list A) :
  set_column a j vals = Ok a' ->
  exists d0 d1 c,
    shape a = [d0; d1] /\ wrap_index d1 j = Ok c /\ shape a' = [d0; d1] /\
    forall i c', c' <> c -> data a' [i; c'] = data a [i; c'].
Proof.
  unfold set_column.
  destruct (shape a) as [|d0 [|d1 [|? ?]]] eqn:Hsh; try discriminate.
  destruct (wrap_index d1 j) as [c|] eqn:Hc; [|discriminate]. cbn [rbind].
  destruct (length vals =? d0)%nat; [|discriminate].
  intros [= <-]. exists d0, d1, c. cbn [np.update_where shape data].
  repeat split; try assumption.
  intros i c' Hc'. destruct (Nat.eqb_spec c' c); [contradiction | reflexivity].
Qed.

Section MomentsResult.
Variable mu0 : Q.
Variables (np_sqrt : Cplx -> Cplx) (np_abs np_angle_deg : Cplx -> Q) (np_degrees : Q -> Q).
Variable ODEsolve :
  (Q -> Cplx -> result Cplx) -> Q * Q -> Cplx -> string -> result Cplx.
Variable AeList :
  list Q -> list Q -> list Q -> Q -> Z -> bool -> list Cplx * list Q * list Q.
Variable XidT : Type.
Variable BiAsym :
  list Q -> list Q -> list Q -> ndarray Cplx -> ndarray Cplx -> ndarray Cplx ->
  Q -> list Z -> list Z -> Z -> Z -> bool -> XidT -> ndarray Cplx.

Variables (nprmMax pMax nExc : Z) (inductMethod : string).
Variables (sigmaLayers_Sm rSigChange_m omegaExc_radps : list Q).
Variables (Benm Binm0 asymShape_m gravShape_m : ndarray Cplx) (Xid : XidT).
Variable R_m : Q.
Variables (CALC_ASYM DO_PARALLEL INDUCTOGRAM_IN_PROGRESS DO_EXPLOREOGRAM : bool).
Variables (EckhardtSolveMethod : string) (rMinODE : Q).

#[local] Abbreviation run :=
  (CalcInducedMoments mu0 np_sqrt np_abs np_angle_deg np_degrees ODEsolve AeList XidT BiAsym
     nprmMax pMax nExc inductMethod sigmaLayers_Sm rSigChange_m omegaExc_radps
     Benm Binm0 asymShape_m gravShape_m Xid R_m
     CALC_ASYM DO_PARALLEL INDUCTOGRAM_IN_PROGRESS DO_EXPLOREOGRAM
     EckhardtSolveMethod rMinODE).

(** X3.  Whatever the method, the moments [CalcInducedMoments] returns
    come with their linear form: [nLin]/[mLin] list the degrees and orders
    up to [nMax = nprmMax + pMax], [BinmLin_nT] has one row per excitation
    and one entry per pair, and the entry of degree [n] and order [m], at
    index [n*n + n + m - 1], is [Binm_nT[iPeak, int(m<0), n, m]]. *)
Theorem linear_moments_follow_the_lists (M : Moments) :
  run = Ok M ->
  nLin M = nLin_of (nprmMax + pMax) /\ mLin M = mLin_of (nprmMax + pMax) /\
  length (BinmLin_nT M) = Z.to_nat nExc /\
  forall (iPeak : nat) row,
    nth_error (BinmLin_nT M) iPeak = Some row ->
    length row = length (nLin M) /\
    forall n m,
      1 <= n <= nprmMax + pMax -> - n <= m <= n ->
      exists v,
        nth_error row (Z.to_nat (n * n + n + m - 1)) = Some v /\
        np.getitem (Binm_nT M) [Z.of_nat iPeak; int_of_bool (m <? 0); n; m] = Ok v.
Proof.
  unfold CalcInducedMoments. intros H.
  match type of H with
  | (rbind ?r _ = _) => destruct r as [[[[A Am] ph] Bi]|]; [|discriminate]
  end.
  cbn [rbind] in H.
  match type of H with
  | (rbind ?r _ = _) => destruct r as [L|] eqn:HL; [|discriminate]
  end.
  cbn [rbind] in H. injection H as <-. cbn [nLin mLin BinmLin_nT Binm_nT].
  split; [reflexivity |]. split; [reflexivity |].
  split; [rewrite (collect_length _ _ _ HL), range_length; f_equal; lia |].
  intros iPeak row Hrow.
  destruct (collect_nth_inv _ _ _ _ _ HL Hrow) as (i & Hi & Hcol).
  assert (HiP : i = Z.of_nat iPeak).
  { assert (Hlt : (iPeak < length (range 0 nExc))%nat) by (apply nth_error_Some; congruence).
    rewrite range_length in Hlt. rewrite range_nth in Hi by exact Hlt.
    injection Hi as <-. lia. }
  subst i.
  split.
  - rewrite (collect_length _ _ _ Hcol), length_combine.
    destruct (Z.le_gt_cases 0 (nprmMax + pMax)) as [Hpos|Hneg].
    + replace (nprmMax + pMax) with (Z.of_nat (Z.to_nat (nprmMax + pMax))) by lia.
      rewrite nLin_of_length, mLin_of_length. lia.
    + assert (Hemp : range 1 (nprmMax + pMax + 1) = [])
        by (unfold range; replace (Z.to_nat (nprmMax + pMax + 1 - 1)) with 0%nat by lia;
            reflexivity).
      unfold nLin_of, mLin_of. rewrite Hemp. reflexivity.
  - intros n m Hn Hm.
    assert (Hk : nth_error (combine (nLin_of (nprmMax + pMax)) (mLin_of (nprmMax + pMax)))
                   (Z.to_nat (n * n + n + m - 1)) = Some (n, m)).
    { replace (nprmMax + pMax) with (Z.of_nat (Z.to_nat (nprmMax + pMax))) by lia.
      destruct (lin_lookup (Z.to_nat (nprmMax + pMax)) n m) as [H1 H2]; [lia | lia |].
      now apply nth_error_combine_Some. }
    destruct (collect_nth _ _ _ _ _ Hcol Hk) as (v & Hv & Hnth).
    exists v. split; [exact Hnth | exact Hv].
Qed.

(** The amplitudes of the higher degrees: the loop touches no column at
    or beyond its upper end. *)
Lemma higher_degrees_columns (ns : list Z) (top : Z) (d0 d1 : nat) (A A' : ndarray Cplx) :
  (forall n, In n ns -> 0 <= n < top) ->
  shape A = [d0; d1] ->
  for_each ns
    (fun n A =>
       let '(Ae_n, _, _) :=
         AeList rSigChange_m sigmaLayers_Sm omegaExc_radps (1 / R_m)%Q n
                (do_parallel_inner DO_PARALLEL INDUCTOGRAM_IN_PROGRESS DO_EXPLOREOGRAM) in
       set_column A n Ae_n) A = Ok A' ->
  shape A' = [d0; d1] /\
  forall i c, top <= Z.of_nat c -> data A' [i; c] = data A [i; c].
Proof.
  revert A. induction ns as [|n ns IH]; intros A Hns HA; cbn [for_each].
  - intros [= <-]. split; [exact HA | reflexivity].
  - destruct (AeList rSigChange_m sigmaLayers_Sm omegaExc_radps (1 / R_m)%Q n _)
      as [[Ae_n ?] ?].
    destruct (set_column A n Ae_n) as [A1|] eqn:H1; [|discriminate]. cbn [rbind].
    intros Hrun.
    destruct (set_column_inv _ _ _ _ H1) as (e0 & e1 & c & Hsh & Hc & Hsh1 & Hout).
    rewrite HA in Hsh. injection Hsh as <- <-.
    destruct (Hns n (or_introl eq_refl)) as [Hn0 Hn1].
    apply wrap_index_inv in Hc; [|exact Hn0]. destruct Hc as [-> _].
    destruct (IH A1 (fun n' Hn' => Hns n' (or_intror Hn')) Hsh1 Hrun) as [HA' Hkeep].
    split; [exact HA' |]. intros i c Hc. rewrite (Hkeep i c Hc). apply Hout. lia.
Qed.

(** X4.  The layer method computes the complex response for degree 1 and
    then for the degrees of [range(2, nprmMax)], which stops short of
    [nprmMax]: whenever [nprmMax >= 2] and the call returns, the column
    [Aen[:, nprmMax]] still holds the zeros it was initialised with. *)
Theorem layer_top_degree_left_zero (M : Moments) (iPeak : Z) :
  inductMethod = "Srivastava1966"%string \/ inductMethod = "layer"%string ->
  2 <= nprmMax -> 0 <= iPeak < nExc ->
  run = Ok M ->
  np.getitem (Aen M) [iPeak; nprmMax] = Ok C.zero.
Proof.
  intros Hmethod Hn Hi. unfold CalcInducedMoments.
  assert (Hnum : String.eqb inductMethod "Eckhardt1963" || String.eqb inductMethod "numeric"
                 = false) by (destruct Hmethod as [-> | ->]; reflexivity).
  assert (Hlay : String.eqb inductMethod "Srivastava1966" || String.eqb inductMethod "layer"
                 = true) by (destruct Hmethod as [-> | ->]; reflexivity).
  rewrite Hnum, Hlay.
  destruct (AeList rSigChange_m sigmaLayers_Sm omegaExc_radps (1 / R_m)%Q 1 _)
    as [[Ae1 Amp1] AeArg].
  destruct (set_column _ 1 Ae1) as [A1|] eqn:H1; [|discriminate]. cbn [rbind].
  destruct (for_each (range 2 nprmMax) _ A1) as [A|] eqn:HA; [|discriminate]. cbn [rbind].
  match goal with
  | |- (rbind (rbind ?r _) _ = _) -> _ => destruct r as [Bi|]; [|discriminate]
  end.
  cbn [rbind].
  match goal with
  | |- (rbind ?r _ = _) -> _ => destruct r as [L|]; [|discriminate]
  end.
  cbn [rbind]. intros [= <-]. cbn [Aen].
  destruct (set_column_inv _ _ _ _ H1) as (e0 & e1 & c & Hsh & Hc & Hsh1 & Hout).
  cbn [np.zeros shape] in Hsh. injection Hsh as <- <-.
  apply wrap_index_inv in Hc; [|lia]. destruct Hc as [-> _].
  destruct (higher_degrees_columns (range 2 nprmMax) nprmMax (Z.to_nat nExc)
              (Z.to_nat (nprmMax + 1)) A1 A) as [HshA Hkeep];
    [intros n' Hn'; apply range_In in Hn'; lia | exact Hsh1 | exact HA |].
  unfold np.getitem. rewrite HshA. cbn [wrap_indices].
  rewrite !wrap_index_nonneg by lia. cbn [rbind]. f_equal.
  rewrite Hkeep by lia. rewrite Hout by lia. reflexivity.
Qed.

(** X5.  The numeric method ignores asymmetry: with [inductMethod] set to
    ['Eckhardt1963'] or ['numeric'] the result does not depend on
    [Params.CALC_ASYM], on the shape arrays or on the coupling
    coefficients. *)
Theorem numeric_method_ignores_asymmetry
    (CALC_ASYM' : bool) (asymShape_m' gravShape_m' : ndarray Cplx) (Xid' : XidT) :
  inductMethod = "Eckhardt1963"%string \/ inductMethod = "numeric"%string ->
  run
  = CalcInducedMoments mu0 np_sqrt np_abs np_angle_deg np_degrees ODEsolve AeList XidT BiAsym
      nprmMax pMax nExc inductMethod sigmaLayers_Sm rSigChange_m omegaExc_radps
      Benm Binm0 asymShape_m' gravShape_m' Xid' R_m
      CALC_ASYM' DO_PARALLEL INDUCTOGRAM_IN_PROGRESS DO_EXPLOREOGRAM
      EckhardtSolveMethod rMinODE.
Proof.
  intros Hmethod. unfold CalcInducedMoments.
  assert (Hnum : String.eqb inductMethod "Eckhardt1963" || String.eqb inductMethod "numeric"
                 = true) by (destruct Hmethod as [-> | ->]; reflexivity).
  rewrite Hnum. reflexivity.
Qed.
End MomentsResult.

Lemma ok_value_eq {A : Type} (default : A) (r : result A) :
  is_ok r = true -> r = Ok (ok_value default r).
Proof. destruct r; [reflexivity | discriminate]. Qed.

Lemma linear_moments_follow_the_lists_witness :
  let M := ok_value no_moments (demo_moments_run "layer" 2 demo_Benm2) in
  nLin M = nLin_of (2 + 0) /\ mLin M = mLin_of (2 + 0) /\
  length (BinmLin_nT M) = Z.to_nat 1 /\
  forall (iPeak : nat) row,
    nth_error (BinmLin_nT M) iPeak = Some row ->
    length row = length (nLin M) /\
    forall n m,
      1 <= n <= 2 + 0 -> - n <= m <= n ->
      exists v,
        nth_error row (Z.to_nat (n * n + n + m - 1)) = Some v /\
        np.getitem (Binm_nT M) [Z.of_nat iPeak; int_of_bool (m <? 0); n; m] = Ok v.
Proof.
  apply (linear_moments_follow_the_lists (1 # 1000000) (fun z => z) Re Im (fun x => x)
           (fun _ _ y0 _ => Ok y0) demo_AeList unit
           (fun _ _ _ _ _ B _ _ _ _ _ _ _ => B)
           2 0 1 "layer" [1 # 100]%Q [1560000 # 1]%Q [1 # 10000]%Q
           demo_Benm2 (np.zeros_like C.zero demo_Benm2) demo_Benm2 demo_Benm2 tt
           (1560000 # 1) false false false false "RK45" (1000 # 1)).
  apply (ok_value_eq no_moments (demo_moments_run "layer" 2 demo_Benm2)).
  vm_compute. reflexivity.
Defined.

Lemma layer_top_degree_left_zero_witness :
  np.getitem (Aen (ok_value no_moments (demo_moments_run "layer" 2 demo_Benm2))) [0; 2]
  = Ok C.zero.
Proof.
  apply (layer_top_degree_left_zero (1 # 1000000) (fun z => z) Re Im (fun x => x)
           (fun _ _ y0 _ => Ok y0) demo_AeList unit
           (fun _ _ _ _ _ B _ _ _ _ _ _ _ => B)
           2 0 1 "layer" [1 # 100]%Q [1560000 # 1]%Q [1 # 10000]%Q
           demo_Benm2 (np.zeros_like C.zero demo_Benm2) demo_Benm2 demo_Benm2 tt
           (1560000 # 1) false false false false "RK45" (1000 # 1)).
  - right. reflexivity.
  - lia.
  - lia.
  - apply (ok_value_eq no_moments (demo_moments_run "layer" 2 demo_Benm2)).
    vm_compute. reflexivity.
Defined.

Lemma numeric_method_ignores_asymmetry_witness :
  demo_moments_run "numeric" 1 demo_Benm
  = CalcInducedMoments (1 # 1000000) (fun z => z) Re Im (fun x => x)
      (fun _ _ y0 _ => Ok y0) demo_AeList unit
      (fun _ _ _ _ _ B _ _ _ _ _ _ _ => B)
      1 0 1 "numeric" [1 # 100]%Q [1560000 # 1]%Q [1 # 10000]%Q
      demo_Benm (np.zeros_like C.zero demo_Benm) demo_Benm2 demo_Benm2 tt (1560000 # 1)
      true false false false "RK45" (1000 # 1).
Proof.
  apply (numeric_method_ignores_asymmetry (1 # 1000000) (fun z => z) Re Im (fun x => x)
           (fun _ _ y0 _ => Ok y0) demo_AeList unit
           (fun _ _ _ _ _ B _ _ _ _ _ _ _ => B)
           1 0 1 "numeric" [1 # 100]%Q [1560000 # 1]%Q [1 # 10000]%Q
           demo_Benm (np.zeros_like C.zero demo_Benm) demo_Benm demo_Benm tt (1560000 # 1)
           false false false false "RK45" (1000 # 1) true demo_Benm2 demo_Benm2 tt).
  right. reflexivity.
Defined.

(** ** The layer block of [SetupInduction]: further properties *)

(** X6.  After the two masked assignments that replace NaN, zero and
    too-small conductivities, no conductivity is NaN: each one is either
    [sigmaDef_Sm] or the value it had, which is then nonzero and at least
    [sigmaMin_Sm]; and a value that is nonzero and at least [sigmaMin_Sm]
    is kept as it is. *)
Theorem floored_conductivities (sigmaDef_Sm sigmaMin_Sm : Q) (sigma : list fval) (i : nat) (s : fval) :
  nth_error (floor_conductivity sigmaDef_Sm sigmaMin_Sm sigma) i = Some s ->
  exists s0, nth_error sigma i = Some s0 /\
    (s = Fin sigmaDef_Sm \/
     exists q, s0 = Fin q /\ s = Fin q /\ ~ (q == 0)%Q /\ (sigmaMin_Sm <= q)%Q) /\
    (forall q, s0 = Fin q -> ~ (q == 0)%Q -> (sigmaMin_Sm <= q)%Q -> s = Fin q).
Proof.
  unfold floor_conductivity. rewrite !nth_error_map.
  destruct (nth_error sigma i) as [s0|]; [|discriminate]. cbn [option_map].
  intros [= <-]. exists s0. split; [reflexivity |].
  destruct s0 as [q|]; cbn [F.isnan F.eqb orb].
  - destruct (Qeq_bool q 0) eqn:Hz.
    + apply Qeq_bool_iff in Hz. split.
      * left. now destruct (F.ltb (Fin sigmaDef_Sm) (Fin sigmaMin_Sm)).
      * intros q' [= <-] Hnz. contradiction.
    + assert (Hnz : ~ (q == 0)%Q) by (intros H; apply Qeq_bool_iff in H; congruence).
      destruct (F.ltb (Fin q) (Fin sigmaMin_Sm)) eqn:Hlt.
      * split; [now left |]. intros q' [= <-] _ Hle.
        apply F_ltb_Fin in Hlt. exfalso. apply (Qlt_not_le _ _ Hlt Hle).
      * split; [|now intros q' [= <-]].
        right. exists q. repeat split; [exact Hnz |].
        apply Qnot_lt_le. intros H. apply F_ltb_Fin in H. congruence.
  - split; [|discriminate].
    left. now destruct (F.ltb (Fin sigmaDef_Sm) (Fin sigmaMin_Sm)).
Qed.

Lemma floored_conductivities_witness :
  exists s0, nth_error [Fin 2; NaN; Fin 0] 0 = Some s0 /\
    (Fin 2 = Fin (1 # 100) \/
     exists q, s0 = Fin q /\ Fin 2 = Fin q /\ ~ (q == 0)%Q /\ (1 # 10 <= q)%Q) /\
    (forall q, s0 = Fin q -> ~ (q == 0)%Q -> (1 # 10 <= q)%Q -> Fin 2 = Fin q).
Proof.
  apply (floored_conductivities (1 # 100) (1 # 10) [Fin 2; NaN; Fin 0] 0 (Fin 2)).
  reflexivity.
Defined.

(** *** What the collapse keeps *)

#[local] Abbreviation flt := (fun x y : fval => F.ltb x y = true).

Lemma F_ltb_irrefl (x : fval) : F.ltb x x = false.
Proof.
  destruct x as [a|]; [|reflexivity]. unfold F.ltb, Qltb.
  apply negb_false_iff, Qle_bool_iff, Qle_refl.
Qed.

(** A layer of the uncollapsed lists is represented in the collapsed ones
    by the first boundary kept at or above it, and that boundary carries
    an equal conductivity. *)
Lemma collapse_runs_represents (sigma r : list fval) (i : nat) (s x : fval) :
  length sigma = length r -> StronglySorted flt r ->
  nth_error sigma i = Some s -> nth_error r i = Some x ->
  exists j s' x',
    nth_error (collapse_runs sigma sigma) j = Some s' /\
    nth_error (collapse_runs sigma r) j = Some x' /\
    (s' = s \/ F.eqb s s' = true) /\
    (x' = x \/ F.ltb x x' = true) /\
    forall j' y, (j' < j)%nat -> nth_error (collapse_runs sigma r) j' = Some y ->
                 F.ltb y x = true.
Proof.
  revert r i s x. induction sigma as [|s0 sigma IH]; intros [|x0 r] i s x Hlen Hsort Hs Hx;
    try (destruct i; discriminate); try discriminate.
  cbn [length] in Hlen. apply StronglySorted_inv in Hsort. destruct Hsort as [Hsort Hall].
  rewrite List.Forall_forall in Hall.
  cbn [collapse_runs].
  destruct i as [|i]; cbn [nth_error] in Hs, Hx.
  - injection Hs as <-. injection Hx as <-.
    destruct (F.neb s0 (hd NaN (sigma ++ [NaN]))) eqn:Hne.
    + exists 0%nat, s0, x0. cbn [nth_error].
      repeat split; [now left | now left | intros; lia].
    + destruct sigma as [|s1 sigma]; [destruct s0; discriminate |].
      destruct r as [|x1 r]; [discriminate |].
      cbn [app hd] in Hne. unfold F.neb in Hne. apply negb_false_iff in Hne.
      destruct (IH (x1 :: r) 0%nat s1 x1 ltac:(cbn in *; lia) Hsort eq_refl eq_refl)
        as (j & s' & x' & Hjs & Hjx & Hs' & Hx' & Hfirst).
      exists j, s', x'. split; [exact Hjs |]. split; [exact Hjx |]. split; [|split].
      * right. destruct Hs' as [-> | Hs']; [exact Hne | now apply (F_eqb_trans s0 s1 s')].
      * right. destruct Hx' as [-> | Hx'].
        -- apply Hall. now left.
        -- apply (F_ltb_trans x0 x1 x'); [apply Hall; now left | exact Hx'].
      * intros j' y Hj' Hy. exfalso.
        pose proof (Hfirst j' y Hj' Hy) as Hlt.
        apply nth_error_In, collapse_runs_In in Hy.
        destruct Hy as [<- | Hy]; [now rewrite F_ltb_irrefl in Hlt |].
        apply StronglySorted_inv in Hsort. destruct Hsort as [_ Hall1].
        rewrite List.Forall_forall in Hall1.
        pose proof (F_ltb_trans _ _ _ (Hall1 y Hy) Hlt) as Hc.
        now rewrite F_ltb_irrefl in Hc.
  - destruct (IH r i s x ltac:(lia) Hsort Hs Hx)
      as (j & s' & x' & Hjs & Hjx & Hs' & Hx' & Hfirst).
    destruct (F.neb s0 (hd NaN (sigma ++ [NaN]))).
    + exists (S j), s', x'. cbn [nth_error].
      split; [exact Hjs |]. split; [exact Hjx |]. split; [exact Hs' |]. split; [exact Hx' |].
      intros [|j'] y Hj' Hy; cbn [nth_error] in Hy.
      * injection Hy as <-. apply Hall. eapply nth_error_In, Hx.
      * apply (Hfirst j' y); [lia | exact Hy].
    + exists j, s', x'. repeat split; assumption.
Qed.

(** The outermost layer always survives the collapse. *)
Lemma collapse_runs_last {A : Type} (sigma : list fval) (xs : list A) :
  length sigma = length xs -> last_item (collapse_runs sigma xs) = last_item xs.
Proof.
  revert xs. induction sigma as [|s sigma IH]; intros [|x xs] Hlen; try discriminate;
    [reflexivity |].
  cbn [length] in Hlen. cbn [collapse_runs].
  destruct sigma as [|s1 sigma].
  - destruct xs; [|discriminate]. destruct s; reflexivity.
  - destruct xs as [|x1 xs]; [discriminate |].
    specialize (IH (x1 :: xs) ltac:(cbn in *; lia)).
    assert (Hcons : forall (a : A) l, l <> [] -> last_item (a :: l) = last_item l).
    { intros a l Hl. unfold last_item. cbn [rev].
      destruct (rev l) as [|y ys] eqn:Hrev; [|reflexivity].
      apply (f_equal (@rev A)) in Hrev. rewrite rev_involutive in Hrev. contradiction. }
    rewrite (Hcons x (x1 :: xs)) by discriminate.
    destruct (F.neb s (hd NaN ((s1 :: sigma) ++ [NaN]))); [|exact IH].
    rewrite Hcons; [exact IH |].
    intros Hnil. rewrite Hnil in IH.
    destruct (last_item_ok (x1 :: xs)) as [y Hy]; [discriminate |].
    rewrite Hy in IH. discriminate IH.
Qed.

Section UnsampledLayers.
Variables (sigmaDef_Sm sigmaMin_Sm : Q).
Variable interp1d : list fval -> list fval -> string -> fval -> list fval -> list fval.
Variables (phase : list Z) (r_m : list Q) (sigma_Sm : list fval).
Variables (ionosBounds sigmaIonosPedersen : option (list fval)).
Variables (R_m zb_km D_km : Q) (NO_H2O REDUCED_INDUCT : bool) (nIntL : Z).
Variable oceanInterpMethod : string.

#[local] Abbreviation layers_in :=
  (ascending_layers sigmaDef_Sm sigmaMin_Sm r_m sigma_Sm ionosBounds sigmaIonosPedersen R_m).
#[local] Abbreviation reduced :=
  (reduce_layers sigmaDef_Sm sigmaMin_Sm interp1d phase r_m sigma_Sm
                 ionosBounds sigmaIonosPedersen R_m zb_km D_km NO_H2O
                 REDUCED_INDUCT nIntL oceanInterpMethod).

Hypothesis profile_valid :
  valid_profile phase r_m sigma_Sm ionosBounds sigmaIonosPedersen
                R_m zb_km D_km NO_H2O REDUCED_INDUCT nIntL.
(** The ocean is not resampled. *)
Hypothesis not_resampled :
  negb (length (liquid_indices phase) =? 0)%nat && REDUCED_INDUCT && negb NO_H2O = false.

Lemma unsampled_layers_collapse :
  StronglySorted flt (fst layers_in) /\
  length (snd layers_in) = length (fst layers_in) /\
  reduced
  = Ok (mkLayers (fst (fst (ionosphere ionosBounds sigmaIonosPedersen R_m)))
                 (snd (fst (ionosphere ionosBounds sigmaIonosPedersen R_m)))
                 (collapse_runs (snd layers_in) (snd layers_in))
                 (collapse_runs (snd layers_in) (fst layers_in))).
Proof using profile_valid not_resampled.
  destruct profile_valid as (Hdec & Hsig & Hphase & Hion & Habove & Hionlen & _).
  unfold reduce_layers, ascending_layers. rewrite not_resampled.
  destruct (ionosphere ionosBounds sigmaIonosPedersen R_m)
    as [[bounds sigmas] [zIonos sigmaIonos]] eqn:Hio.
  cbn [fst snd rbind] in *.
  assert (Hlen : length (floor_conductivity sigmaDef_Sm sigmaMin_Sm (rev sigma_Sm ++ sigmaIonos))
                 = length (rev (map Fin (removelast r_m)) ++ zIonos)).
  { rewrite floor_conductivity_length, !length_app, !length_rev, length_map. lia. }
  split; [now apply ascending_layers_sorted |]. split; [exact Hlen |].
  rewrite !pick_change_indices by lia. reflexivity.
Qed.

(** X7.  Collapsing runs of equal conductivity does not change the
    model: when the ocean is not resampled, the layer reduction returns,
    and every layer of the uncollapsed profile (radius [x], floored
    conductivity [s]) is given a conductivity equal to [s] by the reduced
    arrays, whose first boundary at or above [x] is the end of the run
    that layer belongs to. *)
Theorem collapse_preserves_profile :
  exists out,
    reduced = Ok out /\
    forall (i : nat) x s,
      nth_error (fst layers_in) i = Some x -> nth_error (snd layers_in) i = Some s ->
      conductivity_at (rSigChange_m out) (sigmaLayers_Sm out) x s.
Proof using profile_valid not_resampled.
  destruct unsampled_layers_collapse as (Hsort & Hlen & Hrun).
  eexists. split; [exact Hrun |]. cbn [rSigChange_m sigmaLayers_Sm].
  intros i x s Hx Hs. unfold conductivity_at.
  apply (collapse_runs_represents _ _ i s x Hlen Hsort Hs Hx).
Qed.

(** X8.  The outermost boundary is never merged away: when the ocean is
    not resampled, the last entries of the reduced [rSigChange_m] and
    [sigmaLayers_Sm] are the last radius and conductivity of the
    uncollapsed profile; without an ionosphere, that radius is the first
    entry of [Planet.r_m], the surface. *)
Theorem outermost_boundary_kept :
  exists out,
    reduced = Ok out /\
    last_item (rSigChange_m out) = last_item (fst layers_in) /\
    last_item (sigmaLayers_Sm out) = last_item (snd layers_in) /\
    forall rSurf r1 rest,
      r_m = rSurf :: r1 :: rest ->
      ionosBounds = None \/ sigmaIonosPedersen = None ->
      last_item (rSigChange_m out) = Ok (Fin rSurf).
Proof using profile_valid not_resampled.
  destruct unsampled_layers_collapse as (Hsort & Hlen & Hrun).
  eexists. split; [exact Hrun |]. cbn [rSigChange_m sigmaLayers_Sm].
  split; [now apply collapse_runs_last |]. split; [now apply collapse_runs_last |].
  intros rSurf r1 rest Hr Hnone. rewrite collapse_runs_last by exact Hlen.
  unfold ascending_layers.
  assert (Hio : snd (ionosphere ionosBounds sigmaIonosPedersen R_m) = ([], [])).
  { unfold ionosphere. destruct Hnone as [-> | ->]; [reflexivity |].
    now destruct ionosBounds. }
  destruct (ionosphere ionosBounds sigmaIonosPedersen R_m) as [? [zI sI]].
  cbn [snd] in Hio. injection Hio as -> ->. cbn [fst]. rewrite app_nil_r.
  unfold last_item. rewrite rev_involutive, Hr. reflexivity.
Qed.
End UnsampledLayers.

Lemma demo_profile_unsampled :
  valid_profile demo_phase demo_r_m demo_sigma_Sm None None
                (100 # 1) (1 # 100) (4 # 100) false false 2.
Proof.
  unfold valid_profile. cbn [ionosphere all_nan forallb F.isnan orb fst snd app].
  split; [|split; [reflexivity | split; [reflexivity |]]].
  - refine (proj1 (StronglySorted_nth (fun x y => (y < x)%Q) demo_r_m) _).
    unfold demo_r_m. repeat constructor.
  - split; [intros [|i] j x y _ Hi; discriminate |].
    split; [intros r z _ []|]. split; [reflexivity |].
    intros H. discriminate H.
Qed.

Lemma collapse_preserves_profile_witness :
  exists out,
    reduce_layers (1 # 100000000) (1 # 100000000) demo_interp1d demo_phase demo_r_m
                  demo_sigma_Sm None None (100 # 1) (1 # 100) (4 # 100) false
                  false 2 "linear" = Ok out /\
    forall (i : nat) x s,
      nth_error (fst (ascending_layers (1 # 100000000) (1 # 100000000) demo_r_m
                        demo_sigma_Sm None None (100 # 1))) i = Some x ->
      nth_error (snd (ascending_layers (1 # 100000000) (1 # 100000000) demo_r_m
                        demo_sigma_Sm None None (100 # 1))) i = Some s ->
      conductivity_at (rSigChange_m out) (sigmaLayers_Sm out) x s.
Proof.
  apply (collapse_preserves_profile (1 # 100000000) (1 # 100000000) demo_interp1d
           demo_phase demo_r_m demo_sigma_Sm None None (100 # 1) (1 # 100) (4 # 100)
           false false 2 "linear").
  - exact demo_profile_unsampled.
  - reflexivity.
Defined.

Lemma outermost_boundary_kept_witness :
  exists out,
    reduce_layers (1 # 100000000) (1 # 100000000) demo_interp1d demo_phase demo_r_m
                  demo_sigma_Sm None None (100 # 1) (1 # 100) (4 # 100) false
                  false 2 "linear" = Ok out /\
    last_item (rSigChange_m out)
    = last_item (fst (ascending_layers (1 # 100000000) (1 # 100000000) demo_r_m
                        demo_sigma_Sm None None (100 # 1))) /\
    last_item (sigmaLayers_Sm out)
    = last_item (snd (ascending_layers (1 # 100000000) (1 # 100000000) demo_r_m
                        demo_sigma_Sm None None (100 # 1))) /\
    forall rSurf r1 rest,
      demo_r_m = rSurf :: r1 :: rest ->
      @None (list fval) = None \/ @None (list fval) = None ->
      last_item (rSigChange_m out) = Ok (Fin rSurf).
Proof.
  apply (outermost_boundary_kept (1 # 100000000) (1 # 100000000) demo_interp1d
           demo_phase demo_r_m demo_sigma_Sm None None (100 # 1) (1 # 100) (4 # 100)
           false false 2 "linear").
  - exact demo_profile_unsampled.
  - reflexivity.
Defined.

(** ** [np.argmin] and the nearest boundary *)

Lemma argmin_from_spec (xs : list Q) (i best : nat) (vbest : Q) :
  (argmin_from i best vbest xs = best /\ forall x, In x xs -> (vbest <= x)%Q) \/
  (exists j v,
      argmin_from i best vbest xs = (i + j)%nat /\ nth_error xs j = Some v /\
      (v < vbest)%Q /\ (forall x, In x xs -> (v <= x)%Q) /\
      forall j' w, (j' < j)%nat -> nth_error xs j' = Some w -> (v < w)%Q).
Proof.
  revert i best vbest. induction xs as [|x xs IH]; intros i best vbest; cbn [argmin_from].
  - left. split; [reflexivity | contradiction].
  - unfold Qltb. destruct (Qle_bool vbest x) eqn:Hle; cbn [negb].
    + apply Qle_bool_iff in Hle.
      destruct (IH (S i) best vbest) as [[Hr Hall] | (j & v & Hr & Hj & Hv & Hall & Hfirst)].
      * left. split; [exact Hr |]. intros y [<- | Hy]; [exact Hle | now apply Hall].
      * right. exists (S j), v. rewrite Nat.add_succ_r.
        split; [exact Hr |]. split; [exact Hj |]. split; [exact Hv |]. split.
        -- intros y [<- | Hy]; [|now apply Hall].
           apply Qlt_le_weak. now apply (Qlt_le_trans _ vbest).
        -- intros [|j'] w Hj' Hw; cbn [nth_error] in Hw.
           ++ injection Hw as <-. now apply (Qlt_le_trans _ vbest).
           ++ apply (Hfirst j' w); [lia | exact Hw].
    + assert (Hlt : (x < vbest)%Q).
      { apply Qnot_le_lt. intros H. apply Qle_bool_iff in H. congruence. }
      destruct (IH (S i) i x) as [[Hr Hall] | (j & v & Hr & Hj & Hv & Hall & Hfirst)].
      * right. exists 0%nat, x. rewrite Nat.add_0_r.
        split; [exact Hr |]. split; [reflexivity |]. split; [exact Hlt |]. split.
        -- intros y [<- | Hy]; [apply Qle_refl | now apply Hall].
        -- intros j' w Hj'. lia.
      * right. exists (S j), v. rewrite Nat.add_succ_r.
        split; [exact Hr |]. split; [exact Hj |].
        split; [now apply (Qlt_trans _ x) |]. split.
        -- intros y [<- | Hy]; [now apply Qlt_le_weak | now apply Hall].
        -- intros [|j'] w Hj' Hw; cbn [nth_error] in Hw.
           ++ now injection Hw as <-.
           ++ apply (Hfirst j' w); [lia | exact Hw].
Qed.

(** [np.argmin] returns the first position of a least entry. *)
Lemma argmin_first_least (xs : list Q) (i : nat) :
  argmin xs = Ok i ->
  exists v, nth_error xs i = Some v /\
    (forall w, In w xs -> (v <= w)%Q) /\
    (forall j w, (j < i)%nat -> nth_error xs j = Some w -> (v < w)%Q).
Proof.
  destruct xs as [|x xs]; [discriminate |]. cbn [argmin]. intros [= <-].
  destruct (argmin_from_spec xs 1 0 x) as [[-> Hall] | (j & v & -> & Hj & Hv & Hall & Hfirst)].
  - exists x. split; [reflexivity |]. split.
    + intros w [<- | Hw]; [apply Qle_refl | now apply Hall].
    + intros j w Hj. lia.
  - exists v. split; [exact Hj |]. split.
    + intros w [<- | Hw]; [now apply Qlt_le_weak | now apply Hall].
    + intros [|j'] w Hj' Hw; cbn [nth_error] in Hw.
      * now injection Hw as <-.
      * apply (Hfirst j' w); [lia | exact Hw].
Qed.

(** X9.  The boundary to which [SetAsymShape] attaches a shape file is
    the one nearest to the file's reference surface
    [rAsym_m = R_m - Cpq_km[0]*1e3]: no boundary of [rSigChange_m] is
    closer, and every earlier boundary is strictly farther.  With no
    boundary at all the choice fails with [ValueError]. *)
Theorem nearest_boundary_is_nearest (R_m : Q) (rSigChange_m : list Q) (f : ShapeFile)
    (C0 : Q) :
  nth_error (file_Cpq_km f) 0 = Some C0 ->
  let rAsym_m := (R_m - C0 * 1000)%Q in
  (rSigChange_m = [] -> nearest_boundary R_m rSigChange_m f = Raise ValueError) /\
  (rSigChange_m <> [] ->
   exists iLayer r,
     nearest_boundary R_m rSigChange_m f = Ok iLayer /\
     nth_error rSigChange_m iLayer = Some r /\
     (forall j rj, nth_error rSigChange_m j = Some rj ->
        (Qabs (r - rAsym_m) <= Qabs (rj - rAsym_m))%Q) /\
     (forall j rj, (j < iLayer)%nat -> nth_error rSigChange_m j = Some rj ->
        (Qabs (r - rAsym_m) < Qabs (rj - rAsym_m))%Q)).
Proof.
  intros HC0 rAsym_m. unfold nearest_boundary, item. rewrite HC0. cbn [rbind].
  split; [now intros -> |].
  intros Hne.
  destruct (argmin (map (fun r => Qabs (r - (R_m - C0 * 1000))) rSigChange_m))
    as [i|e] eqn:Harg.
  - destruct (argmin_first_least _ _ Harg) as (v & Hv & Hall & Hfirst).
    rewrite nth_error_map in Hv.
    destruct (nth_error rSigChange_m i) as [r|] eqn:Hr; [|discriminate].
    assert (Hv' : v = Qabs (r - (R_m - C0 * 1000))) by (cbn [option_map] in Hv; congruence).
    subst v.
    exists i, r. split; [reflexivity |]. split; [exact Hr |]. split.
    + intros j rj Hj. apply Hall, in_map_iff. exists rj.
      split; [reflexivity | eapply nth_error_In, Hj].
    + intros j rj Hlt Hj. apply (Hfirst j); [exact Hlt |].
      rewrite nth_error_map, Hj. reflexivity.
  - destruct rSigChange_m; [contradiction | discriminate].
Qed.

Lemma nearest_boundary_is_nearest_witness :
  (demo_rSigChange = [] ->
   nearest_boundary (1560000 # 1) demo_rSigChange (demo_loadtxt "") = Raise ValueError) /\
  (demo_rSigChange <> [] ->
   exists iLayer r,
     nearest_boundary (1560000 # 1) demo_rSigChange (demo_loadtxt "") = Ok iLayer /\
     nth_error demo_rSigChange iLayer = Some r /\
     (forall j rj, nth_error demo_rSigChange j = Some rj ->
        (Qabs (r - ((1560000 # 1) - 10 * 1000)) <= Qabs (rj - ((1560000 # 1) - 10 * 1000)))%Q) /\
     (forall j rj, (j < iLayer)%nat -> nth_error demo_rSigChange j = Some rj ->
        (Qabs (r - ((1560000 # 1) - 10 * 1000)) < Qabs (rj - ((1560000 # 1) - 10 * 1000)))%Q)).
Proof.
  apply (nearest_boundary_is_nearest (1560000 # 1) demo_rSigChange (demo_loadtxt "") 10).
  reflexivity.
Defined.

(** ** Shape files and the cache *)

(** X10.  A shape file is read from disk once: after a first load of a
    file that was not cached, the cache holds it under its name, a
    second load returns the same columns without consulting
    [np.loadtxt] and leaves the cache as it is, and the entries cached
    under other names are not touched. *)
Theorem shape_file_read_once (XidT : Type) (loadtxt loadtxt' : string -> ShapeFile)
    (fName : string) (EOSlist : EOSlistT XidT) :
  loaded XidT EOSlist !! fName = None ->
  exists EOSlist1,
    load_shape XidT loadtxt fName EOSlist = Ok (loadtxt fName, EOSlist1) /\
    load_shape XidT loadtxt' fName EOSlist1 = Ok (loadtxt fName, EOSlist1) /\
    ranges XidT EOSlist1 !! fName = Some ""%string /\
    forall other, other <> fName ->
      loaded XidT EOSlist1 !! other = loaded XidT EOSlist !! other /\
      ranges XidT EOSlist1 !! other = ranges XidT EOSlist !! other.
Proof.
  intros Hfresh. unfold load_shape at 1. rewrite Hfresh.
  eexists. split; [reflexivity |]. split.
  - unfold load_shape. cbn [loaded]. now rewrite lookup_insert_eq.
  - cbn [loaded ranges]. split; [apply lookup_insert_eq |].
    intros other Hother. split; apply lookup_insert_ne; congruence.
Qed.

Lemma shape_file_read_once_witness :
  exists EOSlist1,
    load_shape unit demo_loadtxt "Europa/inductionData/EuropaShape_4piNormDepth.txt"
      (mkEOSlist unit ∅ ∅)
    = Ok (demo_loadtxt "Europa/inductionData/EuropaShape_4piNormDepth.txt", EOSlist1) /\
    load_shape unit (fun _ => mkShapeFile [] [] [] [])
      "Europa/inductionData/EuropaShape_4piNormDepth.txt" EOSlist1
    = Ok (demo_loadtxt "Europa/inductionData/EuropaShape_4piNormDepth.txt", EOSlist1) /\
    ranges unit EOSlist1 !! "Europa/inductionData/EuropaShape_4piNormDepth.txt"%string
    = Some ""%string /\
    forall other, other <> "Europa/inductionData/EuropaShape_4piNormDepth.txt"%string ->
      loaded unit EOSlist1 !! other = loaded unit (mkEOSlist unit ∅ ∅) !! other /\
      ranges unit EOSlist1 !! other = ranges unit (mkEOSlist unit ∅ ∅) !! other.
Proof.
  apply (shape_file_read_once unit demo_loadtxt (fun _ => mkShapeFile [] [] [] [])
           "Europa/inductionData/EuropaShape_4piNormDepth.txt" (mkEOSlist unit ∅ ∅)).
  apply lookup_empty.
Defined.

(** ** [SetGravShape]: the gravity shape of every boundary *)

Lemma set_order_slice_ok (A : ndarray Cplx) (d0 d1 d2 d3 iLayer : nat) (p : Z)
    (vals : nat -> nat -> Cplx -> Cplx) :
  shape A = [d0; d1; d2; d3] -> (iLayer < d0)%nat -> 0 <= p < Z.of_nat d2 ->
  (Z.to_nat (p + 1) <= d3)%nat ->
  exists A',
    set_order_slice A iLayer p vals = Ok A' /\ shape A' = [d0; d1; d2; d3] /\
    (forall s q, (q < Z.to_nat (p + 1))%nat ->
       data A' [iLayer; s; Z.to_nat p; q] = vals s q (data A [iLayer; s; Z.to_nat p; q])) /\
    (forall i s p' q, i <> iLayer \/ p' <> Z.to_nat p \/ (Z.to_nat (p + 1) <= q)%nat ->
       data A' [i; s; p'; q] = data A [i; s; p'; q]).
Proof.
  intros Hsh Hi Hp Hq. unfold set_order_slice. rewrite Hsh.
  destruct (Nat.ltb_spec iLayer d0); [|lia].
  rewrite wrap_index_nonneg by lia. cbn [rbind].
  destruct (Nat.leb_spec (Z.to_nat (p + 1)) d3); [|lia].
  eexists. split; [reflexivity |]. cbn [np.update_where shape data].
  split; [exact Hsh |]. split.
  - intros s q Hlt. rewrite !Nat.eqb_refl.
    destruct (Nat.ltb_spec q (Z.to_nat (p + 1))); [reflexivity | lia].
  - intros i s p' q Hout.
    destruct (Nat.eqb_spec i iLayer), (Nat.eqb_spec p' (Z.to_nat p)),
      (Nat.ltb_spec q (Z.to_nat (p + 1))); cbn [andb]; try reflexivity.
    exfalso. destruct Hout as [Ho | [Ho | Ho]]; [contradiction | contradiction | lia].
Qed.

(** The loop of [SetGravShape] over the boundaries. *)
Lemma gravity_loop_spec (g_chipq : nat -> nat -> Cplx) (scales : list Q) (a : nat)
    (d0 d1 d2 d3 : nat) (G : ndarray Cplx) :
  shape G = [d0; d1; d2; d3] -> (a + length scales <= d0)%nat ->
  (3 <= d2)%nat -> (3 <= d3)%nat ->
  exists G',
    for_each (combine (seq a (length scales)) scales)
      (fun ir A =>
         set_order_slice A (fst ir) 2
           (fun s q _ => C.mul (g_chipq s q) (C.of_real (snd ir)))) G = Ok G' /\
    shape G' = [d0; d1; d2; d3] /\
    (forall j rs s q, nth_error scales j = Some rs -> (q < 3)%nat ->
       data G' [(a + j)%nat; s; 2%nat; q] = C.mul (g_chipq s q) (C.of_real rs)) /\
    (forall i s p q, (i < a)%nat \/ (a + length scales <= i)%nat \/ p <> 2%nat \/ (3 <= q)%nat ->
       data G' [i; s; p; q] = data G [i; s; p; q]).
Proof.
  revert a G. induction scales as [|rs scales IH]; intros a G HG Ha H2 H3.
  - exists G. cbn [length seq combine for_each]. split; [reflexivity |].
    split; [exact HG |]. split; [intros [|j]; discriminate | reflexivity].
  - cbn [length] in Ha. cbn [length seq combine for_each fst snd].
    destruct (set_order_slice_ok G d0 d1 d2 d3 a 2
                (fun s q _ => C.mul (g_chipq s q) (C.of_real rs)) HG)
      as (G1 & -> & HG1 & Hset & Hother); [lia | lia | cbn; lia |].
    cbn [rbind].
    destruct (IH (S a) G1 HG1) as (G' & Hrun & HG' & Hin & Hout); [lia | lia | lia |].
    exists G'. split; [exact Hrun |]. split; [exact HG' |]. split.
    + intros [|j] rs' s q Hj Hq; cbn [nth_error] in Hj.
      * injection Hj as <-. rewrite Nat.add_0_r.
        rewrite Hout by (left; lia). apply (Hset s q). cbn. lia.
      * rewrite Nat.add_succ_r. apply (Hin j rs' s q Hj Hq).
    + intros i s p q Hcase.
      rewrite Hout by (destruct Hcase as [H | [H | [H | H]]]; [left | right; left | right; right; left | right; right; right]; lia).
      apply Hother.
      destruct Hcase as [H | [H | [H | H]]];
        [left; lia | left; lia | right; left; exact H | right; right; cbn; lia].
Qed.

Section GravityShape.
Variable GeodesyNorm2chipq : Z -> list Q -> list Q -> nat -> nat -> Cplx.
Variable normFactor_4pi : Z -> Z -> Q.
Variables (R_m Cmeasured : Q) (rSigChange : list Q).

(** [SetGravShape] on an array with one row per boundary and room for
    degree 2. *)
Lemma SetGravShape_returns (st : ShapeState) (d1 d2 d3 : nat) :
  shape (sh_gravShape_m st) = [length rSigChange; d1; d2; d3] ->
  (3 <= d2)%nat -> (3 <= d3)%nat -> rSigChange <> [] ->
  exists g grav iNear,
    gravity_chipq GeodesyNorm2chipq normFactor_4pi R_m Cmeasured
                  (gravity_defaults (sh_gravity st)) = Ok g /\
    argmin (map (fun rs => Qabs (rs - 1)) (map (fun r => r / R_m)%Q rSigChange)) = Ok iNear /\
    SetGravShape GeodesyNorm2chipq normFactor_4pi R_m Cmeasured rSigChange st
    = Ok (mkShapeState (sh_pMax st) (sh_pLin st) (sh_qLin st) (sh_asymShape_m st) grav
            (sh_zMeanAsym_km st ++ [0%Q]) (sh_iAsymBds st ++ [Z.of_nat iNear])
            (gravity_defaults (sh_gravity st))) /\
    shape grav = [length rSigChange; d1; d2; d3] /\
    (forall i r s q, nth_error rSigChange i = Some r -> (q < 3)%nat ->
       data grav [i; s; 2%nat; q] = C.mul (g s q) (C.of_real (r / R_m))) /\
    (forall i s p q, p <> 2%nat \/ (3 <= q)%nat ->
       data grav [i; s; p; q] = data (sh_gravShape_m st) [i; s; p; q]).
Proof.
  intros Hsh H2 H3 Hne.
  unfold SetGravShape, gravity_chipq. cbv zeta.
  match goal with
  | |- context [rbind (collect ?f ?l) _] =>
      destruct (collect f l) as [H2c|] eqn:Hc; [|discriminate Hc]
  end.
  cbn [rbind].
  match goal with
  | |- context [rbind (collect ?f ?l) _] =>
      destruct (collect f l) as [H2s|] eqn:Hs; [|discriminate Hs]
  end.
  cbn [rbind].
  set (g := GeodesyNorm2chipq 2 H2c H2s).
  destruct (gravity_loop_spec g (map (fun r => r / R_m)%Q rSigChange) 0
              (length rSigChange) d1 d2 d3 (sh_gravShape_m st) Hsh)
    as (grav & Hrun & Hgrav & Hin & Hout); [rewrite length_map; lia | exact H2 | exact H3 |].
  rewrite Hrun. cbn [rbind].
  destruct (argmin (map (fun rs => Qabs (rs - 1)) (map (fun r => r / R_m)%Q rSigChange)))
    as [iNear|] eqn:Harg; [|destruct rSigChange; [contradiction | discriminate Harg]].
  cbn [rbind].
  exists g, grav, iNear. split; [reflexivity |]. split; [reflexivity |].
  split; [reflexivity |]. split; [exact Hgrav |]. split.
  - intros i r s q Hi Hq.
    apply (Hin i (r / R_m)%Q s q); [|exact Hq].
    rewrite nth_error_map, Hi. reflexivity.
  - intros i s p q Hcase. apply Hout.
    destruct Hcase as [H | H]; [right; right; left; exact H | right; right; right; exact H].
Qed.

(** X11.  [SetGravShape] scales one set of coefficients to every
    boundary: on an array with one row per boundary and room for degree
    2 it returns, the degree-2 block of boundary [i] is the coefficient
    array [g_chipq_m] times [rSigChange_m[i] / R_m], entries of other
    degrees and the asymmetric shape are left as they were, a mean depth
    of 0 is appended, and the boundary index appended is that of the
    boundary nearest to the surface. *)
Theorem gravity_shape_scales_with_radius (st : ShapeState) (d1 d2 d3 : nat) :
  shape (sh_gravShape_m st) = [length rSigChange; d1; d2; d3] ->
  (3 <= d2)%nat -> (3 <= d3)%nat -> rSigChange <> [] ->
  exists st' g iNear rNear,
    SetGravShape GeodesyNorm2chipq normFactor_4pi R_m Cmeasured rSigChange st = Ok st' /\
    gravity_chipq GeodesyNorm2chipq normFactor_4pi R_m Cmeasured
                  (gravity_defaults (sh_gravity st)) = Ok g /\
    (forall i r s q, nth_error rSigChange i = Some r -> (q < 3)%nat ->
       data (sh_gravShape_m st') [i; s; 2%nat; q] = C.mul (g s q) (C.of_real (r / R_m))) /\
    (forall i s p q, p <> 2%nat \/ (3 <= q)%nat ->
       data (sh_gravShape_m st') [i; s; p; q] = data (sh_gravShape_m st) [i; s; p; q]) /\
    sh_asymShape_m st' = sh_asymShape_m st /\
    sh_zMeanAsym_km st' = sh_zMeanAsym_km st ++ [0%Q] /\
    sh_iAsymBds st' = sh_iAsymBds st ++ [Z.of_nat iNear] /\
    nth_error rSigChange iNear = Some rNear /\
    forall j rj, nth_error rSigChange j = Some rj ->
      (Qabs (rNear / R_m - 1) <= Qabs (rj / R_m - 1))%Q.
Proof.
  intros Hsh H2 H3 Hne.
  destruct (SetGravShape_returns st d1 d2 d3 Hsh H2 H3 Hne)
    as (g & grav & iNear & Hg & Harg & Hrun & _ & Hin & Hout).
  destruct (argmin_first_least _ _ Harg) as (v & Hv & Hall & _).
  rewrite !nth_error_map in Hv.
  destruct (nth_error rSigChange iNear) as [rNear|] eqn:HrNear; [|discriminate].
  assert (Hv' : v = Qabs (rNear / R_m - 1)) by (cbn [option_map] in Hv; congruence).
  subst v.
  eexists _, g, iNear, rNear. split; [exact Hrun |].
  cbn [sh_gravShape_m sh_asymShape_m sh_zMeanAsym_km sh_iAsymBds].
  split; [exact Hg |]. split; [exact Hin |]. split; [exact Hout |].
  split; [reflexivity |]. split; [reflexivity |]. split; [reflexivity |].
  split; [exact HrNear |].
  intros j rj Hj. apply Hall.
  apply in_map_iff. exists (rj / R_m)%Q. split; [reflexivity |].
  apply in_map_iff. exists rj. split; [reflexivity | eapply nth_error_In, Hj].
Qed.
End GravityShape.

Lemma gravity_shape_scales_with_radius_witness :
  exists st' g iNear rNear,
    SetGravShape demo_chipq demo_norm4pi (1560000 # 1) (346 # 1000) demo_rSigChange
                 demo_shape_grav = Ok st' /\
    gravity_chipq demo_chipq demo_norm4pi (1560000 # 1) (346 # 1000)
                  (gravity_defaults (sh_gravity demo_shape_grav)) = Ok g /\
    (forall i r s q, nth_error demo_rSigChange i = Some r -> (q < 3)%nat ->
       data (sh_gravShape_m st') [i; s; 2%nat; q]
       = C.mul (g s q) (C.of_real (r / (1560000 # 1)))) /\
    (forall i s p q, p <> 2%nat \/ (3 <= q)%nat ->
       data (sh_gravShape_m st') [i; s; p; q] = data (sh_gravShape_m demo_shape_grav) [i; s; p; q]) /\
    sh_asymShape_m st' = sh_asymShape_m demo_shape_grav /\
    sh_zMeanAsym_km st' = sh_zMeanAsym_km demo_shape_grav ++ [0%Q] /\
    sh_iAsymBds st' = sh_iAsymBds demo_shape_grav ++ [Z.of_nat iNear] /\
    nth_error demo_rSigChange iNear = Some rNear /\
    forall j rj, nth_error demo_rSigChange j = Some rj ->
      (Qabs (rNear / (1560000 # 1) - 1) <= Qabs (rj / (1560000 # 1) - 1))%Q.
Proof.
  apply (gravity_shape_scales_with_radius demo_chipq demo_norm4pi (1560000 # 1)
           (346 # 1000) demo_rSigChange demo_shape_grav 2 3 3).
  - reflexivity.
  - lia.
  - lia.
  - discriminate.
Defined.

(** ** [SetAsymShape] when no shape file is found *)

Section NoShapeFile.
Variable XidT : Type.
Variable GeodesyNorm2chipq : Z -> list Q -> list Q -> nat -> nat -> Cplx.
Variable normFactor_4pi : Z -> Z -> Q.
Variable FilesMatchingPattern : string -> list string.
Variable loadtxt : string -> ShapeFile.
Variable path_join : string -> string -> string.
Variable np_unique_Q : list Q -> list Q.
Variable np_unique_Z : list Z -> list Z.

(** X12.  When no shape file matches, [SetAsymShape] falls back to the
    gravity shape alone, in either mode and whatever degree cap was
    requested: it returns with [pMax = 2], an all-zero [asymShape_m] of
    shape [(nBds, 2, 3, 3)], a gravity array of the same shape filled by
    [SetGravShape], the default degree and order lists up to 2 when none
    were set, one mean depth (0) appended, and the cache untouched. *)
Theorem no_shape_file_fallback
    (name bodyname : string) (R_m Cmeasured : Q) (rSigChange : list Q) (nBds : Z)
    (st : ShapeState) (asymFstring inductPath : string) (CONCENTRIC_ASYM : bool)
    (EOSlist : EOSlistT XidT) :
  find_shape_files FilesMatchingPattern path_join name bodyname asymFstring inductPath = [] ->
  rSigChange <> [] -> nBds = Z.of_nat (length rSigChange) ->
  exists st',
    SetAsymShape XidT GeodesyNorm2chipq normFactor_4pi FilesMatchingPattern loadtxt
      path_join np_unique_Q np_unique_Z name bodyname R_m Cmeasured rSigChange nBds st
      asymFstring inductPath CONCENTRIC_ASYM EOSlist = Ok (st', EOSlist) /\
    sh_pMax st' = Some 2 /\
    sh_asymShape_m st' = np.zeros C.zero [length rSigChange; 2; 3; 3]%nat /\
    shape (sh_gravShape_m st') = [length rSigChange; 2; 3; 3]%nat /\
    (sh_pLin st = None ->
     sh_pLin st' = Some (nLin_of 2) /\ sh_qLin st' = Some (mLin_of 2)) /\
    sh_zMeanAsym_km st' = sh_zMeanAsym_km st ++ [0%Q].
Proof.
  intros Hfiles Hne HnBds.
  assert (Hzeros : forall p, 0 <= p ->
            shape_zeros nBds p
            = Ok (np.zeros C.zero [length rSigChange; 2%nat; Z.to_nat (p + 1);
                                   Z.to_nat (p + 1)])).
  { intros p Hp. unfold shape_zeros.
    destruct (Z.ltb_spec nBds 0); [lia |]. destruct (Z.ltb_spec (p + 1) 0); [lia |].
    cbn [orb]. now rewrite HnBds, Nat2Z.id. }
  assert (Hfinish : forall st1,
            sh_pLin st1 = sh_pLin st -> sh_qLin st1 = sh_qLin st ->
            sh_zMeanAsym_km st1 = sh_zMeanAsym_km st ->
            exists st',
              finish_shapes GeodesyNorm2chipq normFactor_4pi np_unique_Q np_unique_Z
                            R_m Cmeasured rSigChange nBds true st1 = Ok st' /\
              sh_pMax st' = Some 2 /\
              sh_asymShape_m st' = np.zeros C.zero [length rSigChange; 2; 3; 3]%nat /\
              shape (sh_gravShape_m st') = [length rSigChange; 2; 3; 3]%nat /\
              (sh_pLin st = None ->
               sh_pLin st' = Some (nLin_of 2) /\ sh_qLin st' = Some (mLin_of 2)) /\
              sh_zMeanAsym_km st' = sh_zMeanAsym_km st ++ [0%Q]).
  { intros st1 HpL HqL HzM. unfold finish_shapes.
    rewrite (Hzeros 2) by lia. cbn [rbind sh_pMax sh_pLin sh_qLin sh_asymShape_m
                                    sh_zMeanAsym_km sh_iAsymBds sh_gravity].
    change (2 <=? 2) with true. cbv iota.
    destruct (sh_pLin st1) as [pl|] eqn:HpL1; cbv beta iota zeta;
      (match goal with
       | |- context [SetGravShape _ _ _ _ _ ?s3] =>
           destruct (SetGravShape_returns GeodesyNorm2chipq normFactor_4pi R_m Cmeasured
                       rSigChange s3 2 3 3 eq_refl ltac:(lia) ltac:(lia) Hne)
             as (g & grav & iNear & _ & _ & Hrun & Hgrav & _ & _)
       end);
      rewrite Hrun; eexists; (split; [reflexivity |]);
      cbn [sh_pMax sh_asymShape_m sh_gravShape_m sh_pLin sh_qLin sh_zMeanAsym_km];
      (split; [reflexivity |]); (split; [reflexivity |]); (split; [exact Hgrav |]);
      (split; [|now rewrite HzM]); intros Hnone; rewrite Hnone in HpL.
    - discriminate HpL.
    - split; reflexivity. }
  unfold SetAsymShape. rewrite Hfiles. cbn [length Nat.eqb].
  destruct CONCENTRIC_ASYM.
  - rewrite bool_decide_eq_false_2 by (apply not_elem_of_nil). cbn [rbind].
    destruct (Hfinish st eq_refl eq_refl eq_refl) as (st' & Hrun & Hrest).
    rewrite Hrun. cbn [rbind]. exists st'. split; [reflexivity | exact Hrest].
  - unfold per_boundary_shape, load_shapes. cbn [for_each rbind collect length Nat.ltb Nat.leb].
    cbn [fst snd limit_pMax]. change (0 <? 0) with false. cbv iota.
    rewrite (Hzeros 0) by lia. cbn [rbind fst snd].
    match goal with
    | |- context [finish_shapes _ _ _ _ _ _ _ _ _ ?s1] =>
        destruct (Hfinish s1 eq_refl eq_refl eq_refl) as (st' & Hrun & Hrest)
    end.
    rewrite Hrun. cbn [rbind]. exists st'. split; [reflexivity | exact Hrest].
Qed.
End NoShapeFile.

Lemma no_shape_file_fallback_witness :
  exists st',
    SetAsymShape unit demo_chipq demo_norm4pi demo_no_files demo_loadtxt
      demo_path_join (fun l => l) (fun l => l) "Europa" "Europa" (1560000 # 1) (346 # 1000)
      demo_rSigChange 2 demo_shape0 "Shape_4piNormDepth" "Europa/inductionData"
      false (mkEOSlist unit ∅ ∅) = Ok (st', mkEOSlist unit ∅ ∅) /\
    sh_pMax st' = Some 2 /\
    sh_asymShape_m st' = np.zeros C.zero [length demo_rSigChange; 2; 3; 3]%nat /\
    shape (sh_gravShape_m st') = [length demo_rSigChange; 2; 3; 3]%nat /\
    (sh_pLin demo_shape0 = None ->
     sh_pLin st' = Some (nLin_of 2) /\ sh_qLin st' = Some (mLin_of 2)) /\
    sh_zMeanAsym_km st' = sh_zMeanAsym_km demo_shape0 ++ [0%Q].
Proof.
  apply (no_shape_file_fallback unit demo_chipq demo_norm4pi demo_no_files demo_loadtxt
           demo_path_join (fun l => l) (fun l => l) "Europa" "Europa" (1560000 # 1)
           (346 # 1000) demo_rSigChange 2 demo_shape0 "Shape_4piNormDepth"
           "Europa/inductionData" false (mkEOSlist unit ∅ ∅)).
  - reflexivity.
  - discriminate.
  - reflexivity.
Defined.


(** ** The flow of [SetupInduction]: further properties *)

Section SetupSwitches.
Variable S : Type.
Variables (reduce_block scaling_block : S -> result S).
Variable shape_block : option Z -> S -> result (option Z * S).
Variable xid_block : option Z -> S -> result S.
Variables (nBds_block no_asym_block : S -> S).
Variable excitation_block : option Z -> S -> result S.
Variable binm_block : S -> result S.
Variable ionos_default_block : S -> S.

(** X19.  With [Params.CALC_ASYM] off, [SetupInduction] neither calls
    [SetAsymShape] nor fetches coupling coefficients, and does not read
    [ALLOW_LOW_PMAX]: it does the same whatever those are.  What it
    returns has [CALC_ASYM] still off, and when the conductivity blocks
    were run, a degree cap [pMax] of 0. *)
Theorem asymmetry_off_needs_no_shape (phase : list Z) (NO_H2O : bool)
    (inductOtype : string)
    (DO_INDUCTOGRAM REDUCED_INDUCT CALC_CONDUCT CALC_NEW ALLOW_LOW_PMAX : bool)
    (fl : SetupFlags) (s : S) :
  fl_CALC_ASYM fl = false ->
  (forall shape_block' xid_block' ALLOW_LOW_PMAX',
     SetupInduction S reduce_block scaling_block shape_block xid_block nBds_block
       no_asym_block excitation_block binm_block ionos_default_block
       phase NO_H2O inductOtype DO_INDUCTOGRAM REDUCED_INDUCT CALC_CONDUCT CALC_NEW
       ALLOW_LOW_PMAX fl s
     = SetupInduction S reduce_block scaling_block shape_block' xid_block' nBds_block
         no_asym_block excitation_block binm_block ionos_default_block
         phase NO_H2O inductOtype DO_INDUCTOGRAM REDUCED_INDUCT CALC_CONDUCT CALC_NEW
         ALLOW_LOW_PMAX' fl s) /\
  (forall fl' s',
     SetupInduction S reduce_block scaling_block shape_block xid_block nBds_block
       no_asym_block excitation_block binm_block ionos_default_block
       phase NO_H2O inductOtype DO_INDUCTOGRAM REDUCED_INDUCT CALC_CONDUCT CALC_NEW
       ALLOW_LOW_PMAX fl s = Ok (fl', s') ->
     fl_CALC_ASYM fl' = false /\
     (CALC_CONDUCT && fl_VALID fl' = true -> fl_pMax fl' = Some 0)).
Proof.
  intros Hoff. split.
  - intros shape_block' xid_block' ALLOW'. unfold SetupInduction.
    rewrite Hoff. reflexivity.
  - intros fl' s' H. unfold SetupInduction in H. rewrite Hoff in H.
    destruct (frozen_ocean_check _ _ _ _ _ _ _) as [VALID reason].
    destruct (CALC_CONDUCT && VALID) eqn:Hrun.
    + cbn [asym_guard calls_SetAsymShape guard_pMax guard_CALC_ASYM] in H.
      destruct (if negb _ then _ else _) as [s1|]; [cbn [rbind] in H | discriminate].
      cbn [fst snd] in H.
      destruct (if negb DO_INDUCTOGRAM then _ else _) as [s3|];
        [cbn [rbind] in H | discriminate].
      destruct (binm_block s3) as [s4|]; [cbn [rbind] in H | discriminate].
      injection H as <- <-. now split.
    + injection H as <- <-. cbn [fl_CALC_ASYM fl_VALID fl_pMax].
      split; [reflexivity |]. rewrite Hrun. discriminate.
Qed.

(** X20.  An inductogram in ['sigma'] mode takes the layers as the caller
    set them: [SetupInduction] then runs neither the layer reduction nor
    the conductivity scaling nor [GetBexc], and does not look at the
    phases, so it does the same whatever those are; and it leaves
    [Planet.Do.VALID] and [Planet.invalidReason] as they were. *)
Theorem sigma_inductogram_keeps_layers (phase : list Z) (NO_H2O : bool)
    (REDUCED_INDUCT CALC_CONDUCT CALC_NEW ALLOW_LOW_PMAX : bool)
    (fl : SetupFlags) (s : S) :
  (forall reduce_block' scaling_block' excitation_block' phase' NO_H2O'
          REDUCED_INDUCT' CALC_NEW',
     SetupInduction S reduce_block scaling_block shape_block xid_block nBds_block
       no_asym_block excitation_block binm_block ionos_default_block
       phase NO_H2O "sigma" true REDUCED_INDUCT CALC_CONDUCT CALC_NEW
       ALLOW_LOW_PMAX fl s
     = SetupInduction S reduce_block' scaling_block' shape_block xid_block nBds_block
         no_asym_block excitation_block' binm_block ionos_default_block
         phase' NO_H2O' "sigma" true REDUCED_INDUCT' CALC_CONDUCT CALC_NEW'
         ALLOW_LOW_PMAX fl s) /\
  (forall fl' s',
     SetupInduction S reduce_block scaling_block shape_block xid_block nBds_block
       no_asym_block excitation_block binm_block ionos_default_block
       phase NO_H2O "sigma" true REDUCED_INDUCT CALC_CONDUCT CALC_NEW
       ALLOW_LOW_PMAX fl s = Ok (fl', s') ->
     fl_VALID fl' = fl_VALID fl /\ fl_invalidReason fl' = fl_invalidReason fl).
Proof.
  assert (Hchk : forall ph no red,
            frozen_ocean_check ph "sigma" true red no (fl_VALID fl) (fl_invalidReason fl)
            = (fl_VALID fl, fl_invalidReason fl)).
  { intros ph no red. unfold frozen_ocean_check.
    now rewrite andb_false_r. }
  split.
  - intros. unfold SetupInduction. rewrite !Hchk. reflexivity.
  - intros fl' s' H.
    apply SetupInduction_validity in H. rewrite Hchk in H. now injection H.
Qed.
End SetupSwitches.

Lemma asymmetry_off_needs_no_shape_witness :
  (forall shape_block' xid_block' ALLOW_LOW_PMAX',
     demo_SetupInduction [0; 50] false "Tb" false false true true false
       (mkSetupFlags true None false (Some 4)) []
     = SetupInduction (list string) (demo_block "reduce") (demo_block "scaling")
         shape_block' xid_block' (fun s => s)
         (fun s => s ++ ["no asymmetry"%string]) (fun _ => demo_block "GetBexc")
         (demo_block "Binm") (fun s => s ++ ["ionosphere defaults"%string])
         [0; 50] false "Tb" false false true true ALLOW_LOW_PMAX'
         (mkSetupFlags true None false (Some 4)) []) /\
  (forall fl' s',
     demo_SetupInduction [0; 50] false "Tb" false false true true false
       (mkSetupFlags true None false (Some 4)) [] = Ok (fl', s') ->
     fl_CALC_ASYM fl' = false /\
     (true && fl_VALID fl' = true -> fl_pMax fl' = Some 0)).
Proof.
  apply (asymmetry_off_needs_no_shape (list string) (demo_block "reduce")
           (demo_block "scaling") demo_shape_block (fun _ => demo_block "Xid")
           (fun s => s) (fun s => s ++ ["no asymmetry"%string])
           (fun _ => demo_block "GetBexc") (demo_block "Binm")
           (fun s => s ++ ["ionosphere defaults"%string])
           [0; 50] false "Tb" false false true true false
           (mkSetupFlags true None false (Some 4)) []).
  reflexivity.
Defined.

(** ** The entry point [MagneticInduction] *)

Section EntryPoint.
Variable Rest : Type.
Variable SetupInduction_fn : PlanetView Rest -> ParamsView -> result (PlanetView Rest * ParamsView).
Variable CalcInducedMoments_fn : PlanetView Rest -> ParamsView -> result (PlanetView Rest).
Variable ReloadMoments_fn : PlanetView Rest -> string -> result (PlanetView Rest).
Variable FourierSpectrum_fn : PlanetView Rest -> ParamsView -> result (PlanetView Rest).
Variable CalcAsymContours_fn : PlanetView Rest -> ParamsView -> result (PlanetView Rest).
Variable ReloadAsym_fn : PlanetView Rest -> ParamsView -> result (PlanetView Rest * ParamsView).
Variable isfile : string -> bool.

#[local] Abbreviation Run :=
  (MagneticInduction Rest SetupInduction_fn CalcInducedMoments_fn ReloadMoments_fn
                     FourierSpectrum_fn CalcAsymContours_fn ReloadAsym_fn isfile).

(** X21.  For a profile that is not valid, and for a run that is to
    reload induced moments whose file does not exist, [MagneticInduction]
    calls none of the other functions, whatever the plotting and
    asymmetry switches say.  It returns [Params] as given and the profile
    with [calcedExc] empty and with an unset [ionosBounds_m] or
    [sigmaIonosPedersen_Sm] replaced by [[nan]]; nothing else of the
    profile has changed. *)
Theorem nothing_to_do_is_skipped (Planet : PlanetView Rest) (Params : ParamsView)
    (fNameOverride : option string) :
  pl_VALID Planet = false \/
  (pa_CALC_NEW_INDUCT Params = false /\
   isfile (match fNameOverride with
           | None => pa_inducedMomentsFile Params
           | Some f => f
           end) = false) ->
  exists Planet',
    Run Planet Params fNameOverride = Ok (Planet', Params) /\
    pl_calcedExc Planet' = Some [] /\
    pl_ionosBounds_m Planet'
    = Some (match pl_ionosBounds_m Planet with None => [NaN] | Some b => b end) /\
    pl_sigmaIonosPedersen_Sm Planet'
    = Some (match pl_sigmaIonosPedersen_Sm Planet with None => [NaN] | Some x => x end) /\
    pl_VALID Planet' = pl_VALID Planet /\
    pl_Benm_nT Planet' = pl_Benm_nT Planet /\
    pl_Binm_nT Planet' = pl_Binm_nT Planet /\
    pl_rest Planet' = pl_rest Planet.
Proof.
  intros H. exists (skip_defaults Rest Planet). split; [|now repeat split].
  unfold MagneticInduction.
  destruct H as [Hv | [Hc Hf]].
  - rewrite Hv. reflexivity.
  - rewrite Hc, andb_false_r. destruct (pl_VALID Planet); [|reflexivity].
    rewrite Hf. reflexivity.
Qed.

End EntryPoint.

Lemma nothing_to_do_is_skipped_witness :
  exists Planet',
    demo_MagneticInduction (fun _ _ => Raise RuntimeError) (fun _ => false)
      (demo_planet_view true) (demo_params_view false false) None
    = Ok (Planet', demo_params_view false false) /\
    pl_calcedExc Planet' = Some [] /\
    pl_ionosBounds_m Planet' = Some [NaN] /\
    pl_sigmaIonosPedersen_Sm Planet' = Some [Fin (1 # 10000)] /\
    pl_VALID Planet' = true /\
    pl_Benm_nT Planet' = None /\
    pl_Binm_nT Planet' = None /\
    pl_rest Planet' = tt.
Proof.
  apply (nothing_to_do_is_skipped unit (fun _ _ => Raise RuntimeError)
           (fun _ _ => Raise RuntimeError) (fun _ _ => Raise RuntimeError)
           (fun _ _ => Raise RuntimeError) (fun _ _ => Raise RuntimeError)
           (fun _ _ => Raise RuntimeError) (fun _ => false)
           (demo_planet_view true) (demo_params_view false false) None).
  right. split; reflexivity.
Defined.


(** ** [Bxyz2Bsph]: a rotation of the components *)

Section Rotation.
Variables (np_sin np_cos : Q -> Q).

(** X23.  At angles where sine and cosine satisfy [sin^2 + cos^2 = 1],
    [Bxyz2Bsph] keeps the squared magnitude of the vector, and the
    Cartesian components are recovered from the spherical ones by the
    transposed combination. *)
Theorem Bxyz2Bsph_preserves_magnitude (Bx By Bz theta phi : Q) :
  (np_sin theta * np_sin theta + np_cos theta * np_cos theta == 1)%Q ->
  (np_sin phi * np_sin phi + np_cos phi * np_cos phi == 1)%Q ->
  let '(Br, Bth, Bphi) := Bxyz2Bsph np_sin np_cos Bx By Bz theta phi in
  (Br * Br + Bth * Bth + Bphi * Bphi == Bx * Bx + By * By + Bz * Bz)%Q /\
  (np_sin theta * np_cos phi * Br + np_cos theta * np_cos phi * Bth
   - np_sin phi * Bphi == Bx)%Q /\
  (np_sin theta * np_sin phi * Br + np_cos theta * np_sin phi * Bth
   + np_cos phi * Bphi == By)%Q /\
  (np_cos theta * Br - np_sin theta * Bth == Bz)%Q.
Proof.
  intros Ht Hp. unfold Bxyz2Bsph. cbv zeta.
  set (st := np_sin theta) in *. set (ct := np_cos theta) in *.
  set (sp := np_sin phi) in *. set (cp := np_cos phi) in *.
  split; [|split; [|split]].
  - transitivity ((st * st + ct * ct) * ((cp * Bx + sp * By) * (cp * Bx + sp * By) + Bz * Bz)
                  + (- sp * Bx + cp * By) * (- sp * Bx + cp * By))%Q; [ring|].
    rewrite Ht.
    transitivity ((sp * sp + cp * cp) * (Bx * Bx + By * By) + Bz * Bz)%Q; [ring|].
    rewrite Hp. ring.
  - transitivity ((st * st + ct * ct) * (cp * cp * Bx + cp * sp * By)
                  + sp * sp * Bx - sp * cp * By)%Q; [ring|].
    rewrite Ht.
    transitivity ((sp * sp + cp * cp) * Bx)%Q; [ring|]. rewrite Hp. ring.
  - transitivity ((st * st + ct * ct) * (sp * cp * Bx + sp * sp * By)
                  - cp * sp * Bx + cp * cp * By)%Q; [ring|].
    rewrite Ht.
    transitivity ((sp * sp + cp * cp) * By)%Q; [ring|]. rewrite Hp. ring.
  - transitivity ((st * st + ct * ct) * Bz)%Q; [ring|]. rewrite Ht. ring.
Qed.
End Rotation.

Lemma Bxyz2Bsph_preserves_magnitude_witness :
  let '(Br, Bth, Bphi) :=
    Bxyz2Bsph (fun _ => 3 # 5) (fun _ => 4 # 5) (10 # 1) (20 # 1) (30 # 1) 0 0 in
  (Br * Br + Bth * Bth + Bphi * Bphi
   == (10 # 1) * (10 # 1) + (20 # 1) * (20 # 1) + (30 # 1) * (30 # 1))%Q /\
  ((3 # 5) * (4 # 5) * Br + (4 # 5) * (4 # 5) * Bth - (3 # 5) * Bphi == 10 # 1)%Q /\
  ((3 # 5) * (3 # 5) * Br + (4 # 5) * (3 # 5) * Bth + (4 # 5) * Bphi == 20 # 1)%Q /\
  ((4 # 5) * Br - (3 # 5) * Bth == 30 # 1)%Q.
Proof.
  apply (Bxyz2Bsph_preserves_magnitude (fun _ => 3 # 5) (fun _ => 4 # 5)
           (10 # 1) (20 # 1) (30 # 1) 0 0)%Q; reflexivity.
Defined.

(** ** [SetAsymShape] in concentric mode *)

Lemma setitem_origin_ok (A : ndarray Cplx) (d0 d1 d2 d3 i : nat) (v : Cplx) :
  shape A = [d0; d1; d2; d3] -> (i < d0)%nat -> (1 <= d1)%nat -> (1 <= d2)%nat ->
  (1 <= d3)%nat ->
  np.setitem A [Z.of_nat i; 0; 0; 0] v
  = Ok (mkArray [d0; d1; d2; d3]
          (fun k => if list_nat_eqb [i; 0; 0; 0]%nat k then v else data A k)).
Proof.
  intros Hsh Hi H1 H2 H3. unfold np.setitem. rewrite Hsh. cbn [wrap_indices].
  rewrite !wrap_index_nonneg by lia. cbn [rbind]. rewrite Nat2Z.id. reflexivity.
Qed.

(** The loop of the concentric mode over the boundaries, for one degree. *)
Lemma concentric_layer_loop_spec (chipq : nat -> nat -> Cplx) (rSig : list Q)
    (scales : list Q) (a d1 d2 d3 : nat) (p : Z) (A : ndarray Cplx) :
  shape A = [length rSig; d1; d2; d3] -> (a + length scales <= length rSig)%nat ->
  (1 <= d1)%nat -> 1 <= p < Z.of_nat d2 -> (Z.to_nat (p + 1) <= d3)%nat ->
  exists A',
    for_each (combine (seq a (length scales)) scales)
      (fun ir A =>
         r <~ item rSig (fst ir) ;;
         A1 <~ np.setitem A [Z.of_nat (fst ir); 0; 0; 0] (C.of_real r) ;;
         set_order_slice A1 (fst ir) p
           (fun s q _ => C.mul (chipq s q) (C.of_real (snd ir)))) A = Ok A' /\
    shape A' = [length rSig; d1; d2; d3] /\
    (forall j rs s q, nth_error scales j = Some rs -> (q < Z.to_nat (p + 1))%nat ->
       data A' [(a + j)%nat; s; Z.to_nat p; q] = C.mul (chipq s q) (C.of_real rs)) /\
    (forall j r, (j < length scales)%nat -> nth_error rSig (a + j) = Some r ->
       data A' [(a + j)%nat; 0; 0; 0]%nat = C.of_real r) /\
    (forall i s p' q,
       ((i < a)%nat \/ (a + length scales <= i)%nat) \/
       (p' <> Z.to_nat p /\ [s; p'; q] <> [0; 0; 0]%nat) \/
       (Z.to_nat (p + 1) <= q)%nat ->
       data A' [i; s; p'; q] = data A [i; s; p'; q]).
Proof.
  intros HA Ha H1 Hp Hq. revert a A HA Ha.
  induction scales as [|rs scales IH]; intros a A HA Ha.
  - exists A. cbn [length seq combine for_each]. split; [reflexivity |].
    split; [exact HA |]. split; [intros [|j]; discriminate |].
    split; [cbn [length]; intros; lia | reflexivity].
  - cbn [length] in Ha. cbn [length seq combine for_each fst snd].
    destruct (item_ok rSig a) as (r & -> & Hr); [lia |]. cbn [rbind].
    rewrite (setitem_origin_ok A (length rSig) d1 d2 d3 a (C.of_real r) HA)
      by lia.
    cbn [rbind].
    set (A1 := mkArray _ _).
    destruct (set_order_slice_ok A1 (length rSig) d1 d2 d3 a p
                (fun s q _ => C.mul (chipq s q) (C.of_real rs)) eq_refl)
      as (A2 & -> & HA2 & Hset & Hother); [lia | lia | lia |].
    cbn [rbind].
    destruct (IH (S a) A2 HA2) as (A' & Hrun & HA' & Hin & Horig & Hout); [lia |].
    exists A'. split; [exact Hrun |]. split; [exact HA' |].
    assert (Hp0 : Z.to_nat p <> 0%nat) by lia.
    split; [|split].
    + intros [|j] rs' s q Hj Hlt; cbn [nth_error] in Hj.
      * injection Hj as <-. rewrite Nat.add_0_r.
        rewrite Hout by (left; left; lia). apply (Hset s q Hlt).
      * rewrite Nat.add_succ_r. apply (Hin j rs' s q Hj Hlt).
    + intros [|j] r' Hj Hr'.
      * rewrite Nat.add_0_r in *. rewrite Hout by (left; left; lia).
        rewrite Hother by (right; left; lia).
        subst A1. cbn [data]. unfold list_nat_eqb.
        rewrite bool_decide_eq_true_2 by reflexivity. congruence.
      * rewrite Nat.add_succ_r in *. apply (Horig j r'); [cbn [length] in Hj; lia | exact Hr'].
    + intros i s p' q Hcase.
      assert (Hstep : data A2 [i; s; p'; q] = data A [i; s; p'; q]).
      { rewrite Hother.
        - subst A1. cbn [data]. unfold list_nat_eqb.
          rewrite bool_decide_eq_false_2; [reflexivity |].
          intros [= <- <- <- <-].
          destruct Hcase as [[H | H] | [[_ H] | H]]; [lia | lia | now apply H | lia].
        - destruct Hcase as [[H | H] | [[H _] | H]];
            [left; lia | left; lia | right; left; exact H | right; right; exact H]. }
      rewrite <- Hstep. apply Hout.
      destruct Hcase as [[H | H] | [H | H]];
        [left; left; lia | left; right; lia | right; left; exact H | right; right; exact H].
Qed.

(** The loop of the concentric mode over the degrees. *)
Lemma concentric_degree_loop_spec (chipq : Z -> nat -> nat -> Cplx) (rSig scales : list Q)
    (d1 d2 d3 : nat) (ps : list Z) (A : ndarray Cplx) :
  shape A = [length rSig; d1; d2; d3] -> length scales = length rSig ->
  (1 <= d1)%nat ->
  (forall p, In p ps -> 1 <= p < Z.of_nat d2 /\ (Z.to_nat (p + 1) <= d3)%nat) ->
  List.NoDup ps ->
  exists A',
    for_each ps
      (fun p =>
         for_each (combine (seq 0 (length scales)) scales)
           (fun ir A =>
              r <~ item rSig (fst ir) ;;
              A1 <~ np.setitem A [Z.of_nat (fst ir); 0; 0; 0] (C.of_real r) ;;
              set_order_slice A1 (fst ir) p
                (fun s q _ => C.mul (chipq p s q) (C.of_real (snd ir))))) A = Ok A' /\
    shape A' = [length rSig; d1; d2; d3] /\
    (forall p j rs s q, In p ps -> nth_error scales j = Some rs ->
       (q < Z.to_nat (p + 1))%nat ->
       data A' [j; s; Z.to_nat p; q] = C.mul (chipq p s q) (C.of_real rs)) /\
    (ps <> [] -> forall j r, nth_error rSig j = Some r ->
       data A' [j; 0; 0; 0]%nat = C.of_real r) /\
    (forall i s p' q,
       (length rSig <= i)%nat \/
       ((forall p, In p ps -> p' <> Z.to_nat p) /\ [s; p'; q] <> [0; 0; 0]%nat) \/
       (p' < q)%nat ->
       data A' [i; s; p'; q] = data A [i; s; p'; q]).
Proof.
  intros HA Hlen H1 Hps Hnd. revert A HA.
  induction ps as [|p ps IH]; intros A HA.
  - exists A. cbn [for_each]. split; [reflexivity |]. split; [exact HA |].
    split; [intros ? ? ? ? ? []|]. split; [congruence | reflexivity].
  - cbn [for_each].
    destruct (Hps p (or_introl eq_refl)) as [Hp Hq].
    destruct (concentric_layer_loop_spec (chipq p) rSig scales 0 d1 d2 d3 p A HA)
      as (A1 & -> & HA1 & Hin1 & Horig1 & Hout1); [lia | exact H1 | exact Hp | exact Hq |].
    cbn [rbind].
    apply List.NoDup_cons_iff in Hnd as [Hnotin Hnd].
    destruct (IH (fun p' Hp' => Hps p' (or_intror Hp')) Hnd A1 HA1)
      as (A' & Hrun & HA' & Hin & Horig & Hout).
    exists A'. split; [exact Hrun |]. split; [exact HA' |].
    split; [|split].
    + intros p0 j rs s q [<- | Hp0] Hj Hlt.
      * rewrite Hout.
        -- apply (Hin1 j rs s q Hj Hlt).
        -- right; left. split.
           ++ intros p1 Hp1 He.
              assert (p = p1).
              { destruct (Hps p1 (or_intror Hp1)). lia. }
              subst p1. contradiction.
           ++ intros [= _ He _]. lia.
      * apply (Hin p0 j rs s q Hp0 Hj Hlt).
    + intros _ j r Hj.
      destruct ps as [|p1 ps1].
      * cbn [for_each] in Hrun. injection Hrun as <-.
        apply (Horig1 j r); [|exact Hj].
        rewrite Hlen. apply nth_error_Some. congruence.
      * apply (Horig ltac:(discriminate) j r Hj).
    + intros i s p' q Hcase.
      assert (Hstep : data A1 [i; s; p'; q] = data A [i; s; p'; q]).
      { apply Hout1. destruct Hcase as [H | [[H Hno] | H]].
        - left; right. lia.
        - right; left. split; [apply H; now left | exact Hno].
        - destruct (Nat.eq_dec p' (Z.to_nat p)) as [-> | Hne].
          + right; right. lia.
          + right; left. split; [exact Hne |]. intros [= _ -> ->]. lia. }
      rewrite <- Hstep. apply Hout.
      destruct Hcase as [H | [[H Hno] | H]];
        [left; exact H | right; left; split; [intros p1 Hp1; apply H; now right | exact Hno]
        | right; right; exact H].
Qed.

Section ConcentricShape.
Variable GeodesyNorm2chipq : Z -> list Q -> list Q -> nat -> nat -> Cplx.

(** X24.  The concentric mode of [SetAsymShape], for a shape file that
    starts at [p, q = 0, 0], at least one boundary, a degree cap that is
    not negative, and a mean radius [R_m - Cpq_km[0]*1e3] of the file
    other than zero.  The degree cap becomes the smaller of the one
    requested and the top degree of the file.  Every boundary [i] gets,
    at each degree [p] from 1 to the cap and each order up to [p], the
    coefficient of the file scaled by [rSigChange_m[i]] over the mean
    radius of the file; its [[i, 0, 0, 0]] entry holds the radius of the
    boundary, unless the cap is 0, when the loop is not entered and the
    entry stays 0; orders above the degree stay 0. *)
Theorem concentric_shape_scales_file (f : ShapeFile) (R_m : Q) (rSigChange : list Q)
    (st : ShapeState) (C0 : Q) (pTop : Z) :
  check_first_row f = Ok tt -> item (file_Cpq_km f) 0 = Ok C0 ->
  max_item (file_pLin f) = Ok pTop -> 0 <= limit_pMax (sh_pMax st) pTop ->
  rSigChange <> [] -> ~ (R_m - C0 * 1000 == 0)%Q ->
  exists A iNear,
    concentric_shape GeodesyNorm2chipq f R_m rSigChange (Z.of_nat (length rSigChange)) st
    = Ok (mkShapeState (Some (limit_pMax (sh_pMax st) pTop)) (Some (file_pLin f))
            (Some (file_qLin f)) A (sh_gravShape_m st) (sh_zMeanAsym_km st ++ [C0])
            (sh_iAsymBds st ++ [Z.of_nat iNear]) (sh_gravity st)) /\
    shape A = [length rSigChange; 2%nat; Z.to_nat (limit_pMax (sh_pMax st) pTop + 1);
               Z.to_nat (limit_pMax (sh_pMax st) pTop + 1)] /\
    (forall i r p s q, nth_error rSigChange i = Some r ->
       1 <= p <= limit_pMax (sh_pMax st) pTop -> (q <= Z.to_nat p)%nat ->
       data A [i; s; Z.to_nat p; q]
       = C.mul (chipq_of_file GeodesyNorm2chipq f p s q)
               (C.of_real (r / (R_m - C0 * 1000)))) /\
    (forall i r, nth_error rSigChange i = Some r ->
       data A [i; 0; 0; 0]%nat
       = if 1 <=? limit_pMax (sh_pMax st) pTop then C.of_real r else C.zero) /\
    (forall i s p q, (p < q)%nat -> data A [i; s; p; q] = C.zero).
Proof.
  intros Hrow HC0 Htop HpMax Hne _. unfold concentric_shape.
  rewrite Hrow, HC0, Htop. cbn [rbind]. cbv zeta.
  set (pMax := limit_pMax (sh_pMax st) pTop) in *.
  set (rAsym := (R_m - C0 * 1000)%Q).
  unfold shape_zeros.
  destruct (Z.ltb_spec (Z.of_nat (length rSigChange)) 0); [lia |].
  destruct (Z.ltb_spec (pMax + 1) 0); [lia |]. cbn [orb rbind].
  rewrite Nat2Z.id.
  destruct (concentric_degree_loop_spec (chipq_of_file GeodesyNorm2chipq f) rSigChange
              (map (fun r => r / rAsym)%Q rSigChange) 2 (Z.to_nat (pMax + 1))
              (Z.to_nat (pMax + 1)) (range 1 (pMax + 1))
              (np.zeros C.zero [length rSigChange; 2%nat; Z.to_nat (pMax + 1);
                                Z.to_nat (pMax + 1)]) eq_refl)
    as (A & Hloop & HA & Hin & Horig & Hout).
  { apply length_map. }
  { lia. }
  { intros p Hp. apply range_In in Hp. lia. }
  { apply NoDup_range. }
  rewrite Hloop. cbn [rbind].
  destruct (argmin (map (fun r => Qabs (r - rAsym)) rSigChange)) as [iNear|] eqn:Hnear.
  2:{ destruct rSigChange; [congruence | discriminate Hnear]. }
  cbn [rbind]. exists A, iNear. split; [reflexivity |]. split; [exact HA |].
  split; [|split].
  - intros i r p s q Hr Hp Hq.
    apply (Hin p i (r / rAsym)%Q s q).
    + apply range_In. lia.
    + rewrite nth_error_map, Hr. reflexivity.
    + lia.
  - intros i r Hr. destruct (Z.leb_spec 1 pMax) as [H1 | H1].
    + apply (Horig); [|exact Hr].
      intros He. assert (Hin1 : In 1 (range 1 (pMax + 1))) by (apply range_In; lia).
      rewrite He in Hin1. contradiction.
    + assert (He : range 1 (pMax + 1) = []).
      { destruct (range 1 (pMax + 1)) as [|p l] eqn:E; [reflexivity |].
        assert (Hp : In p (range 1 (pMax + 1))) by (rewrite E; now left).
        apply range_In in Hp. lia. }
      rewrite He in Hloop. cbn [for_each] in Hloop. injection Hloop as <-.
      reflexivity.
  - intros i s p q Hlt. rewrite Hout by (right; right; exact Hlt). reflexivity.
Qed.
End ConcentricShape.

Lemma concentric_shape_scales_file_witness :
  exists A iNear,
    concentric_shape demo_chipq (demo_loadtxt "Europa.txt") (1560000 # 1) demo_rSigChange
      (Z.of_nat (length demo_rSigChange)) demo_shape0
    = Ok (mkShapeState (Some (limit_pMax (sh_pMax demo_shape0) 2))
            (Some (file_pLin (demo_loadtxt "Europa.txt")))
            (Some (file_qLin (demo_loadtxt "Europa.txt"))) A
            (sh_gravShape_m demo_shape0) (sh_zMeanAsym_km demo_shape0 ++ [10%Q])
            (sh_iAsymBds demo_shape0 ++ [Z.of_nat iNear]) (sh_gravity demo_shape0)) /\
    shape A = [length demo_rSigChange; 2%nat;
               Z.to_nat (limit_pMax (sh_pMax demo_shape0) 2 + 1);
               Z.to_nat (limit_pMax (sh_pMax demo_shape0) 2 + 1)] /\
    (forall i r p s q, nth_error demo_rSigChange i = Some r ->
       1 <= p <= limit_pMax (sh_pMax demo_shape0) 2 -> (q <= Z.to_nat p)%nat ->
       data A [i; s; Z.to_nat p; q]
       = C.mul (chipq_of_file demo_chipq (demo_loadtxt "Europa.txt") p s q)
               (C.of_real (r / ((1560000 # 1) - 10 * 1000)))) /\
    (forall i r, nth_error demo_rSigChange i = Some r ->
       data A [i; 0; 0; 0]%nat
       = if 1 <=? limit_pMax (sh_pMax demo_shape0) 2 then C.of_real r else C.zero) /\
    (forall i s p q, (p < q)%nat -> data A [i; s; p; q] = C.zero).
Proof.
  apply (concentric_shape_scales_file demo_chipq (demo_loadtxt "Europa.txt")
           (1560000 # 1) demo_rSigChange demo_shape0 10%Q 2).
  - reflexivity.
  - reflexivity.
  - reflexivity.
  - vm_compute. discriminate.
  - discriminate.
  - intros H. vm_compute in H. discriminate H.
Defined.

(** ** [GetBexc]: the cache and the files *)

Lemma kbind_KOk_inv {A B : Type} (r : kresult A) (k : A -> kresult B) (b : B) :
  kbind r k = KOk b -> exists a, r = KOk a /\ k a = KOk b.
Proof. destruct r as [a|e]; [intros H; now exists a | discriminate]. Qed.

Lemma lift_KOk_inv {A : Type} (r : result A) (a : A) : lift r = KOk a -> r = Ok a.
Proof. destruct r; [now intros [= ->] | discriminate]. Qed.

Lemma assign_peak_shape (Benm : ndarray Cplx) (iPeak : nat) (inp : ndarray Cplx)
    (nInp : nat) (rows : list nat) (Benm' : ndarray Cplx) :
  assign_peak Benm iPeak inp nInp rows = Ok Benm' -> shape Benm' = shape Benm.
Proof.
  unfold assign_peak.
  destruct (shape inp) as [|d0 [|d1 [|d2 [|d3 [|]]]]]; try discriminate.
  destruct (shape Benm) as [|e0 [|e1 [|e2 [|e3 [|]]]]] eqn:Hsh; try discriminate.
  destruct (negb _); [discriminate |]. destruct (negb _); [discriminate |].
  destruct rows as [|row [|]]; try discriminate.
  destruct (_ && _); [|discriminate].
  intros [= <-]. cbn [np.update_where shape]. exact Hsh.
Qed.

Section ExcitationCache.
Variable V : Type.
Variable pack : Bexc -> V.
Variable unpack : V -> result Bexc.
Variable periods_obj : list Q -> V.
Variable str_dict : list (string * bool) -> string.
Variable Test_dir : string.
Variable path_join : string -> string -> string.
Variable isfile : string -> bool.
Variable GetBenm : Z -> Z -> string -> string -> list Q * ndarray Cplx * list Q.
Variable Excitations : string -> list (string * option Q).
Variable np_pi : Q.

Lemma pick_peak_shape (BeList : list (string * option Q)) (inpTexc : list Q)
    (inpBenm : ndarray Cplx) (entry : string * bool) (st st' : nat * list Q * ndarray Cplx) :
  pick_peak BeList inpTexc inpBenm entry st = KOk st' ->
  shape (snd st') = shape (snd st).
Proof.
  unfold pick_peak. destruct st as [[iPeak Texc] Benm].
  destruct (snd entry); [|now intros [= <-]].
  intros H. apply kbind_KOk_inv in H as (T & _ & H).
  destruct T as [T|]; [|now injection H as <-].
  apply kbind_KOk_inv in H as (iClosest & _ & H).
  apply kbind_KOk_inv in H as (Tnear & _ & H).
  apply kbind_KOk_inv in H as (Texc' & _ & H).
  apply kbind_KOk_inv in H as (Benm' & HB & H).
  injection H as <-. cbn [snd].
  apply lift_KOk_inv in HB. apply (assign_peak_shape _ _ _ _ _ _ HB).
Qed.

Lemma peaks_loop_shape (BeList : list (string * option Q)) (inpTexc : list Q)
    (inpBenm : ndarray Cplx) (excSelection : list (string * bool))
    (st st' : nat * list Q * ndarray Cplx) :
  kfor_each excSelection (pick_peak BeList inpTexc inpBenm) st = KOk st' ->
  shape (snd st') = shape (snd st).
Proof.
  revert st. induction excSelection as [|entry rest IH]; intros st H.
  - now injection H as <-.
  - cbn [kfor_each] in H. apply kbind_KOk_inv in H as (st1 & H1 & H).
    rewrite (IH _ H). apply (pick_peak_shape _ _ _ _ _ _ H1).
Qed.

(** X27.  The cache key of [GetBexc] is made of the body name,
    [nprmMax], the era, the model and the selection; [pMax] is not part
    of it.  Once a call has returned moments (loaded from the file or
    taken from the cache), every later call with the same five values
    returns the same four values and leaves [EOSlist] as it is, whatever
    [pMax] it is given and whatever the files then hold.  Moments loaded
    by a call with degree cap [pMax] have shape
    [(nPeaks, 2, pMax+2, pMax+2)], so a later call that asks for another
    [pMax] still gets an array of that shape.  (Unpacking a stored tuple
    is assumed to give back its four values.) *)
Theorem excitation_cache_ignores_pMax (bodyname : string) (era model : option string)
    (excSelection : list (string * bool)) (nprmMax pMax : Z) (EOSlist EOSlist1 : ExcCache V)
    (b : Bexc) :
  (forall t, unpack (pack t) = Ok t) ->
  GetBexc V pack unpack periods_obj str_dict Test_dir path_join isfile GetBenm Excitations
          np_pi bodyname era model excSelection nprmMax pMax EOSlist = KOk (b, EOSlist1) ->
  exc_Texc_hr b <> None ->
  (forall pMax' Test_dir' path_join' isfile' GetBenm' Excitations' np_pi',
     GetBexc V pack unpack periods_obj str_dict Test_dir' path_join' isfile' GetBenm'
             Excitations' np_pi' bodyname era model excSelection nprmMax pMax' EOSlist1
     = KOk (b, EOSlist1)) /\
  (exc_loaded V EOSlist !! BeLabel str_dict bodyname era model excSelection nprmMax = None ->
   exists Benm nPeaks,
     exc_Benm_nT b = Some Benm /\
     shape Benm = [nPeaks; 2%nat; Z.to_nat (pMax + 2); Z.to_nat (pMax + 2)]).
Proof.
  intros Hpack Hrun Hfound. unfold GetBexc in Hrun. cbv zeta in Hrun.
  destruct (exc_loaded V EOSlist !! BeLabel str_dict bodyname era model excSelection nprmMax)
    as [v|] eqn:Hhit.
  - apply kbind_KOk_inv in Hrun as (b0 & Hb0 & Hrun). injection Hrun as -> ->.
    split; [|discriminate].
    intros. unfold GetBexc. cbv zeta. rewrite Hhit. rewrite Hb0. reflexivity.
  - destruct (Be_files Test_dir path_join bodyname era model nprmMax) as [fNames fPath]
      eqn:Hfiles.
    apply kbind_KOk_inv in Hrun as (fName0 & Hf0 & Hrun).
    destruct (isfile _).
    2:{ injection Hrun as <- <-. now contradiction Hfound. }
    destruct (GetBenm _ _ _ _) as [[inpTexc inpBenm] B0].
    apply kbind_KOk_inv in Hrun as (selected & _ & Hrun).
    apply kbind_KOk_inv in Hrun as (Benm0 & HB0 & Hrun).
    apply kbind_KOk_inv in Hrun as ([[iPeak Texc] Benm] & Hloop & Hrun).
    injection Hrun as <- <-. split.
    + intros. unfold GetBexc. cbv zeta. cbn [exc_loaded].
      rewrite lookup_insert_eq. rewrite Hpack. reflexivity.
    + intros _. cbn [exc_Benm_nT]. eexists _, _. split; [reflexivity |].
      apply peaks_loop_shape in Hloop. cbn [snd] in Hloop. rewrite Hloop.
      apply lift_KOk_inv in HB0. unfold shape_zeros in HB0.
      destruct (_ || _); [discriminate |]. injection HB0 as <-. cbn [np.zeros shape].
      assert (Hn : 1 <= nprmMax).
      { apply lift_KOk_inv, item_inv in Hf0.
        unfold Be_files in Hfiles.
        assert (Hlen : length fNames = Z.to_nat nprmMax).
        { destruct (String.eqb _ _); injection Hfiles as <- _;
            destruct era, model; rewrite ?length_map, range_length; f_equal; lia. }
        assert (0 < length fNames)%nat by (apply nth_error_Some; congruence). lia. }
      destruct (Z.ltb_spec 1 nprmMax) as [Hgt | Hle].
      * replace (1 + pMax + 1) with (pMax + 2) by lia. reflexivity.
      * replace (nprmMax + pMax + 1) with (pMax + 2) by lia. reflexivity.
Qed.

(** X28.  On a cache miss, [GetBexc] looks for the one file
    [Be1xyz_<body>[_<era>][_<model>].txt] in [<body>/inductionData]; for
    a body whose name starts with [Test] the file is
    [Be1xyz_Test[_<era>][_<model>].txt] in [_Test/inductionData].  When
    the file is not there, the four values returned are [None] and
    [EOSlist] is unchanged, so nothing is remembered and the next call
    looks again.  With [nprmMax <= 0] the list of file names is empty and
    [fNames[0]] raises [IndexError], whatever files exist. *)
Theorem excitation_file_looked_up_each_time (bodyname : string) (era model : option string)
    (excSelection : list (string * bool)) (nprmMax pMax : Z) (EOSlist : ExcCache V) :
  exc_loaded V EOSlist !! BeLabel str_dict bodyname era model excSelection nprmMax = None ->
  let isTest := String.eqb (String.substring 0 4 bodyname) "Test" in
  let fPath := path_join (if isTest then Test_dir else bodyname) "inductionData" in
  let fName := ("Be1xyz_" +:+ (if isTest then "Test" else bodyname))%string in
  let fName := match era with Some era => (fName +:+ "_" +:+ era)%string | None => fName end in
  let fName :=
    match model with Some model => (fName +:+ "_" +:+ model)%string | None => fName end in
  (nprmMax <= 0 ->
   GetBexc V pack unpack periods_obj str_dict Test_dir path_join isfile GetBenm Excitations
           np_pi bodyname era model excSelection nprmMax pMax EOSlist
   = KRaise (Builtin IndexError)) /\
  (1 <= nprmMax -> isfile (path_join fPath (fName +:+ ".txt")) = false ->
   GetBexc V pack unpack periods_obj str_dict Test_dir path_join isfile GetBenm Excitations
           np_pi bodyname era model excSelection nprmMax pMax EOSlist
   = KOk (mkBexc None None None None, EOSlist)).
Proof.
  intros Hmiss isTest fPath fName0 fName1 fName. split.
  - intros Hn. unfold GetBexc. cbv zeta. rewrite Hmiss. unfold Be_files.
    assert (E : range 1 (nprmMax + 1) = []).
    { unfold range. replace (Z.to_nat (nprmMax + 1 - 1)) with 0%nat by lia. reflexivity. }
    rewrite E. fold isTest.
    destruct isTest, era, model; reflexivity.
  - intros Hn Hfile. unfold GetBexc. cbv zeta. rewrite Hmiss. unfold Be_files.
    assert (E : exists rest, range 1 (nprmMax + 1) = 1 :: rest).
    { unfold range. destruct (Z.to_nat (nprmMax + 1 - 1)) as [|n] eqn:En; [lia |].
      eexists. cbn [seq map]. reflexivity. }
    destruct E as [rest ->]. fold isTest.
    subst fName fName1 fName0 fPath.
    destruct isTest, era, model; cbn [map item nth_error lift kbind];
      (lazymatch goal with
       | |- context [isfile ?x] =>
           let E := fresh in assert (E : isfile x = false) by exact Hfile; rewrite E
       end); reflexivity.
Qed.
End ExcitationCache.

Lemma kok_value_eq {A : Type} (default : A) (r : kresult A) :
  is_kok r = true -> r = KOk (kok_value default r).
Proof. destruct r; [reflexivity | discriminate]. Qed.

Lemma excitation_cache_ignores_pMax_witness :
  let run := demo_GetBexc (fun _ => true) "Europa" None (Some "Jupiter"%string)
               demo_excSelection 1 0 (mkExcCache Bexc ∅ ∅) in
  let b := fst (kok_value no_Bexc run) in
  let EOSlist1 := snd (kok_value no_Bexc run) in
  (forall pMax' Test_dir' path_join' isfile' GetBenm' Excitations' np_pi',
     GetBexc Bexc (fun b => b) Ok (fun T => mkBexc (Some T) None None None)
             (fun _ => "{...}"%string) Test_dir' path_join' isfile' GetBenm'
             Excitations' np_pi' "Europa" None (Some "Jupiter"%string) demo_excSelection
             1 pMax' EOSlist1
     = KOk (b, EOSlist1)) /\
  (exc_loaded Bexc (mkExcCache Bexc ∅ ∅)
   !! BeLabel (fun _ => "{...}"%string) "Europa" None (Some "Jupiter"%string)
              demo_excSelection 1 = None ->
   exists Benm nPeaks,
     exc_Benm_nT b = Some Benm /\
     shape Benm = [nPeaks; 2%nat; Z.to_nat (0 + 2); Z.to_nat (0 + 2)]).
Proof.
  intros run b EOSlist1.
  apply (excitation_cache_ignores_pMax Bexc (fun b => b) Ok
           (fun T => mkBexc (Some T) None None None) (fun _ => "{...}"%string) "Test"
           demo_path_join (fun _ => true) demo_GetBenm demo_Excitations (355 # 113)
           "Europa" None (Some "Jupiter"%string) demo_excSelection 1 0
           (mkExcCache Bexc ∅ ∅) EOSlist1 b).
  - reflexivity.
  - subst b EOSlist1. rewrite <- surjective_pairing.
    apply (kok_value_eq no_Bexc run). vm_compute. reflexivity.
  - vm_compute. discriminate.
Defined.

Lemma excitation_file_looked_up_each_time_witness :
  let isTest := String.eqb (String.substring 0 4 "TestEuropa") "Test" in
  let fPath := demo_path_join (if isTest then "Test" else "TestEuropa") "inductionData" in
  let fName := ("Be1xyz_" +:+ (if isTest then "Test" else "TestEuropa"))%string in
  let fName :=
    match @None string with Some era => (fName +:+ "_" +:+ era)%string | None => fName end in
  let fName :=
    match Some "Jupiter"%string with
    | Some model => (fName +:+ "_" +:+ model)%string
    | None => fName
    end in
  (1 <= 0 ->
   demo_GetBexc (fun _ => false) "TestEuropa" None (Some "Jupiter"%string)
     demo_excSelection 1 0 (mkExcCache Bexc ∅ ∅)
   = KRaise (Builtin IndexError)) /\
  (1 <= 1 -> (fun _ : string => false) (demo_path_join fPath (fName +:+ ".txt")) = false ->
   demo_GetBexc (fun _ => false) "TestEuropa" None (Some "Jupiter"%string)
     demo_excSelection 1 0 (mkExcCache Bexc ∅ ∅)
   = KOk (mkBexc None None None None, mkExcCache Bexc ∅ ∅)).
Proof.
  apply (excitation_file_looked_up_each_time Bexc (fun b => b) Ok
           (fun T => mkBexc (Some T) None None None) (fun _ => "{...}"%string) "Test"
           demo_path_join (fun _ => false) demo_GetBenm demo_Excitations (355 # 113)
           "TestEuropa" None (Some "Jupiter"%string) demo_excSelection 1 0
           (mkExcCache Bexc ∅ ∅)).
  apply lookup_empty.
Defined.


(** ** [GetBexc]: the periods that are picked *)

Lemma dict_get_In {A : Type} (d : list (string * A)) (k : string) (v : A) :
  dict_get d k = KOk v -> In (k, v) d.
Proof.
  induction d as [|[k' v'] d IH]; [discriminate |]. cbn [dict_get].
  destruct (String.eqb_spec k' k) as [-> | Hne].
  - intros [= ->]. now left.
  - intros H. right. now apply IH.
Qed.

Lemma In_dict_get {A : Type} (d : list (string * A)) (k : string) (v : A) :
  List.NoDup (map fst d) -> In (k, v) d -> dict_get d k = KOk v.
Proof.
  induction d as [|[k' v'] d IH]; [contradiction |]. cbn [map fst dict_get].
  intros Hnd Hin. apply List.NoDup_cons_iff in Hnd as [Hnotin Hnd].
  destruct Hin as [[= -> ->] | Hin].
  - now rewrite String.eqb_refl.
  - destruct (String.eqb_spec k' k) as [-> | Hne]; [|now apply IH].
    exfalso. apply Hnotin. apply in_map_iff. now exists (k, v).
Qed.

Lemma NoDup_map_fst_filter {A B : Type} (p : A * B -> bool) (l : list (A * B)) :
  List.NoDup (map fst l) -> List.NoDup (map fst (List.filter p l)).
Proof.
  induction l as [|x l IH]; [intros; constructor |]. cbn [map List.filter].
  intros Hnd. apply List.NoDup_cons_iff in Hnd as [Hnotin Hnd].
  destruct (p x); [|now apply IH]. cbn [map]. constructor; [|now apply IH].
  intros Hin. apply Hnotin. apply in_map_iff in Hin as (y & Hy & Hin).
  apply List.filter_In in Hin as [Hin _]. apply in_map_iff. now exists y.
Qed.

Lemma kcollect_inv {X A : Type} (f : X -> kresult A) (xs : list X) (ys : list A) :
  kcollect f xs = KOk ys -> Forall2 (fun x y => f x = KOk y) xs ys.
Proof.
  revert ys. induction xs as [|x xs IH]; intros ys H; cbn [kcollect] in H.
  - injection H as <-. constructor.
  - apply kbind_KOk_inv in H as (a & Ha & H).
    apply kbind_KOk_inv in H as (rest & Hrest & H).
    injection H as <-. constructor; [exact Ha | now apply IH].
Qed.

(** The excitations counted by [nPeaks], in the order of [BeList], and
    those the loop picks, in the order of [excSelection]. *)
Lemma counted_peaks (excSelection : list (string * bool))
    (BeList : list (string * option Q)) (selected : list bool) :
  Forall2 (fun kv s => dict_get excSelection (fst kv) = KOk s) BeList selected ->
  length (List.filter (fun b : bool => b)
            (map (fun sv : bool * (string * option Q) =>
                    fst sv && bool_decide (snd (snd sv) <> None))
                 (combine selected BeList)))
  = length (List.filter
              (fun kv : string * option Q =>
                 match dict_get excSelection (fst kv) with
                 | KOk true => bool_decide (snd kv <> None)
                 | _ => false
                 end) BeList).
Proof.
  induction 1 as [|kv s BeList selected Hs _ IH]; [reflexivity |].
  cbn [combine map List.filter fst snd]. rewrite Hs.
  destruct s; cbn [andb]; [|exact IH].
  destruct (bool_decide (snd kv <> None)); cbn [length]; [f_equal |]; exact IH.
Qed.

Lemma same_peaks (excSelection : list (string * bool)) (BeList : list (string * option Q)) :
  List.NoDup (map fst excSelection) -> List.NoDup (map fst BeList) ->
  length (List.filter
            (fun kv : string * option Q =>
               match dict_get excSelection (fst kv) with
               | KOk true => bool_decide (snd kv <> None)
               | _ => false
               end) BeList)
  = length (List.filter
              (fun e : string * bool =>
                 snd e && match dict_get BeList (fst e) with
                          | KOk (Some _) => true
                          | _ => false
                          end) excSelection).
Proof.
  intros HndS HndB.
  set (qA := fun kv : string * option Q => _). set (qB := fun e : string * bool => _).
  rewrite <- (length_map fst (List.filter qA BeList)),
          <- (length_map fst (List.filter qB excSelection)).
  apply Nat.le_antisymm; apply List.NoDup_incl_length;
    try (now apply NoDup_map_fst_filter).
  - intros k Hk. apply in_map_iff in Hk as ([k' v] & <- & Hin).
    apply List.filter_In in Hin as [Hin Hq]. subst qA. cbn [fst snd] in *.
    destruct (dict_get excSelection k') as [[|]|] eqn:Hsel; try discriminate.
    apply bool_decide_eq_true_1 in Hq. destruct v as [T|]; [|congruence].
    apply in_map_iff. exists (k', true). split; [reflexivity |].
    apply List.filter_In. split; [now apply dict_get_In |].
    subst qB. cbn [fst snd andb]. now rewrite (In_dict_get _ _ _ HndB Hin).
  - intros k Hk. apply in_map_iff in Hk as ([k' inc] & <- & Hin).
    apply List.filter_In in Hin as [Hin Hq]. subst qB. cbn [fst snd] in *.
    destruct inc; [|discriminate]. cbn [andb] in Hq.
    destruct (dict_get BeList k') as [[T|]|] eqn:HT; try discriminate.
    apply in_map_iff. exists (k', Some T). split; [reflexivity |].
    apply List.filter_In. split; [now apply dict_get_In |].
    subst qA. cbn [fst snd]. rewrite (In_dict_get _ _ _ HndS Hin).
    now apply bool_decide_eq_true_2.
Qed.

Lemma insert_then_split (l picks : list Q) (i : nat) (v : Q) :
  (i < length l)%nat ->
  firstn (S i) (<[i := v]> l) ++ picks ++ skipn (S i + length picks) (<[i := v]> l)
  = firstn i l ++ (v :: picks) ++ skipn (i + length (v :: picks)) l.
Proof.
  intros Hi. rewrite insert_take_drop by exact Hi.
  assert (Hl : length (firstn i l) = i) by (rewrite length_firstn; lia).
  assert (E1 : firstn (S i) (firstn i l ++ v :: skipn (S i) l) = firstn i l ++ [v]).
  { rewrite firstn_app, Hl. rewrite firstn_all2 by lia.
    replace (S i - i)%nat with 1%nat by lia. reflexivity. }
  assert (E2 : skipn (S i + length picks) (firstn i l ++ v :: skipn (S i) l)
               = skipn (i + length (v :: picks)) l).
  { rewrite skipn_app, Hl. rewrite (skipn_all2 (firstn i l)) by lia.
    replace (S i + length picks - i)%nat with (S (length picks)) by lia.
    cbn [skipn app length]. rewrite skipn_skipn. f_equal. lia. }
  change (take i l) with (firstn i l). change (drop (S i) l) with (skipn (S i) l).
  rewrite E1, E2. rewrite <- app_assoc. reflexivity.
Qed.

Section PickedPeriods.
Variables (BeList : list (string * option Q)) (inpTexc_hr : list Q)
          (inpBenm_nT : ndarray Cplx).

#[local] Abbreviation wanted_of := 
  (flat_map (fun e : string * bool =>
               if snd e then
                 match dict_get BeList (fst e) with
                 | KOk (Some T) => [T]
                 | _ => []
                 end
               else [])).

#[local] Abbreviation nearest :=
  (fun T Tnear : Q =>
     In Tnear inpTexc_hr /\
     forall T', In T' inpTexc_hr -> (Qabs (Tnear - T) <= Qabs (T' - T))%Q).

Lemma wanted_length (excSelection : list (string * bool)) :
  length (wanted_of excSelection)
  = length (List.filter
              (fun e : string * bool =>
                 snd e && match dict_get BeList (fst e) with
                          | KOk (Some _) => true
                          | _ => false
                          end) excSelection).
Proof.
  induction excSelection as [|[k inc] rest IH]; [reflexivity |].
  cbn [flat_map List.filter fst snd]. rewrite length_app, IH.
  destruct inc; cbn [andb]; [|reflexivity].
  destruct (dict_get BeList k) as [[T|]|]; reflexivity.
Qed.

Lemma peaks_loop_spec (excSelection : list (string * bool)) (iPeak iPeak' : nat)
    (Texc Texc' : list Q) (Benm Benm' : ndarray Cplx) :
  kfor_each excSelection (pick_peak BeList inpTexc_hr inpBenm_nT) (iPeak, Texc, Benm)
  = KOk (iPeak', Texc', Benm') ->
  (iPeak <= length Texc)%nat ->
  exists picks,
    Forall2 nearest (wanted_of excSelection) picks /\
    Texc' = firstn iPeak Texc ++ picks ++ skipn (iPeak + length picks) Texc /\
    (iPeak + length picks <= length Texc)%nat.
Proof.
  revert iPeak Texc Benm.
  induction excSelection as [|[k inc] rest IH]; intros iPeak Texc Benm H Hi.
  - injection H as <- <- <-. exists []. split; [constructor |].
    rewrite Nat.add_0_r. cbn [app length]. split; [now rewrite firstn_skipn | lia].
  - cbn [kfor_each] in H. apply kbind_KOk_inv in H as ([[i1 T1] B1] & Hstep & H).
    unfold pick_peak in Hstep. cbn [fst snd] in Hstep. cbn [flat_map fst snd].
    destruct inc.
    2:{ injection Hstep as <- <- <-. apply (IH _ _ _ H Hi). }
    apply kbind_KOk_inv in Hstep as (T & HT & Hstep). rewrite HT.
    destruct T as [T|].
    2:{ injection Hstep as <- <- <-. apply (IH _ _ _ H Hi). }
    apply kbind_KOk_inv in Hstep as (iClosest & Harg & Hstep).
    apply kbind_KOk_inv in Hstep as (Tnear & Hnear & Hstep).
    apply kbind_KOk_inv in Hstep as (Texc1 & Hset & Hstep).
    apply kbind_KOk_inv in Hstep as (Benm1 & _ & Hstep).
    injection Hstep as <- <- <-.
    destruct (Nat.ltb_spec iPeak (length Texc)) as [Hlt|]; [|discriminate].
    injection Hset as <-.
    apply lift_KOk_inv in Harg, Hnear. apply item_inv in Hnear.
    destruct (argmin_first_least _ _ Harg) as (v & Hv & Hall & _).
    rewrite nth_error_map, Hnear in Hv. cbn [option_map] in Hv.
    assert (Hv' : v = Qabs (Tnear - T)) by congruence. subst v.
    destruct (IH _ _ _ H) as (picks & Hpicks & HT' & Hlen).
    { rewrite length_insert. lia. }
    rewrite length_insert in Hlen.
    exists (Tnear :: picks). split; [|split].
    + cbn [app]. constructor; [|exact Hpicks]. split.
      * eapply nth_error_In, Hnear.
      * intros T' HT'in. apply Hall, in_map_iff. now exists T'.
    + rewrite HT'. apply insert_then_split. exact Hlt.
    + cbn [length]. lia.
Qed.
End PickedPeriods.

Section ExcitationPeriods.
Variable V : Type.
Variable pack : Bexc -> V.
Variable unpack : V -> result Bexc.
Variable periods_obj : list Q -> V.
Variable str_dict : list (string * bool) -> string.
Variable Test_dir : string.
Variable path_join : string -> string -> string.
Variable isfile : string -> bool.
Variable GetBenm : Z -> Z -> string -> string -> list Q * ndarray Cplx * list Q.
Variable Excitations : string -> list (string * option Q).
Variable np_pi : Q.

(** X29.  When [GetBexc] loads the file and returns, [Texc_hr] has one
    period for every excitation that is selected in [excSelection] and
    has a period in the dict of the body, in the order of
    [excSelection] (not that of the dict of periods): the period of the
    file nearest to the wanted one, no period of the file being nearer.
    [omegaExc_radps] is [2 pi / Texc_hr / 3600] and [B0_nT] is the
    background field of the file.  (Keys of a dict are distinct.) *)
Theorem excitation_periods_are_nearest (bodyname : string) (era model : option string)
    (excSelection : list (string * bool)) (nprmMax pMax : Z) (EOSlist EOSlist1 : ExcCache V)
    (b : Bexc) (fNames : list string) (fPath fName0 : string) (inpTexc_hr : list Q)
    (inpBenm_nT : ndarray Cplx) (B0_nT : list Q) :
  exc_loaded V EOSlist !! BeLabel str_dict bodyname era model excSelection nprmMax = None ->
  Be_files Test_dir path_join bodyname era model nprmMax = (fNames, fPath) ->
  nth_error fNames 0 = Some fName0 ->
  GetBenm 1 pMax fPath fName0 = (inpTexc_hr, inpBenm_nT, B0_nT) ->
  List.NoDup (map fst excSelection) -> List.NoDup (map fst (Excitations bodyname)) ->
  GetBexc V pack unpack periods_obj str_dict Test_dir path_join isfile GetBenm Excitations
          np_pi bodyname era model excSelection nprmMax pMax EOSlist = KOk (b, EOSlist1) ->
  exc_Texc_hr b <> None ->
  exists Texc_hr,
    exc_Texc_hr b = Some Texc_hr /\
    exc_omegaExc_radps b = Some (map (fun T => 2 * np_pi / T / 3600)%Q Texc_hr) /\
    exc_B0_nT b = Some B0_nT /\
    Forall2 (fun T Tnear : Q =>
               In Tnear inpTexc_hr /\
               forall T', In T' inpTexc_hr -> (Qabs (Tnear - T) <= Qabs (T' - T))%Q)
            (flat_map (fun e : string * bool =>
                         if snd e then
                           match dict_get (Excitations bodyname) (fst e) with
                           | KOk (Some T) => [T]
                           | _ => []
                           end
                         else []) excSelection)
            Texc_hr.
Proof.
  intros Hmiss Hfiles Hf0 HBenm HndS HndB Hrun Hfound.
  unfold GetBexc in Hrun. cbv zeta in Hrun. rewrite Hmiss, Hfiles in Hrun.
  unfold item in Hrun. rewrite Hf0 in Hrun. cbn [lift kbind] in Hrun.
  assert (Hn : 1 <= nprmMax).
  { unfold Be_files in Hfiles.
    assert (Hlen : length fNames = Z.to_nat nprmMax).
    { destruct (String.eqb _ _); injection Hfiles as <- _;
        destruct era, model; rewrite ?length_map, range_length; f_equal; lia. }
    assert (0 < length fNames)%nat by (apply nth_error_Some; congruence). lia. }
  assert (Hclamp : (if 1 <? nprmMax then 1 else nprmMax) = 1)
    by (destruct (Z.ltb_spec 1 nprmMax); lia).
  rewrite Hclamp in Hrun.
  destruct (isfile _).
  2:{ injection Hrun as <- <-. now contradiction Hfound. }
  rewrite HBenm in Hrun.
  apply kbind_KOk_inv in Hrun as (selected & Hsel & Hrun).
  apply kbind_KOk_inv in Hrun as (Benm0 & _ & Hrun).
  apply kbind_KOk_inv in Hrun as ([[iPeak Texc] Benm] & Hloop & Hrun).
  injection Hrun as <- <-. cbn [exc_Texc_hr exc_omegaExc_radps exc_B0_nT].
  exists Texc. split; [reflexivity |]. split; [reflexivity |]. split; [reflexivity |].
  apply kcollect_inv in Hsel.
  apply (peaks_loop_spec (Excitations bodyname) inpTexc_hr inpBenm_nT) in Hloop;
    [|cbn; lia].
  destruct Hloop as (picks & Hpicks & -> & Hlen).
  rewrite repeat_length in Hlen. cbn [firstn app Nat.add] in *.
  assert (Hcount : length picks
                   = length (List.filter (fun b : bool => b)
                               (map (fun sv : bool * (string * option Q) =>
                                       fst sv && bool_decide (snd (snd sv) <> None))
                                    (combine selected (Excitations bodyname))))).
  { rewrite <- (Forall2_length _ _ _ Hpicks).
    rewrite (wanted_length (Excitations bodyname)).
    rewrite (counted_peaks excSelection _ _ Hsel).
    symmetry. apply (same_peaks _ _ HndS HndB). }
  rewrite skipn_all2 by (rewrite repeat_length; lia).
  rewrite app_nil_r. exact Hpicks.
Qed.
End ExcitationPeriods.

Lemma excitation_periods_are_nearest_witness :
  let run := demo_GetBexc (fun _ => true) "Europa" None (Some "Jupiter"%string)
               demo_excSelection 1 0 (mkExcCache Bexc ∅ ∅) in
  let b := fst (kok_value no_Bexc run) in
  exists Texc_hr,
    exc_Texc_hr b = Some Texc_hr /\
    exc_omegaExc_radps b = Some (map (fun T => 2 * (355 # 113) / T / 3600)%Q Texc_hr) /\
    exc_B0_nT b = Some [0; 0; 400]%Q /\
    Forall2 (fun T Tnear : Q =>
               In Tnear [1118 # 100; 8522 # 100; 560 # 100]%Q /\
               forall T', In T' [1118 # 100; 8522 # 100; 560 # 100]%Q ->
                 (Qabs (Tnear - T) <= Qabs (T' - T))%Q)
            (flat_map (fun e : string * bool =>
                         if snd e then
                           match dict_get (demo_Excitations "Europa") (fst e) with
                           | KOk (Some T) => [T]
                           | _ => []
                           end
                         else []) demo_excSelection)
            Texc_hr.
Proof.
  intros run b.
  apply (excitation_periods_are_nearest Bexc (fun b => b) Ok
           (fun T => mkBexc (Some T) None None None) (fun _ => "{...}"%string) "Test"
           demo_path_join (fun _ => true) demo_GetBenm demo_Excitations (355 # 113)
           "Europa" None (Some "Jupiter"%string) demo_excSelection 1 0
           (mkExcCache Bexc ∅ ∅) (snd (kok_value no_Bexc run)) b
           ["Be1xyz_Europa_Jupiter"%string] (demo_path_join "Europa" "inductionData")
           "Be1xyz_Europa_Jupiter"
           [1118 # 100; 8522 # 100; 560 # 100]%Q
           (snd (fst (demo_GetBenm 1 0 "" ""))) [0; 0; 400]%Q).
  - apply lookup_empty.
  - reflexivity.
  - reflexivity.
  - reflexivity.
  - repeat (constructor; [cbn; intuition discriminate |]). constructor.
  - repeat (constructor; [cbn; intuition discriminate |]). constructor.
  - subst b. rewrite <- surjective_pairing.
    apply (kok_value_eq no_Bexc run). vm_compute. reflexivity.
  - vm_compute. discriminate.
Defined.

(* ================================================================== *)
(** * Thermodynamics *)

(** ** Molality and mass fraction *)

(** X13.  [Ppt2molal] undoes [Molal2ppt] and [Molal2ppt] undoes
    [Ppt2molal]: for a molar mass other than zero, a molality [b] with
    [1 + b*m/1000] other than zero comes back from its mass
    concentration, and a mass concentration other than 1000 ppt comes
    back from its molality. *)
Theorem molality_round_trip (x m_gmol : Q) :
  ~ (m_gmol == 0)%Q ->
  (~ (1 + x * (m_gmol / 1000) == 0)%Q ->
   (Ppt2molal (Molal2ppt x m_gmol) m_gmol == x)%Q) /\
  (~ (x == 1000)%Q ->
   (Molal2ppt (Ppt2molal x m_gmol) m_gmol == x)%Q).
Proof.
  intros Hm. unfold Ppt2molal, Molal2ppt. cbv zeta. split.
  - intros Hd.
    assert (Hd' : ~ (1000 + x * m_gmol == 0)%Q).
    { intros H. apply Hd.
      assert (E : (1 + x * (m_gmol / 1000) == (1000 + x * m_gmol) / 1000)%Q) by field.
      rewrite E, H. reflexivity. }
    field. split; [exact Hd' |]. split; [intros H; lra | exact Hm].
  - intros Hw. field. split; [intros H; apply Hw; lra |].
    split; [exact Hm | intros H; lra].
Qed.

Lemma molality_round_trip_witness :
  (Ppt2molal (Molal2ppt 1 120) 120 == 1)%Q /\ (Molal2ppt (Ppt2molal 100 120) 120 == 100)%Q.
Proof.
  split.
  - refine (proj1 (molality_round_trip 1 120 _) _); discriminate.
  - refine (proj2 (molality_round_trip 100 120 _) _); discriminate.
Defined.


(** ** Mole fraction *)






(** ** The Riemann sum *)

Lemma linspace_Q_spec (a b : Q) (n : Z) :
  2 <= n ->
  exists pts,
    linspace_Q a b n = Ok pts /\ length pts = Z.to_nat n /\
    nth_error pts (Z.to_nat n - 1) = Some b /\
    (forall i, (i < Z.to_nat n)%nat ->
       exists x, nth_error pts i = Some x /\
                 (x == a + inject_Z (Z.of_nat i) * ((b - a) / inject_Z (n - 1)))%Q).
Proof.
  intros Hn. unfold linspace_Q. destruct (Z.ltb_spec n 0); [lia |].
  destruct (Z.ltb_spec 0 (n - 1)); [|lia].
  eexists. split; [reflexivity |]. split; [now rewrite length_map, length_seq |].
  split.
  { rewrite nth_error_map, nth_error_seq.
    destruct (Nat.ltb_spec (Z.to_nat n - 1) (Z.to_nat n)); [|lia].
    cbn [option_map Nat.add andb].
    destruct (Z.eqb_spec (Z.of_nat (Z.to_nat n - 1)) (n - 1)); [reflexivity | lia]. }
  intros i Hi. rewrite nth_error_map, nth_error_seq.
  destruct (Nat.ltb_spec i (Z.to_nat n)); [|lia]. cbn [option_map Nat.add].
  eexists. split; [reflexivity |].
  cbn [andb].
  destruct (Z.eqb_spec (Z.of_nat i) (n - 1)) as [He|_].
  - rewrite He. field. apply inject_Z_nonzero. lia.
  - ring.
Qed.

Lemma np_sum_scaled (f : Q -> Q) (dx : Q) (xs : list Q) :
  (np_sum (map (fun x => f x * dx) xs) == np_sum (map f xs) * dx)%Q.
Proof.
  induction xs as [|x xs IH]; cbn [map np_sum fold_right]; [ring |].
  fold (np_sum (map (fun x0 => (f x0 * dx)%Q) xs)). fold (np_sum (map f xs)).
  rewrite IH. ring.
Qed.

Lemma np_sum_constant (c : Q) (xs : list Q) :
  (np_sum (map (fun _ => c) xs) == inject_Z (Z.of_nat (length xs)) * c)%Q.
Proof.
  induction xs as [|x xs IH]; cbn [map np_sum fold_right length]; [ring |].
  fold (np_sum (map (fun _ => c) xs)). rewrite IH.
  rewrite Nat2Z.inj_succ. unfold Z.succ. rewrite inject_Z_plus. ring.
Qed.

(** X16.  [Integral] is a Riemann sum over [nPts] evenly spaced points
    that counts both ends: for one upper bound [xb] other than [a] and
    [nPts >= 2] it returns [sum(func(x)) * (xb - a)/(nPts - 1)] over the
    points of [np.linspace(a, xb, nPts)], the first of which is [a] and
    the last [xb], so a constant [c] integrates to
    [c * (xb - a) * nPts/(nPts - 1)].  With fewer than two points the
    step [evalPts[1] - evalPts[0]] does not exist and [IndexError] is
    raised, a negative [nPts] raises [ValueError], and an upper bound
    equal to [a] gives 0 whatever [nPts] is. *)
Theorem Integral_counts_both_ends (func : Q -> Q) (a xb : Q) (nPts : Z) :
  ((a == xb)%Q -> Integral func a [xb] nPts = Ok (Scalar 0)) /\
  (~ (a == xb)%Q ->
   (nPts < 0 -> Integral func a [xb] nPts = Raise ValueError) /\
   (0 <= nPts < 2 -> Integral func a [xb] nPts = Raise IndexError) /\
   (2 <= nPts ->
    exists pts x0 v,
      linspace_Q a xb nPts = Ok pts /\ length pts = Z.to_nat nPts /\
      nth_error pts 0 = Some x0 /\ (x0 == a)%Q /\
      nth_error pts (Z.to_nat nPts - 1) = Some xb /\
      Integral func a [xb] nPts = Ok (Scalar v) /\
      (v == np_sum (map func pts) * ((xb - a) / inject_Z (nPts - 1)))%Q /\
      ((forall x, func x = func a) ->
       (v == func a * (xb - a) * (inject_Z nPts / inject_Z (nPts - 1)))%Q))).
Proof.
  split.
  { intros He. unfold Integral, Integral_point. cbn [collect].
    apply Qeq_bool_iff in He. rewrite He. reflexivity. }
  intros Hne.
  assert (Hneq : Qeq_bool a xb = false).
  { destruct (Qeq_bool a xb) eqn:E; [|reflexivity]. apply Qeq_bool_iff in E. contradiction. }
  unfold Integral, Integral_point. cbn [collect]. rewrite Hneq. cbn [negb].
  split; [|split].
  - intros Hn. unfold linspace_Q. destruct (Z.ltb_spec nPts 0); [reflexivity | lia].
  - intros Hn. unfold linspace_Q. destruct (Z.ltb_spec nPts 0); [lia |]. cbn [rbind].
    assert (Hcases : nPts = 0 \/ nPts = 1) by lia.
    destruct Hcases as [-> | ->]; reflexivity.
  - intros Hn.
    destruct (linspace_Q_spec a xb nPts Hn) as (pts & Hpts & Hlen & Hlast & Hnth).
    rewrite Hpts. cbn [rbind].
    destruct (Hnth 0%nat ltac:(lia)) as (x0 & Hx0 & Ex0).
    destruct (Hnth 1%nat ltac:(lia)) as (x1 & Hx1 & Ex1).
    unfold item. rewrite Hx0, Hx1. cbn [rbind].
    assert (Edx : (x1 - x0 == (xb - a) / inject_Z (nPts - 1))%Q).
    { rewrite Ex0, Ex1. change (inject_Z (Z.of_nat 0)) with 0%Q.
      change (inject_Z (Z.of_nat 1)) with 1%Q. field. apply inject_Z_nonzero. lia. }
    exists pts, x0. eexists. split; [reflexivity |]. split; [exact Hlen |].
    split; [exact Hx0 |].
    split; [rewrite Ex0; change (inject_Z (Z.of_nat 0)) with 0%Q; ring |].
    split; [exact Hlast |]. split; [reflexivity |].
    assert (Esum : (np_sum (map (fun evalPt => func evalPt * (x1 - x0)) pts)
                    == np_sum (map func pts) * ((xb - a) / inject_Z (nPts - 1)))%Q)
      by (rewrite np_sum_scaled, Edx; reflexivity).
    split; [exact Esum |].
    intros Hconst. rewrite Esum.
    assert (Emap : map func pts = map (fun _ => func a) pts)
      by (apply map_ext; intros x; apply Hconst).
    rewrite Emap, np_sum_constant, Hlen, Z2Nat.id by lia.
    field. apply inject_Z_nonzero. lia.
Qed.

Lemma Integral_counts_both_ends_witness :
  exists pts x0 v,
    linspace_Q 0 1 50 = Ok pts /\ length pts = Z.to_nat 50 /\
    nth_error pts 0 = Some x0 /\ (x0 == 0)%Q /\
    nth_error pts (Z.to_nat 50 - 1) = Some 1%Q /\
    Integral (fun _ => 3%Q) 0 [1%Q] 50 = Ok (Scalar v) /\
    (v == np_sum (map (fun _ => 3%Q) pts) * ((1 - 0) / inject_Z (50 - 1)))%Q /\
    ((forall x : Q, 3%Q = 3%Q) ->
     (v == 3 * (1 - 0) * (inject_Z 50 / inject_Z (50 - 1)))%Q).
Proof.
  refine (proj2 (proj2 (proj2 (Integral_counts_both_ends (fun _ => 3%Q) 0 1 50) _)) _).
  - discriminate.
  - lia.
Defined.

(** ** Clathrate stability *)

Section ClathrateRows.
Variable np_log : Q -> Q.
Variable phaseClath : Z.

#[local] Abbreviation threshold := (2567 # 1000)%Q.
#[local] Abbreviation floor_zero :=
  (fun P : Q => if Qeq_bool P 0 then (1 # 1000000000000)%Q else P).

Lemma floor_zero_class (P : Q) :
  Qltb (floor_zero P) threshold = Qltb P threshold.
Proof.
  cbv beta. destruct (Qeq_bool P 0) eqn:Hz; [|reflexivity].
  apply Qeq_bool_iff in Hz. unfold Qltb.
  assert (H1 : Qle_bool threshold (1 # 1000000000000) = false) by reflexivity.
  rewrite H1. destruct (Qle_bool threshold P) eqn:Hle; [|reflexivity].
  apply Qle_bool_iff in Hle. rewrite Hz in Hle.
  exfalso. revert Hle. apply Qlt_not_le. reflexivity.
Qed.

Lemma upper_pressures_rows (T_K : list Q) (Ps : list Q) :
  Forall (fun P => Qltb P threshold = false) Ps ->
  List.filter (fun P => Qltb P threshold) Ps = [] /\
  map (fun P => stable_row phaseClath T_K (TclathDissocUpper_K np_log P))
      (List.filter (fun P => Qle_bool threshold P) Ps)
  = map (fun P => stable_row phaseClath T_K (TclathDissoc_K np_log P)) Ps.
Proof.
  induction 1 as [|P Ps HP _ [IH1 IH2]]; [split; reflexivity |].
  cbn [List.filter map]. rewrite HP.
  assert (Hle : Qle_bool threshold P = true)
    by (unfold Qltb in HP; now apply negb_false_iff in HP).
  rewrite Hle. cbn [map]. split; [exact IH1 |].
  rewrite IH2. unfold TclathDissoc_K at 2. now rewrite HP.
Qed.

(** X17.  [ClathStableSloan1998] builds its grid from the rows of the
    pressures below 2.567 MPa followed by the rows of the others.  For
    pressures given in ascending order this is the order of the input:
    row [i] of the grid belongs to the pressure [P_MPa[i]] (with a zero
    replaced by 1e-12, a replacement the caller's array receives too),
    and holds [Constants.phaseClath] exactly at the temperatures below
    the dissociation temperature of that pressure, 0 elsewhere. *)
Theorem clathrate_rows_follow_sorted_pressures (P_MPa T_K : list Q) :
  StronglySorted Qle P_MPa ->
  fst (ClathStableSloan1998 np_log phaseClath P_MPa T_K) = map floor_zero P_MPa /\
  snd (ClathStableSloan1998 np_log phaseClath P_MPa T_K)
  = map (fun P => stable_row phaseClath T_K (TclathDissoc_K np_log P))
        (fst (ClathStableSloan1998 np_log phaseClath P_MPa T_K)).
Proof.
  intros Hsorted. unfold ClathStableSloan1998. cbn [fst snd]. split; [reflexivity |].
  induction Hsorted as [|P Ps Hs IH Hall]; [reflexivity |].
  cbn [map List.filter].
  destruct (Qltb (floor_zero P) threshold) eqn:Hlow.
  - assert (Hupp : Qle_bool threshold (floor_zero P) = false)
      by (unfold Qltb in Hlow; now apply negb_true_iff in Hlow).
    rewrite Hupp. cbn [map app]. rewrite IH.
    unfold TclathDissoc_K at 2. now rewrite Hlow.
  - assert (Hrest : Forall (fun P' => Qltb P' threshold = false) (map floor_zero Ps)).
    { apply List.Forall_forall. intros P' HP'. apply in_map_iff in HP'.
      destruct HP' as (P0 & <- & HP0). rewrite floor_zero_class.
      rewrite floor_zero_class in Hlow. rewrite List.Forall_forall in Hall.
      specialize (Hall P0 HP0). unfold Qltb in *.
      apply negb_false_iff in Hlow. apply negb_false_iff.
      apply Qle_bool_iff in Hlow. apply Qle_bool_iff.
      now apply (Qle_trans _ P). }
    destruct (upper_pressures_rows T_K (map floor_zero (P :: Ps))) as [E1 E2].
    { constructor; [exact Hlow | exact Hrest]. }
    cbn [map List.filter] in E1, E2. rewrite Hlow in E1. cbv iota in E1.
    rewrite E1. cbn [map app]. exact E2.
Qed.
End ClathrateRows.

Lemma clathrate_rows_follow_sorted_pressures_witness :
  fst (ClathStableSloan1998 (fun x => x) 30 [0; 1; 3]%Q [250; 280]%Q)
  = map (fun P : Q => if Qeq_bool P 0 then (1 # 1000000000000)%Q else P) [0; 1; 3]%Q /\
  snd (ClathStableSloan1998 (fun x => x) 30 [0; 1; 3]%Q [250; 280]%Q)
  = map (fun P => stable_row 30 [250; 280]%Q (TclathDissoc_K (fun x => x) P))
        (fst (ClathStableSloan1998 (fun x => x) 30 [0; 1; 3]%Q [250; 280]%Q)).
Proof.
  apply (clathrate_rows_follow_sorted_pressures (fun x => x) 30 [0; 1; 3]%Q [250; 280]%Q).
  repeat constructor; discriminate.
Defined.

(** ** Sea pressure *)



(** ** Seawater: derivatives by differences *)

Lemma broadcast_rev_refl (s : list nat) : broadcast_rev s s = Ok s.
Proof.
  induction s as [|a s IH]; [reflexivity |].
  cbn [broadcast_rev]. rewrite Nat.eqb_refl. cbn [rbind]. rewrite IH. reflexivity.
Qed.

Lemma broadcast_shapes_refl (s : list nat) : broadcast_shapes s s = Ok s.
Proof.
  unfold broadcast_shapes. rewrite broadcast_rev_refl. cbn [rbind].
  now rewrite rev_involutive.
Qed.

Lemma broadcast_index_2 (N M i j : nat) :
  (i < N)%nat -> (j < M)%nat -> broadcast_index [N; M] [i; j] = [i; j].
Proof.
  intros Hi Hj. unfold broadcast_index. cbn [length Nat.sub skipn combine map fst snd].
  destruct (Nat.eqb_spec N 1), (Nat.eqb_spec M 1); repeat f_equal; lia.
Qed.

Lemma np_array_rows_data (rows : list (list Q)) (M i j : nat) (row : list Q) (x : Q) :
  nth_error rows i = Some row -> nth_error row j = Some x ->
  shape (np_array_rows rows M) = [length rows; M] /\
  data (np_array_rows rows M) [i; j] = x.
Proof.
  intros Hrow Hx. destruct rows as [|r0 rows]; [destruct i; discriminate |].
  cbn [np_array_rows shape data]. split; [reflexivity |].
  rewrite (nth_error_nth _ _ _ Hrow). apply (nth_error_nth _ _ _ Hx).
Qed.

Lemma gsw_by_row_ok (f : Q -> Q -> Q -> Q) (w : Q) (A : ndarray Q) (SP : list Q) (M : nat) :
  SP <> [] -> shape A = [length SP; M] ->
  gsw_by_row f w A SP
  = Ok (mkArray [length SP; M]
          (fun k => match k with
                    | i :: _ => f w (data A k) (nth i SP 0%Q)
                    | [] => 0%Q
                    end)).
Proof.
  intros Hne Hsh. unfold gsw_by_row. destruct SP as [|SP0 SPs]; [congruence |].
  rewrite Hsh, Nat.leb_refl. reflexivity.
Qed.

Section SeawaterDerivatives.
Variables (CT_from_t enthalpy : Q -> Q -> Q -> Q).

(** X25.  For [N >= 1] sea pressures, [M] temperatures and a [CT_C] of
    shape [(N, M)], [GetdCTdTanddHdT] returns two [(N, M)] arrays that
    are central differences over [2*dT]: [dCTdT[i, j]] is
    [(CT(T_j + dT) - CT(T_j - dT)) / (2 dT)] at pressure [SP_i], and
    [dHdT[i, j]] the same difference of the enthalpies at those two
    conservative temperatures.  The values in [CT_C] cancel (in exact
    arithmetic): only its shape matters. *)
Theorem derivatives_are_central_differences (wOcean_ppt : Q) (CT_C : ndarray Q)
    (SP_dbar T_C : list Q) (dT : Q) :
  SP_dbar <> [] -> shape CT_C = [length SP_dbar; length T_C] -> ~ (dT == 0)%Q ->
  exists dCTdT dHdT,
    GetdCTdTanddHdT CT_from_t enthalpy wOcean_ppt CT_C SP_dbar T_C dT = Ok (dCTdT, dHdT) /\
    shape dCTdT = [length SP_dbar; length T_C] /\
    shape dHdT = [length SP_dbar; length T_C] /\
    forall i j SP T, nth_error SP_dbar i = Some SP -> nth_error T_C j = Some T ->
      (data dCTdT [i; j]
       == (CT_from_t wOcean_ppt (T + dT) SP - CT_from_t wOcean_ppt (T - dT) SP)
          / (2 * dT))%Q /\
      (data dHdT [i; j]
       == (enthalpy wOcean_ppt (CT_from_t wOcean_ppt (T + dT) SP) SP
           - enthalpy wOcean_ppt (CT_from_t wOcean_ppt (T - dT) SP) SP)
          / (2 * dT))%Q.
Proof.
  intros Hne Hsh HdT.
  set (N := length SP_dbar) in *. set (M := length T_C) in *.
  assert (Hrows : forall d,
            let rows := map (fun SPi => map (fun T => CT_from_t wOcean_ppt T SPi)
                                            (map d T_C)) SP_dbar in
            shape (np_array_rows rows (length (map d T_C))) = [N; M] /\
            forall i j SP T, nth_error SP_dbar i = Some SP -> nth_error T_C j = Some T ->
              data (np_array_rows rows (length (map d T_C))) [i; j]
              = CT_from_t wOcean_ppt (d T) SP).
  { intros d rows. rewrite length_map. split.
    - subst rows. destruct SP_dbar; [congruence |]. cbn [map np_array_rows shape length].
      now rewrite length_map.
    - intros i j SP T Hi Hj.
      apply (np_array_rows_data rows (length T_C) i j
               (map (fun T => CT_from_t wOcean_ppt T SP) (map d T_C))).
      + subst rows. rewrite nth_error_map, Hi. reflexivity.
      + rewrite !nth_error_map, Hj. reflexivity. }
  destruct (Hrows (fun T => T + dT)%Q) as [Hshp Hplus].
  destruct (Hrows (fun T => T - dT)%Q) as [Hshl Hless].
  cbv zeta in Hshp, Hplus, Hshl, Hless.
  unfold GetdCTdTanddHdT, gswT2conservT. cbn [rbind].
  set (CTp := np_array_rows _ (length (map (fun T => (T + dT)%Q) T_C))) in *.
  set (CTl := np_array_rows _ (length (map (fun T => (T - dT)%Q) T_C))) in *.
  unfold np_elementwise. rewrite Hshp, Hshl, Hsh, broadcast_shapes_refl. cbn [rbind].
  unfold np_mean_pair, div_scalar. cbn [shape data].
  rewrite bool_decide_eq_true_2 by reflexivity. cbn [rbind].
  unfold gswEnthalpy_Jkg.
  rewrite (gsw_by_row_ok enthalpy wOcean_ppt CT_C SP_dbar M Hne Hsh),
    (gsw_by_row_ok enthalpy wOcean_ppt CTp SP_dbar M Hne Hshp),
    (gsw_by_row_ok enthalpy wOcean_ppt CTl SP_dbar M Hne Hshl).
  cbn [rbind shape]. fold N.
  rewrite broadcast_shapes_refl. cbn [rbind shape].
  rewrite bool_decide_eq_true_2 by reflexivity. cbn [rbind].
  eexists _, _. split; [reflexivity |]. cbn [shape data].
  split; [reflexivity |]. split; [reflexivity |].
  intros i j SP T Hi Hj.
  assert (HiN : (i < N)%nat) by (apply nth_error_Some; congruence).
  assert (HjM : (j < M)%nat) by (apply nth_error_Some; congruence).
  rewrite !(broadcast_index_2 N M i j HiN HjM).
  rewrite (Hplus i j SP T Hi Hj), (Hless i j SP T Hi Hj).
  rewrite (nth_error_nth _ _ _ Hi).
  split; field; exact HdT.
Qed.
End SeawaterDerivatives.

Lemma derivatives_are_central_differences_witness :
  exists dCTdT dHdT,
    GetdCTdTanddHdT (fun _ T SP => T * T + SP)%Q (fun _ CT _ => 4000 * CT)%Q (35 # 1)
      (np.zeros 0%Q [2; 3]%nat) [0; 1000]%Q [1; 2; 3]%Q (1 # 100) = Ok (dCTdT, dHdT) /\
    shape dCTdT = [length [0; 1000]%Q; length [1; 2; 3]%Q] /\
    shape dHdT = [length [0; 1000]%Q; length [1; 2; 3]%Q] /\
    forall i j SP T, nth_error [0; 1000]%Q i = Some SP -> nth_error [1; 2; 3]%Q j = Some T ->
      (data dCTdT [i; j]
       == ((T + (1 # 100)) * (T + (1 # 100)) + SP - ((T - (1 # 100)) * (T - (1 # 100)) + SP))
          / (2 * (1 # 100)))%Q /\
      (data dHdT [i; j]
       == (4000 * ((T + (1 # 100)) * (T + (1 # 100)) + SP)
           - 4000 * ((T - (1 # 100)) * (T - (1 # 100)) + SP))
          / (2 * (1 # 100)))%Q.
Proof.
  apply (derivatives_are_central_differences (fun _ T SP => T * T + SP)%Q
           (fun _ CT _ => 4000 * CT)%Q (35 # 1) (np.zeros 0%Q [2; 3]%nat)
           [0; 1000]%Q [1; 2; 3]%Q (1 # 100)).
  - discriminate.
  - reflexivity.
  - intros H. vm_compute in H. discriminate H.
Defined.

(** ** Seawater: the phase function *)

Section SeawaterPhase.
Variable gswTfreeze : Q -> Q -> Q -> Q.

(** X26.  [PhaseFunc] on non-empty one-dimensional arrays.  Arrays of
    the same length are paired entry by entry, giving one phase per
    index and not a grid; arrays of different lengths, both longer than
    1, give the [(N, M)] grid with pressure along the first axis; a single
    pressure or temperature is combined with every entry of the other
    array.  Each entry is 1 (ice) when [T - T0] is below the freezing
    temperature GSW gives for the sea pressure, and 0 (liquid)
    otherwise, also at the freezing temperature itself. *)
Theorem phase_pairs_or_grid (w_ppt : Q) (P_MPa T_K : list Q) :
  P_MPa <> [] -> T_K <> [] ->
  let phase := fun P T : Q =>
    if Qlt_le_dec ((T - T0) - gswTfreeze w_ppt (MPa2seaPressure P) 0) 0 then 1 else 0 in
  exists A,
    PhaseFunc gswTfreeze w_ppt (Array P_MPa) (Array T_K) = Ok A /\
    (length P_MPa = length T_K ->
     shape A = [length P_MPa] /\
     forall i P T, nth_error P_MPa i = Some P -> nth_error T_K i = Some T ->
       data A [i] = phase P T) /\
    (length P_MPa <> length T_K -> (2 <= length P_MPa)%nat -> (2 <= length T_K)%nat ->
     shape A = [length P_MPa; length T_K] /\
     forall i j P T, nth_error P_MPa i = Some P -> nth_error T_K j = Some T ->
       data A [i; j] = phase P T) /\
    (length P_MPa = 1%nat ->
     shape A = [length T_K] /\
     forall j P T, nth_error P_MPa 0 = Some P -> nth_error T_K j = Some T ->
       data A [j] = phase P T) /\
    (length T_K = 1%nat ->
     shape A = [length P_MPa] /\
     forall i P T, nth_error P_MPa i = Some P -> nth_error T_K 0 = Some T ->
       data A [i] = phase P T).
Proof.
  intros HP HT phase.
  assert (HN : (1 <= length P_MPa)%nat) by (destruct P_MPa; [congruence | cbn; lia]).
  assert (HM : (1 <= length T_K)%nat) by (destruct T_K; [congruence | cbn; lia]).
  unfold PhaseFunc, np_asarray, np_size, array1, values, meshgrid_ij.
  cbn [shape fold_right]. rewrite !Nat.mul_1_r.
  set (N := length P_MPa) in *. set (M := length T_K) in *.
  destruct (Nat.eqb_spec N 0); [lia |]. destruct (Nat.eqb_spec M 0); [lia |].
  cbn [orb].
  assert (Hidx : forall K i, (i < K)%nat -> broadcast_index [K] [i] = [i]).
  { intros K i Hi. unfold broadcast_index. cbn [length Nat.sub skipn combine map fst snd].
    destruct (Nat.eqb_spec K 1); [f_equal; lia | reflexivity]. }
  assert (Hidx1 : forall i, broadcast_index [1%nat] [i] = [0%nat]) by reflexivity.
  assert (Hlt : forall (xs : list Q) i x, nth_error xs i = Some x -> (i < length xs)%nat)
    by (intros xs i x H; apply nth_error_Some; congruence).
  destruct (Nat.eqb_spec N M) as [Heq | Hneq]; cbn [negb andb].
  - (* same length: paired entry by entry *)
    unfold np_elementwise. cbn [shape]. rewrite <- Heq, broadcast_shapes_refl.
    cbn [rbind]. eexists. split; [reflexivity |]. cbn [shape data].
    split; [|split; [|split]].
    + intros _. split; [reflexivity |]. intros i P T Hi Hj.
      rewrite (Hidx N i (Hlt _ _ _ Hi)).
      now rewrite (nth_error_nth _ _ _ Hi), (nth_error_nth _ _ _ Hj).
    + intros Hc. fold M in Hc. lia.
    + intros H1. split; [f_equal; lia |]. intros j P T Hi Hj.
      assert (j = 0)%nat by (apply Hlt in Hj; fold M in Hj; lia). subst j.
      rewrite H1, Hidx1.
      now rewrite (nth_error_nth _ _ _ Hi), (nth_error_nth _ _ _ Hj).
    + intros H1. split; [reflexivity |]. intros i P T Hi Hj.
      assert (i = 0)%nat by (apply Hlt in Hi; fold N in Hi; lia). subst i.
      rewrite Hidx by lia.
      now rewrite (nth_error_nth _ _ _ Hi), (nth_error_nth _ _ _ Hj).
  - destruct (Nat.eqb_spec N 1) as [HN1 | HN1]; [|destruct (Nat.eqb_spec M 1) as [HM1 | HM1]];
      cbn [orb negb].
    + (* one pressure *)
      unfold np_elementwise. cbn [shape]. rewrite HN1.
      assert (E : broadcast_shapes [M] [1%nat] = Ok [M]).
      { unfold broadcast_shapes. cbn [rev app broadcast_rev].
        destruct (Nat.eqb_spec M 1); [lia |]. cbn [Nat.eqb rbind rev app]. reflexivity. }
      rewrite E. cbn [rbind]. eexists. split; [reflexivity |]. cbn [shape data].
      split; [|split; [|split]].
      * intros Hc. lia.
      * intros _ Hc. lia.
      * intros _. split; [reflexivity |]. intros j P T Hi Hj.
        rewrite Hidx1, (Hidx M j (Hlt _ _ _ Hj)).
        now rewrite (nth_error_nth _ _ _ Hi), (nth_error_nth _ _ _ Hj).
      * intros Hc. lia.
    + (* one temperature *)
      unfold np_elementwise. cbn [shape]. rewrite HM1.
      assert (E : broadcast_shapes [1%nat] [N] = Ok [N]).
      { unfold broadcast_shapes. cbn [rev app broadcast_rev].
        destruct (Nat.eqb_spec 1 N); [lia |]. cbn [Nat.eqb rbind rev app]. reflexivity. }
      rewrite E. cbn [rbind]. eexists. split; [reflexivity |]. cbn [shape data].
      split; [|split; [|split]].
      * intros Hc. lia.
      * intros _ _ Hc. lia.
      * intros Hc. lia.
      * intros _. split; [reflexivity |]. intros i P T Hi Hj.
        rewrite Hidx1, (Hidx N i (Hlt _ _ _ Hi)).
        now rewrite (nth_error_nth _ _ _ Hi), (nth_error_nth _ _ _ Hj).
    + (* a grid *)
      unfold np_elementwise. cbn [shape]. rewrite broadcast_shapes_refl.
      cbn [rbind]. eexists. split; [reflexivity |]. cbn [shape data].
      split; [|split; [|split]].
      * intros Hc. lia.
      * intros _ _ _. split; [reflexivity |]. intros i j P T Hi Hj.
        rewrite (broadcast_index_2 N M i j (Hlt _ _ _ Hi) (Hlt _ _ _ Hj)).
        now rewrite (nth_error_nth _ _ _ Hi), (nth_error_nth _ _ _ Hj).
      * intros Hc. lia.
      * intros Hc. lia.
Qed.
End SeawaterPhase.

Lemma phase_pairs_or_grid_witness :
  let phase := fun P T : Q =>
    if Qlt_le_dec ((T - T0) - (fun _ SP _ => - SP / 1000)%Q (35 # 1) (MPa2seaPressure P) 0) 0
    then 1 else 0 in
  exists A,
    PhaseFunc (fun _ SP _ => - SP / 1000)%Q (35 # 1) (Array [1; 20]%Q)
      (Array [260 # 1; 270 # 1; 280 # 1]%Q) = Ok A /\
    (length [1; 20]%Q = length [260 # 1; 270 # 1; 280 # 1]%Q ->
     shape A = [length [1; 20]%Q] /\
     forall i P T, nth_error [1; 20]%Q i = Some P ->
       nth_error [260 # 1; 270 # 1; 280 # 1]%Q i = Some T -> data A [i] = phase P T) /\
    (length [1; 20]%Q <> length [260 # 1; 270 # 1; 280 # 1]%Q ->
     (2 <= length [1; 20]%Q)%nat -> (2 <= length [260 # 1; 270 # 1; 280 # 1]%Q)%nat ->
     shape A = [length [1; 20]%Q; length [260 # 1; 270 # 1; 280 # 1]%Q] /\
     forall i j P T, nth_error [1; 20]%Q i = Some P ->
       nth_error [260 # 1; 270 # 1; 280 # 1]%Q j = Some T -> data A [i; j] = phase P T) /\
    (length [1; 20]%Q = 1%nat ->
     shape A = [length [260 # 1; 270 # 1; 280 # 1]%Q] /\
     forall j P T, nth_error [1; 20]%Q 0 = Some P ->
       nth_error [260 # 1; 270 # 1; 280 # 1]%Q j = Some T -> data A [j] = phase P T) /\
    (length [260 # 1; 270 # 1; 280 # 1]%Q = 1%nat ->
     shape A = [length [1; 20]%Q] /\
     forall i P T, nth_error [1; 20]%Q i = Some P ->
       nth_error [260 # 1; 270 # 1; 280 # 1]%Q 0 = Some T -> data A [i] = phase P T).
Proof.
  apply (phase_pairs_or_grid (fun _ SP _ => - SP / 1000)%Q (35 # 1) [1; 20]%Q
           [260 # 1; 270 # 1; 280 # 1]%Q); discriminate.
Defined.
